(** * Route tracking core of Little Navmap: a shallow embedding of
      [src/route/route.cpp] and its verification.

    The C++ class [Route] is a [QList<RouteLeg>] with route-level state
    (active leg, total distance, procedure offsets, ...).  The embedding keeps
    the shape of the source:

    - [float] is IEEE-754 binary32, taken from the specification of floating
      point arithmetic of the standard library ([SpecFloat] at precision 24);
    - [int] is [Z]; the only [int] arithmetic of the modelled functions is
      [+ 1] and [- 1] on indices below the list size, so no wrap-around
      occurs;
    - [QList::at] outside the list is an error: functions that index the
      list live in the option monad and [None] is the failed access;
    - the geometry library (atools::geo), the flag constants of maptypes,
      the flight plan of atools::fs::pln and the operations of [RouteLeg]
      are collaborators of the route and enter through the classes
      [GeoLib], [MapFlags], [PlnLib] and [LegOps]. *)

From Stdlib Require Import ZArith Bool Lia SpecFloat.
From stdpp Require Import base option list strings.

Local Open Scope Z_scope.

(** ** binary32 *)

Module F32.
Definition prec : Z := 24.
Definition emax : Z := 128.

Definition float : Type := spec_float.

Definition add : float -> float -> float := SFadd prec emax.
Definition sub : float -> float -> float := SFsub prec emax.
Definition mul : float -> float -> float := SFmul prec emax.
Definition div : float -> float -> float := SFdiv prec emax.
Definition abs : float -> float := SFabs.
Definition opp : float -> float := SFopp.
Definition ltb : float -> float -> bool := SFltb.
Definition gtb (x y : float) : bool := SFltb y x.

(** An integer literal such as [100.f], rounded to nearest even. *)
Definition of_Z (z : Z) : float := binary_normalize prec emax z 0 false.

(** A decimal literal [n / d] where both fit the mantissa. *)
Definition of_ratio (n d : Z) : float := div (of_Z n) (of_Z d).

Definition zero : float := S754_zero false.

(** [std::numeric_limits<float>::max()], (2^24 - 1) * 2^104. *)
Definition max_value : float := S754_finite false 16777215 104.

Definition is_finite (x : float) : bool :=
  match x with
  | S754_zero _ | S754_finite _ _ _ => true
  | _ => false
  end.
End F32.

Abbreviation float := F32.float.

(** ** atools::geo: the geometry library *)

(** [atools::geo::LineDist]: where a position lies relative to a line. *)
Inductive LineDist := INVALID | ALONG_TRACK | BEFORE_START | AFTER_END.

Definition LineDist_eqb (a b : LineDist) : bool :=
  match a, b with
  | INVALID, INVALID | ALONG_TRACK, ALONG_TRACK
  | BEFORE_START, BEFORE_START | AFTER_END, AFTER_END => true
  | _, _ => false
  end.

(** [atools::geo::LineDistance]. *)
Record LineDistance := mkLineDistance {
  status : LineDist;
  distance : float;
  distanceFrom1 : float;
  distanceFrom2 : float
}.

(** The part of atools::geo the route uses.  [distanceMeterToLine p p1 p2] is
    the result that [p.distanceMeterToLine(p1, p2, result)] writes, and
    [Line_distanceMeterToLine l p] the one of [l.distanceMeterToLine(p, r)]. *)
Class GeoLib := {
  Pos : Type;
  Pos_default : Pos;
  EMPTY_POS : Pos;
  Pos_eqb : Pos -> Pos -> bool;
  Pos_isValid : Pos -> bool;
  distanceMeterToLine : Pos -> Pos -> Pos -> LineDistance;
  angleDegTo : Pos -> Pos -> float;
  Pos_interpolate : Pos -> Pos -> float -> Pos;
  normalizeCourse : float -> float;
  geo_mod : float -> float -> float;
  nmToMeter : float -> float;
  Line : Type;
  Line_getPos1 : Line -> Pos;
  Line_distanceMeterToLine : Line -> Pos -> LineDistance;
  LineString : Type;
  LineString_interpolate : LineString -> float -> Pos;
  Rect : Type;
  boundingRectOf : list Pos -> Rect
}.

(** ** maptypes *)

(** Modelled from the spec: [maptypes::INVALID_INDEX_VALUE] is declared in
    common/maptypes.h, which is not among the sources.  The invalid index is
    an [int] far outside any possible index, the largest [int].  The code
    relies on it being above every index: [positionAtDistance] starts
    [foundIndex] at it and takes [foundIndex < size() - 1] for "found". *)
Definition INVALID_INDEX_VALUE : Z := 2147483647.

(** Modelled from the spec: [maptypes::INVALID_DISTANCE_VALUE], declared in
    the same header.  The invalid distance is far outside any possible
    distance; a valid distance is one that is [<] it, and it is the largest
    [float]. *)
Definition INVALID_DISTANCE_VALUE : float := F32.max_value.

(** Modelled from the spec: [maptypes::INVALID_COURSE_VALUE], as the
    distance. *)
Definition INVALID_COURSE_VALUE : float := F32.max_value.

(** The bits of [maptypes::MapObjectTypes] the route tests.  The values are
    declared in common/maptypes.h and stay parameters. *)
Class MapFlags := {
  AIRPORT : Z;
  NAV_MAGVAR : Z;
  PROCEDURE_APPROACH : Z;
  PROCEDURE_MISSED : Z;
  PROCEDURE_TRANSITION : Z;
  PROCEDURE_SID : Z;
  PROCEDURE_STAR : Z;
  PROCEDURE_ARRIVAL : Z;
  PROCEDURE_DEPARTURE : Z;
  PROCEDURE_ALL : Z
}.

(** [a & b] of QFlags converted to [bool]. *)
Definition testFlag (a b : Z) : bool := negb (Z.land a b =? 0).

(** Modelled from the spec: the detailed type of a procedure leg ("hold,
    procedure-turn, initial-fix, course/arc, etc."); the enumeration
    [maptypes::ProcedureLegType] is not among the sources. *)
Inductive ProcedureLegType :=
  INVALID_LEG_TYPE | INITIAL_FIX | PROCEDURE_TURN | HOLD | COURSE_OR_ARC.

Definition ProcedureLegType_eqb (a b : ProcedureLegType) : bool :=
  match a, b with
  | INVALID_LEG_TYPE, INVALID_LEG_TYPE | INITIAL_FIX, INITIAL_FIX
  | PROCEDURE_TURN, PROCEDURE_TURN | HOLD, HOLD
  | COURSE_OR_ARC, COURSE_OR_ARC => true
  | _, _ => false
  end.

(** Modelled from the spec: the variant tag of a leg ("plain route point,
    departure-procedure leg, STAR leg, arrival-procedure leg, transition leg,
    missed-approach leg"). *)
Inductive LegVariant :=
  ROUTE_POINT | DEPARTURE_LEG | STAR_LEG | APPROACH_LEG | TRANSITION_LEG | MISSED_LEG.

Definition LegVariant_eqb (a b : LegVariant) : bool :=
  match a, b with
  | ROUTE_POINT, ROUTE_POINT | DEPARTURE_LEG, DEPARTURE_LEG
  | STAR_LEG, STAR_LEG | APPROACH_LEG, APPROACH_LEG
  | TRANSITION_LEG, TRANSITION_LEG | MISSED_LEG, MISSED_LEG => true
  | _, _ => false
  end.

Section DataModel.
Context `{G : GeoLib}.

(** [maptypes::PosCourse]. *)
Record PosCourse := mkPosCourse { pos : Pos; course : float }.

Definition PosCourse_default : PosCourse :=
  mkPosCourse Pos_default INVALID_COURSE_VALUE.

Definition PosCourse_isValid (p : PosCourse) : bool := Pos_isValid (pos p).

(** [maptypes::MapProcedureLeg], the fields the route reads. *)
Record MapProcedureLeg := mkMapProcedureLeg {
  legType : ProcedureLegType;
  line : Line;
  holdLine : Line;
  turnDirection : string;
  calculatedDistance : float;
  geometry : LineString
}.

(** [maptypes::MapProcedureLegs]: an approach with its optional
    transition. *)
Record MapProcedureLegs := mkMapProcedureLegs {
  transitionLegs : list MapProcedureLeg;
  approachLegs : list MapProcedureLeg
}.

Definition MapProcedureLegs_default : MapProcedureLegs :=
  mkMapProcedureLegs [] [].

Definition MapProcedureLegs_isEmpty (p : MapProcedureLegs) : bool :=
  match transitionLegs p, approachLegs p with
  | [], [] => true
  | _, _ => false
  end.

Definition clearTransition (p : MapProcedureLegs) : MapProcedureLegs :=
  mkMapProcedureLegs [] (approachLegs p).

(** Modelled from the spec: a [RouteLeg] has an immutable identity
    (position, map object type, variant, procedure-leg detail) and derived
    fields that the update operations recompute; route/routeleg.h is not
    among the sources. *)
Record LegIdentity := mkLegIdentity {
  position : Pos;
  mapObjectType : Z;
  variant : LegVariant;
  approachLeg : MapProcedureLeg;
  approachPoint : bool
}.

Record RouteLeg := mkRouteLeg {
  identity : LegIdentity;
  flightplanEntryIndex : Z;
  magvar : float;
  distanceTo : float;
  courseTo : float
}.

Definition getPosition (l : RouteLeg) : Pos := position (identity l).
Definition getMapObjectType (l : RouteLeg) : Z := mapObjectType (identity l).
Definition getApproachLeg (l : RouteLeg) : MapProcedureLeg := approachLeg (identity l).
Definition getApproachLegType (l : RouteLeg) : ProcedureLegType := legType (getApproachLeg l).
Definition getGeometry (l : RouteLeg) : LineString := geometry (getApproachLeg l).
Definition getDistanceTo (l : RouteLeg) : float := distanceTo l.
Definition isHold (l : RouteLeg) : bool := ProcedureLegType_eqb (getApproachLegType l) HOLD.
Definition isApproachPoint (l : RouteLeg) : bool := approachPoint (identity l).
Definition isApproach (l : RouteLeg) : bool := LegVariant_eqb (variant (identity l)) APPROACH_LEG.
Definition isMissed (l : RouteLeg) : bool := LegVariant_eqb (variant (identity l)) MISSED_LEG.
Definition isTransition (l : RouteLeg) : bool := LegVariant_eqb (variant (identity l)) TRANSITION_LEG.
Definition isSid (l : RouteLeg) : bool := LegVariant_eqb (variant (identity l)) DEPARTURE_LEG.
Definition isStar (l : RouteLeg) : bool := LegVariant_eqb (variant (identity l)) STAR_LEG.
Definition isAnyProcedure (l : RouteLeg) : bool := negb (LegVariant_eqb (variant (identity l)) ROUTE_POINT).

(** The operations of [RouteLeg] that write derived fields; they live in
    route/routeleg.cpp.  Each yields the new value of the fields it
    writes. *)
Class LegOps := {
  calcMagvar : RouteLeg -> float;
  calcInvalidMagvar : Z -> list RouteLeg -> RouteLeg -> float;
  calcDistanceAndCourse : Z -> option RouteLeg -> RouteLeg -> float * float
}.

(** [atools::fs::pln::Flightplan]: the entry list that mirrors the legs and
    the property table. *)
Class PlnLib := {
  FlightplanEntry : Type;
  Properties : Type;
  clearProcedureProperties : Properties -> Z -> Properties
}.

Context `{P : PlnLib}.

Record Flightplan := mkFlightplan {
  entries : list FlightplanEntry;
  properties : Properties
}.

(** The class [Route]: the leg list it inherits and its members. *)
Record Route := mkRoute {
  legs : list RouteLeg;
  flightplan : Flightplan;
  totalDistance : float;
  shownTypes : Z;
  boundingRect : Rect;
  activePos : PosCourse;
  trueCourse : bool;
  arrivalLegs : MapProcedureLegs;
  starLegs : MapProcedureLegs;
  departureLegs : MapProcedureLegs;
  departureLegsOffset : Z;
  starLegsOffset : Z;
  arrivalLegsOffset : Z;
  activeLeg : Z;
  activeLegResult : LineDistance
}.
End DataModel.

(** ** The class Route *)

Section RouteOps.
Context {G : GeoLib} {M : MapFlags} {P : PlnLib} {L : LegOps}.

Implicit Types (r : Route) (p : PosCourse) (l : RouteLeg).

(** *** The inherited list: [size], [isEmpty], [at], [first] *)

Definition Route_size r : Z := Z.of_nat (length (legs r)).

Definition Route_isEmpty r : bool := Route_size r =? 0.

(** [at(i)]: an index outside the list is a failed access. *)
Definition Route_at r (i : Z) : option RouteLeg :=
  if 0 <=? i then legs r !! Z.to_nat i else None.

Definition Route_first r : option RouteLeg := Route_at r 0.

(** [getPositionAt(i)] of route.h is [at(i).getPosition()]. *)
Definition getPositionAt r (i : Z) : option Pos :=
  getPosition <$> Route_at r i.

(** Bounded loops [for(int i = a; i < b; i++)] whose body may fail. *)
Fixpoint forEach {S : Type} (body : S -> nat -> option S) (idx : list nat) (s : S)
  : option S :=
  match idx with
  | [] => Some s
  | i :: idx' => s' ← body s i; forEach body idx' s'
  end.

(** *** Member updates *)

Definition setActive r (leg : Z) (res : LineDistance) (p : PosCourse) : Route :=
  mkRoute (legs r) (flightplan r) (totalDistance r) (shownTypes r) (boundingRect r)
          p (trueCourse r) (arrivalLegs r) (starLegs r) (departureLegs r)
          (departureLegsOffset r) (starLegsOffset r) (arrivalLegsOffset r)
          leg res.

Definition setLegs r (ls : list RouteLeg) : Route :=
  mkRoute ls (flightplan r) (totalDistance r) (shownTypes r) (boundingRect r)
          (activePos r) (trueCourse r) (arrivalLegs r) (starLegs r) (departureLegs r)
          (departureLegsOffset r) (starLegsOffset r) (arrivalLegsOffset r)
          (activeLeg r) (activeLegResult r).

Definition setFlightplan r (f : Flightplan) : Route :=
  mkRoute (legs r) f (totalDistance r) (shownTypes r) (boundingRect r)
          (activePos r) (trueCourse r) (arrivalLegs r) (starLegs r) (departureLegs r)
          (departureLegsOffset r) (starLegsOffset r) (arrivalLegsOffset r)
          (activeLeg r) (activeLegResult r).

Definition setTotalDistance r (d : float) : Route :=
  mkRoute (legs r) (flightplan r) d (shownTypes r) (boundingRect r)
          (activePos r) (trueCourse r) (arrivalLegs r) (starLegs r) (departureLegs r)
          (departureLegsOffset r) (starLegsOffset r) (arrivalLegsOffset r)
          (activeLeg r) (activeLegResult r).

Definition setBoundingRect r (b : Rect) : Route :=
  mkRoute (legs r) (flightplan r) (totalDistance r) (shownTypes r) b
          (activePos r) (trueCourse r) (arrivalLegs r) (starLegs r) (departureLegs r)
          (departureLegsOffset r) (starLegsOffset r) (arrivalLegsOffset r)
          (activeLeg r) (activeLegResult r).

Definition setTrueCourse r (b : bool) : Route :=
  mkRoute (legs r) (flightplan r) (totalDistance r) (shownTypes r) (boundingRect r)
          (activePos r) b (arrivalLegs r) (starLegs r) (departureLegs r)
          (departureLegsOffset r) (starLegsOffset r) (arrivalLegsOffset r)
          (activeLeg r) (activeLegResult r).

Definition setProcedures r (arr star dep : MapProcedureLegs) : Route :=
  mkRoute (legs r) (flightplan r) (totalDistance r) (shownTypes r) (boundingRect r)
          (activePos r) (trueCourse r) arr star dep
          (departureLegsOffset r) (starLegsOffset r) (arrivalLegsOffset r)
          (activeLeg r) (activeLegResult r).

(** *** Active leg: route.cpp, lines 61-68 and 107-256 *)

Definition resetActive r : Route :=
  setActive r INVALID_INDEX_VALUE
            (mkLineDistance INVALID INVALID_DISTANCE_VALUE INVALID_DISTANCE_VALUE
                            INVALID_DISTANCE_VALUE)
            PosCourse_default.

(** Compare crosstrack distance fuzzy. *)
Definition isSmaller (dist1 dist2 : LineDistance) (epsilon : float) : bool :=
  F32.ltb (F32.abs (distance dist1)) (F32.add (F32.abs (distance dist2)) epsilon).

(** The body of the scan of [nearestAllLegIndex]; the state is
    [(minDistance, crossTrackDistanceMeter, index)]. *)
Definition nearestAllBody r p (st : float * float * Z) (i : nat)
  : option (float * float * Z) :=
  pos1 ← getPositionAt r (Z.of_nat i - 1);
  pos2 ← getPositionAt r (Z.of_nat i);
  let result := distanceMeterToLine (pos p) pos1 pos2 in
  let dist := F32.abs (distance result) in
  if negb (LineDist_eqb (status result) INVALID) && F32.ltb dist (fst (fst st))
  then Some (dist, distance result, Z.of_nat i)
  else Some st.

(** [nearestAllLegIndex(pos, crossTrackDistanceMeter, index)]: the two
    references it writes are the result. *)
Definition nearestAllLegIndex r p : option (float * Z) :=
  if negb (PosCourse_isValid p)
  then Some (INVALID_DISTANCE_VALUE, INVALID_INDEX_VALUE)
  else
    st ← forEach (nearestAllBody r p) (seq 1 (length (legs r) - 1))
                 (INVALID_DISTANCE_VALUE, INVALID_DISTANCE_VALUE, INVALID_INDEX_VALUE);
    let crossTrackDistanceMeter := snd (fst st) in
    if F32.ltb crossTrackDistanceMeter INVALID_DISTANCE_VALUE
       && F32.gtb (F32.abs crossTrackDistanceMeter) (nmToMeter (F32.of_Z 100))
    then Some (INVALID_DISTANCE_VALUE, INVALID_INDEX_VALUE)
    else Some (crossTrackDistanceMeter, snd st).

(** Lines 127-132: start with the nearest leg when there is no active leg. *)
Definition seedLeg r p : option Z :=
  if activeLeg r =? INVALID_INDEX_VALUE
  then snd <$> nearestAllLegIndex r p
  else Some (activeLeg r).

(** Lines 134-135. *)
Definition clampLeg r (active : Z) : Z :=
  if Route_size r <=? active then Route_size r - 1 else active.

(** Lines 139-153: the point route, the reset from a point route and the
    line distance of the active leg. *)
Definition measureActive r p (active : Z) : option (Z * LineDistance) :=
  if Route_size r =? 1 then
    f ← Route_first r;
    Some (0, distanceMeterToLine (pos p) (getPosition f) (getPosition f))
  else
    let active := if active =? 0 then 1 else active in
    pos1 ← getPositionAt r (active - 1);
    pos2 ← getPositionAt r active;
    Some (active, distanceMeterToLine (pos p) pos1 pos2).

(** Lines 162-164: leaving a hold, skip initial fixes.  The loop runs at
    most [size] times; [fuel] counts the remaining iterations. *)
Fixpoint skipInitialFixes (fuel : nat) r (nextLeg : Z) : option Z :=
  next ← Route_at r nextLeg;
  if ProcedureLegType_eqb (getApproachLegType next) INITIAL_FIX
     && (nextLeg <? Route_size r - 2)
  then match fuel with
       | O => None
       | S fuel' => skipInitialFixes fuel' r (nextLeg + 1)
       end
  else Some nextLeg.

(** Lines 156-165: the potential next leg. *)
Definition nextLegCandidate r (active : RouteLeg) (nextLeg : Z) : option Z :=
  if isHold active then skipInitialFixes (length (legs r)) r nextLeg
  else Some nextLeg.

(** Lines 171-174. *)
Definition courseDifference p (pos1 pos2 : Pos) : float :=
  let legCrs := normalizeCourse (angleDegTo pos1 pos2) in
  let courseDiff :=
    geo_mod (F32.add (F32.sub (course p) legCrs) (F32.of_Z 360)) (F32.of_Z 360) in
  if F32.gtb courseDiff (F32.of_Z 180)
  then F32.sub (F32.of_Z 360) courseDiff
  else courseDiff.

(** Lines 191-239: the value of the local [switchToNextLeg]. *)
Definition switchToNextLeg p (active next : RouteLeg)
           (activeLegResult nextLegResult : LineDistance) (courseDiff : float) : bool :=
  if isHold active then
    if Pos_eqb (Line_getPos1 (line (getApproachLeg next))) (getPosition active) then
      LineDist_eqb (status nextLegResult) ALONG_TRACK
      && F32.ltb (F32.abs (distance nextLegResult)) (nmToMeter (F32.of_ratio 1 2))
      && F32.gtb (distanceFrom1 nextLegResult) (nmToMeter (F32.of_ratio 3 4))
      && F32.ltb courseDiff (F32.of_Z 25)
    else
      let resultHold := Line_distanceMeterToLine (holdLine (getApproachLeg active)) (pos p) in
      LineDist_eqb (status resultHold) ALONG_TRACK
      && F32.ltb (distance resultHold)
                 (nmToMeter (if String.eqb (turnDirection (getApproachLeg active)) "R"
                             then F32.opp (F32.of_ratio 1 2)
                             else F32.of_ratio 1 2))
  else if isHold next then
    F32.ltb (F32.abs (distance nextLegResult)) (nmToMeter (F32.of_ratio 1 2))
  else if ProcedureLegType_eqb (getApproachLegType active) PROCEDURE_TURN then
    isSmaller nextLegResult activeLegResult (F32.of_Z 100) && F32.ltb courseDiff (F32.of_Z 45)
  else
    LineDist_eqb (status activeLegResult) AFTER_END
    || (isSmaller nextLegResult activeLegResult (F32.of_Z 10)
        && F32.ltb courseDiff (F32.of_Z 90)).

(** Line 246: do not track on missed if legs are not displayed. *)
Definition missedHidden r (next : RouteLeg) : bool :=
  negb (testFlag (shownTypes r) PROCEDURE_MISSED) && isMissed next.

(** Lines 155-253: test the next leg and switch to it.  [active] and
    [activeResult] are the members [activeLeg] and [activeLegResult] as lines
    127-153 leave them. *)
Definition advance p r (active : Z) (activeResult : LineDistance) : option Route :=
  let r1 := setActive r active activeResult p in
  let nextLeg := active + 1 in
  if nextLeg <? Route_size r then
    activeL ← Route_at r active;
    nextLeg ← nextLegCandidate r activeL nextLeg;
    pos1 ← getPositionAt r (nextLeg - 1);
    pos2 ← getPositionAt r nextLeg;
    let courseDiff := courseDifference p pos1 pos2 in
    let nextLegResult := distanceMeterToLine (pos p) pos1 pos2 in
    nextL ← Route_at r nextLeg;
    if switchToNextLeg p activeL nextL activeResult nextLegResult courseDiff then
      if negb (missedHidden r nextL)
      then Some (setActive r nextLeg (distanceMeterToLine (pos p) pos1 pos2) p)
      else Some r1
    else Some r1
  else Some r1.

Definition updateActiveLegAndPos p r : option Route :=
  if Route_isEmpty r || negb (PosCourse_isValid p) then Some (resetActive r)
  else
    seeded ← seedLeg r p;
    '(active, activeResult) ← measureActive r p (clampLeg r seeded);
    advance p r active activeResult.

(** *** [getActiveLegIndexCorrected], lines 735-755.  [corrected] is the
    pointer argument: [None] for [nullptr], otherwise the [bool] it points
    to; the result carries the [bool] after the call. *)
Definition getActiveLegIndexCorrected r (corrected : option bool)
  : option (Z * option bool) :=
  if activeLeg r =? INVALID_INDEX_VALUE then Some (INVALID_INDEX_VALUE, corrected)
  else
    let nextLeg := activeLeg r + 1 in
    cond ← (if nextLeg <? Route_size r then
              if nextLeg =? Route_size r then isAnyProcedure <$> Route_at r nextLeg
              else Some false
            else Some false);
    if cond : bool
    then Some (activeLeg r + 1, (fun _ => true) <$> corrected)
    else Some (activeLeg r, (fun _ => false) <$> corrected).


(** *** [positionAtDistance], lines 377-433 *)

(** Lines 387-396; the result is [(total, foundIndex)]. *)
Fixpoint findLegLoop r (distFromStartNm : float) (idx : list nat) (total : float)
  : option (float * Z) :=
  match idx with
  | [] => Some (total, INVALID_INDEX_VALUE)
  | i :: idx' =>
      l ← Route_at r (Z.of_nat i + 1);
      let total := F32.add total (getDistanceTo l) in
      if F32.gtb total distFromStartNm then Some (total, Z.of_nat i)
      else findLegLoop r distFromStartNm idx' total
  end.

(** Lines 415-416: [at(foundIndex)] is read before the bound is tested. *)
Fixpoint skipApproachPoints (fuel : nat) r (foundIndex : Z) : option Z :=
  l ← Route_at r foundIndex;
  if isApproachPoint l && (foundIndex <? Route_size r)
  then match fuel with
       | O => None
       | S fuel' => skipApproachPoints fuel' r (foundIndex + 1)
       end
  else Some foundIndex.

Definition positionAtDistance r (distFromStartNm : float) : option Pos :=
  if F32.ltb distFromStartNm F32.zero || F32.gtb distFromStartNm (totalDistance r)
  then Some EMPTY_POS
  else
    '(total, foundIndex) ←
       findLegLoop r distFromStartNm (seq 0 (length (legs r) - 1)) F32.zero;
    if foundIndex <? Route_size r - 1 then
      found ← Route_at r foundIndex;
      if negb (isAnyProcedure found) then
        nextL ← Route_at r (foundIndex + 1);
        let base := F32.sub distFromStartNm (F32.sub total (getDistanceTo nextL)) in
        let fraction := F32.div base (getDistanceTo nextL) in
        pos1 ← getPositionAt r foundIndex;
        pos2 ← getPositionAt r (foundIndex + 1);
        Some (Pos_interpolate pos1 pos2 fraction)
      else
        foundIndex ← skipApproachPoints (length (legs r)) r (foundIndex + 1);
        l ← Route_at r foundIndex;
        let calculated := calculatedDistance (getApproachLeg l) in
        let base := F32.sub distFromStartNm (F32.sub total calculated) in
        let fraction := F32.div base calculated in
        Some (LineString_interpolate (getGeometry l) fraction)
    else Some Pos_default.

(** *** Procedures: lines 557-612 and 680-700 *)

(** Modelled from the spec: the predicates of route.h that tell whether a
    procedure category is present; a category is absent when its leg set is
    empty, and the transition is the one attached to the arrival. *)
Definition hasArrivalProcedure r : bool :=
  match approachLegs (arrivalLegs r) with [] => false | _ => true end.

Definition hasTransitionProcedure r : bool :=
  match transitionLegs (arrivalLegs r) with [] => false | _ => true end.

Definition hasStarProcedure r : bool := negb (MapProcedureLegs_isEmpty (starLegs r)).

Definition hasDepartureProcedure r : bool :=
  negb (MapProcedureLegs_isEmpty (departureLegs r)).

Definition clearFlightplanProcedureProperties r (type : Z) : Route :=
  setFlightplan r (mkFlightplan (entries (flightplan r))
                                (clearProcedureProperties (properties (flightplan r)) type)).

(** The test of lines 687-691. *)
Definition eraseMatches (type : Z) (routeLeg : RouteLeg) : bool :=
  (testFlag type PROCEDURE_APPROACH && isApproach routeLeg)
  || (testFlag type PROCEDURE_MISSED && isMissed routeLeg)
  || (testFlag type PROCEDURE_TRANSITION && isTransition routeLeg)
  || (testFlag type PROCEDURE_SID && isSid routeLeg)
  || (testFlag type PROCEDURE_STAR && isStar routeLeg).

(** Lines 684-693: the indexes to erase, from the last leg down. *)
Definition eraseIndexes r (type : Z) : list nat :=
  List.filter (fun i => match legs r !! i with
                        | Some routeLeg => eraseMatches type routeLeg
                        | None => false
                        end)
              (rev (seq 0 (length (legs r)))).

(** Lines 695-699; [QList::removeAt] leaves the list as it is for an index
    outside it, as [delete] does. *)
Definition eraseAt (r : Route) (i : nat) : Route :=
  let r' := setLegs r (delete i (legs r)) in
  setFlightplan r' (mkFlightplan (delete i (entries (flightplan r')))
                                 (properties (flightplan r'))).

Definition eraseProcedureLegs r (type : Z) : Route :=
  fold_left eraseAt (eraseIndexes r type) r.

(** *** The update pass: lines 702-715 and 785-844 *)

(** Modelled from the spec: the operations of [RouteLeg] write derived fields
    of the leg they are called on and nothing else. *)
Definition setFlightplanEntryIndex (i : Z) l : RouteLeg :=
  mkRouteLeg (identity l) i (magvar l) (distanceTo l) (courseTo l).

Definition updateMagvarLeg l : RouteLeg :=
  mkRouteLeg (identity l) (flightplanEntryIndex l) (calcMagvar l) (distanceTo l) (courseTo l).

Definition updateInvalidMagvar (i : Z) (route : list RouteLeg) l : RouteLeg :=
  mkRouteLeg (identity l) (flightplanEntryIndex l) (calcInvalidMagvar i route l)
             (distanceTo l) (courseTo l).

Definition updateDistanceAndCourse (i : Z) (prevLeg : option RouteLeg) l : RouteLeg :=
  let dc := calcDistanceAndCourse i prevLeg l in
  mkRouteLeg (identity l) i (magvar l) (fst dc) (snd dc).

Definition updateIndices r : Route :=
  setLegs r (fold_left (fun ls i => alter (setFlightplanEntryIndex (Z.of_nat i)) i ls)
                       (seq 0 (length (legs r))) (legs r)).

Definition updateMagvar r : Route :=
  let ls1 := fold_left (fun ls i => alter updateMagvarLeg i ls)
                       (seq 0 (length (legs r))) (legs r) in
  let ls2 := fold_left (fun ls i => alter (updateInvalidMagvar (Z.of_nat i) ls) i ls)
                       (seq 0 (length (legs r))) ls1 in
  setTrueCourse (setLegs r ls2)
                (negb (existsb (fun obj => testFlag (getMapObjectType obj) NAV_MAGVAR) ls2)).

Definition isAirportAfterArrival r (index : Z) : option bool :=
  if (hasArrivalProcedure r || hasStarProcedure r) && (index =? Route_size r - 1)
  then l ← Route_at r index; Some (getMapObjectType l =? AIRPORT)
  else Some false.

(** Lines 795-805; [last] is the leg the pointer refers to. *)
Fixpoint distancesLoop (idx : list nat) (last : option RouteLeg) r : option Route :=
  match idx with
  | [] => Some r
  | i :: idx' =>
      stop ← isAirportAfterArrival r (Z.of_nat i);
      if stop : bool then Some r
      else
        mapobj ← Route_at r (Z.of_nat i);
        let mapobj := updateDistanceAndCourse (Z.of_nat i) last mapobj in
        let r := setLegs r (<[i := mapobj]> (legs r)) in
        let r := if negb (isMissed mapobj)
                 then setTotalDistance r (F32.add (totalDistance r) (getDistanceTo mapobj))
                 else r in
        distancesLoop idx' (Some mapobj) r
  end.

Definition updateDistancesAndCourse r : option Route :=
  distancesLoop (seq 0 (length (legs r))) None (setTotalDistance r F32.zero).

Definition updateBoundingRect r : Route :=
  setBoundingRect r (boundingRectOf (map getPosition (legs r))).

Definition updateAll r : option Route :=
  r ← updateDistancesAndCourse (updateMagvar (updateIndices r));
  Some (updateBoundingRect r).

Definition clearApproachAndTransProcedure r : option Route :=
  if hasArrivalProcedure r then
    let r := setProcedures r MapProcedureLegs_default (starLegs r) (departureLegs r) in
    updateAll (eraseProcedureLegs (clearFlightplanProcedureProperties r PROCEDURE_ARRIVAL)
                                  PROCEDURE_ARRIVAL)
  else Some r.

Definition clearTransitionProcedure r : option Route :=
  if hasTransitionProcedure r then
    let r := setProcedures r (clearTransition (arrivalLegs r)) (starLegs r) (departureLegs r) in
    updateAll (eraseProcedureLegs (clearFlightplanProcedureProperties r PROCEDURE_TRANSITION)
                                  PROCEDURE_TRANSITION)
  else Some r.

Definition clearStarProcedure r : option Route :=
  if hasStarProcedure r then
    let r := setProcedures r (arrivalLegs r) MapProcedureLegs_default (departureLegs r) in
    updateAll (eraseProcedureLegs (clearFlightplanProcedureProperties r PROCEDURE_STAR)
                                  PROCEDURE_STAR)
  else Some r.

Definition clearDepartureProcedure r : option Route :=
  if hasDepartureProcedure r then
    let r := setProcedures r (arrivalLegs r) (starLegs r) MapProcedureLegs_default in
    updateAll (eraseProcedureLegs (clearFlightplanProcedureProperties r PROCEDURE_DEPARTURE)
                                  PROCEDURE_DEPARTURE)
  else Some r.

(** *** Vocabulary of the properties *)

(** The line distance of the segment that ends at leg [j]. *)
Definition segmentResult r p (j : Z) : option LineDistance :=
  pos1 ← getPositionAt r (j - 1);
  pos2 ← getPositionAt r j;
  Some (distanceMeterToLine (pos p) pos1 pos2).

(** The rules d and e as the specification words them: the candidate is
    "smaller than the active leg's by more than a margin". *)
Definition smallerByMoreThan (candidate active margin : float) : bool :=
  F32.ltb (F32.add (F32.abs candidate) margin) (F32.abs active).

Definition specSwitchProcedureTurn (activeResult nextResult : LineDistance)
           (courseDiff : float) : bool :=
  smallerByMoreThan (distance nextResult) (distance activeResult) (F32.of_Z 100)
  && F32.ltb courseDiff (F32.of_Z 45).

Definition specSwitchPlain (activeResult nextResult : LineDistance)
           (courseDiff : float) : bool :=
  LineDist_eqb (status activeResult) AFTER_END
  || (smallerByMoreThan (distance nextResult) (distance activeResult) (F32.of_Z 10)
      && F32.ltb courseDiff (F32.of_Z 90)).

(** The far boundary of a hold as the specification words it: +0.5 nm for a
    right turn, -0.5 nm otherwise. *)
Definition specHoldBoundary (turn : string) : float :=
  nmToMeter (if String.eqb turn "R" then F32.of_ratio 1 2 else F32.opp (F32.of_ratio 1 2)).

(** The legs the distance pass sums: all legs, or all but the last one when
    that is the airport after an arrival or STAR. *)
Definition legsBeforeAirportAfterArrival r : list RouteLeg :=
  match isAirportAfterArrival r (Route_size r - 1) with
  | Some true => removelast (legs r)
  | _ => legs r
  end.

(** The sum of [getDistanceTo()] over the legs that are not missed-approach
    legs, added up in binary32 from the first leg on. *)
Definition sumDistanceTo (ls : list RouteLeg) : float :=
  fold_left (fun total l => F32.add total (getDistanceTo l))
            (List.filter (fun l => negb (isMissed l)) ls) F32.zero.


(** The elements of [l] whose index, counted from [k], is not erased. *)
Fixpoint keptAt {A : Type} (erased : nat -> bool) (k : nat) (l : list A) : list A :=
  match l with
  | [] => []
  | x :: l' => if erased k then keptAt erased (S k) l' else x :: keptAt erased (S k) l'
  end.

(** The members that the removal of legs and the update pass leave alone. *)
Definition sameProcedures r r' : Prop :=
  arrivalLegs r' = arrivalLegs r /\ starLegs r' = starLegs r
  /\ departureLegs r' = departureLegs r
  /\ departureLegsOffset r' = departureLegsOffset r
  /\ starLegsOffset r' = starLegsOffset r
  /\ arrivalLegsOffset r' = arrivalLegsOffset r.

(** The entries that stay when the legs satisfying [erased] go, the two
    lists taken in parallel. *)
Definition keptEntries (erased : RouteLeg -> bool) (ls : list RouteLeg)
           (es : list FlightplanEntry) : list FlightplanEntry :=
  map snd (List.filter (fun le => negb (erased (fst le))) (combine ls es)).

End RouteOps.

(** ** A planar stand-in for the collaborators

    The route is verified for every geometry library.  To run it on samples,
    [Flat] supplies one: positions are metres east and north on a tangent
    plane, in binary32, and the line distance follows the contract of
    atools: cross-track distance while abeam the line, distance to the
    nearer end before the start and after the end.  Courses are resolved to
    the eight compass points, which is all the samples need. *)

Module Flat.

Record FlatPos := mkFlatPos { east : float; north : float; valid : bool }.

Definition at_m (e n : Z) : FlatPos := mkFlatPos (F32.of_Z e) (F32.of_Z n) true.

Definition fsqrt : float -> float := SFsqrt F32.prec F32.emax.

Definition dist (a b : FlatPos) : float :=
  let de := F32.sub (east a) (east b) in
  let dn := F32.sub (north a) (north b) in
  fsqrt (F32.add (F32.mul de de) (F32.mul dn dn)).

Definition FlatPos_eqb (a b : FlatPos) : bool :=
  SFeqb (east a) (east b) && SFeqb (north a) (north b) && Bool.eqb (valid a) (valid b).

Definition invalidDistance : LineDistance :=
  mkLineDistance INVALID INVALID_DISTANCE_VALUE INVALID_DISTANCE_VALUE INVALID_DISTANCE_VALUE.

Definition lineDistance (p p1 p2 : FlatPos) : LineDistance :=
  if negb (valid p && valid p1 && valid p2) then invalidDistance
  else
    let de := F32.sub (east p2) (east p1) in
    let dn := F32.sub (north p2) (north p1) in
    let qe := F32.sub (east p) (east p1) in
    let qn := F32.sub (north p) (north p1) in
    let len := dist p1 p2 in
    let along := F32.add (F32.mul qe de) (F32.mul qn dn) in
    let cross := F32.sub (F32.mul qe dn) (F32.mul qn de) in
    if SFeqb len F32.zero then
      mkLineDistance ALONG_TRACK (dist p p1) (dist p p1) (dist p p1)
    else if F32.ltb along F32.zero then
      mkLineDistance BEFORE_START (dist p p1) (dist p p1) (dist p p2)
    else if F32.gtb along (F32.mul len len) then
      mkLineDistance AFTER_END (dist p p2) (dist p p1) (dist p p2)
    else
      mkLineDistance ALONG_TRACK (F32.div cross len) (dist p p1) (dist p p2).

Definition compass (p1 p2 : FlatPos) : float :=
  let de := F32.sub (east p2) (east p1) in
  let dn := F32.sub (north p2) (north p1) in
  let e := F32.gtb de F32.zero in
  let w := F32.ltb de F32.zero in
  let n := F32.gtb dn F32.zero in
  let s := F32.ltb dn F32.zero in
  F32.of_Z (if n then (if e then 45 else if w then 315 else 0)
            else if s then (if e then 135 else if w then 225 else 180)
            else (if e then 90 else if w then 270 else 0)).

Definition normalize (c : float) : float :=
  if F32.ltb c F32.zero then F32.add c (F32.of_Z 360)
  else if F32.ltb c (F32.of_Z 360) then c
  else F32.sub c (F32.of_Z 360).

(** The remainder for the arguments the route passes: a dividend in
    [0, 2 * y). *)
Definition remainder (x y : float) : float :=
  if F32.ltb x y then x else F32.sub x y.

Definition interpolate (p1 p2 : FlatPos) (f : float) : FlatPos :=
  mkFlatPos (F32.add (east p1) (F32.mul (F32.sub (east p2) (east p1)) f))
            (F32.add (north p1) (F32.mul (F32.sub (north p2) (north p1)) f))
            (valid p1 && valid p2).

Definition emptyPos : FlatPos := mkFlatPos F32.max_value F32.max_value false.

#[export] Instance geo : GeoLib := {
  Pos := FlatPos;
  Pos_default := emptyPos;
  EMPTY_POS := emptyPos;
  Pos_eqb := FlatPos_eqb;
  Pos_isValid := valid;
  distanceMeterToLine := lineDistance;
  angleDegTo := compass;
  Pos_interpolate := interpolate;
  normalizeCourse := normalize;
  geo_mod := remainder;
  nmToMeter := fun nm => F32.mul nm (F32.of_ratio 1852216 1000);
  Line := FlatPos * FlatPos;
  Line_getPos1 := fst;
  Line_distanceMeterToLine := fun l p => lineDistance p (fst l) (snd l);
  LineString := list FlatPos;
  LineString_interpolate := fun ls _ => hd emptyPos ls;
  Rect := unit;
  boundingRectOf := fun _ => tt
}.

#[export] Instance flags : MapFlags := {
  AIRPORT := 1;
  NAV_MAGVAR := 1 + 32 + 64 + 512;
  PROCEDURE_APPROACH := Z.shiftl 1 22;
  PROCEDURE_MISSED := Z.shiftl 1 23;
  PROCEDURE_TRANSITION := Z.shiftl 1 24;
  PROCEDURE_SID := Z.shiftl 1 25;
  PROCEDURE_STAR := Z.shiftl 1 26;
  PROCEDURE_ARRIVAL := Z.shiftl 1 22 + Z.shiftl 1 23 + Z.shiftl 1 24;
  PROCEDURE_DEPARTURE := Z.shiftl 1 25;
  PROCEDURE_ALL := Z.shiftl 1 22 + Z.shiftl 1 23 + Z.shiftl 1 24 + Z.shiftl 1 25 + Z.shiftl 1 26
}.

#[export] Instance pln : PlnLib := {
  FlightplanEntry := string;
  Properties := unit;
  clearProcedureProperties := fun p _ => p
}.

(** Distance to the previous leg in nautical miles; a procedure leg keeps the
    distance its procedure calculated. *)
#[export] Instance legOps : LegOps := {
  calcMagvar := fun _ => F32.zero;
  calcInvalidMagvar := fun _ _ l => magvar l;
  calcDistanceAndCourse := fun _ prevLeg l =>
    match prevLeg with
    | None => (F32.zero, F32.zero)
    | Some prev =>
        (if isAnyProcedure l then calculatedDistance (getApproachLeg l)
         else F32.div (dist (getPosition prev) (getPosition l)) (F32.of_ratio 1852216 1000),
         compass (getPosition prev) (getPosition l))
    end
}.

Definition noProcedureLeg : MapProcedureLeg :=
  mkMapProcedureLeg INVALID_LEG_TYPE (emptyPos, emptyPos) (emptyPos, emptyPos) ""
                    F32.zero [].

(** A waypoint of the en-route part, and the airport at either end. *)
Definition waypoint (e n : Z) : RouteLeg :=
  mkRouteLeg (mkLegIdentity (at_m e n) 512 ROUTE_POINT noProcedureLeg false)
             0 F32.zero F32.zero F32.zero.

Definition airport (e n : Z) : RouteLeg :=
  mkRouteLeg (mkLegIdentity (at_m e n) 1 ROUTE_POINT noProcedureLeg false)
             0 F32.zero F32.zero F32.zero.

Definition variantType (v : LegVariant) : Z :=
  match v with
  | ROUTE_POINT => 512
  | APPROACH_LEG => Z.shiftl 1 22
  | MISSED_LEG => Z.shiftl 1 23
  | TRANSITION_LEG => Z.shiftl 1 24
  | DEPARTURE_LEG => Z.shiftl 1 25
  | STAR_LEG => Z.shiftl 1 26
  end.

(** A procedure leg that ends at [(e, n)]; the line of the leg starts at
    its own fix, [hold] is the helper line of a hold. *)
Definition procedureLeg (v : LegVariant) (t : ProcedureLegType) (turn : string)
           (hold : FlatPos * FlatPos) (e n : Z) : RouteLeg :=
  mkRouteLeg (mkLegIdentity (at_m e n) (variantType v) v
                (mkMapProcedureLeg t (at_m e n, at_m e n) hold turn F32.zero [at_m e n])
                false)
             0 F32.zero F32.zero F32.zero.

Definition noProcedures : MapProcedureLegs := MapProcedureLegs_default.

(** A route over [ls] with the given procedure sets, nothing active. *)
Definition routeOf (ls : list RouteLeg) (ids : list string)
           (arr star dep : MapProcedureLegs) (shown : Z) : Route :=
  mkRoute ls (mkFlightplan ids tt) F32.zero shown tt PosCourse_default true
          arr star dep INVALID_INDEX_VALUE INVALID_INDEX_VALUE INVALID_INDEX_VALUE
          INVALID_INDEX_VALUE invalidDistance.

Definition withActive (r : Route) (i : Z) : Route :=
  setActive r i (activeLegResult r) (activePos r).

(** The aircraft at [(e, n)] on the given course. *)
Definition aircraft (e n crs : Z) : PosCourse := mkPosCourse (at_m e n) (F32.of_Z crs).

(** Four waypoints on a line to the east, 100 km apart. *)
Definition eastbound : Route :=
  routeOf [airport 0 0; waypoint 100000 0; waypoint 200000 0; airport 300000 0]
          ["A"; "B"; "C"; "D"] noProcedures noProcedures noProcedures 0.

(** A right-angle bend: east for 10 km, then north. *)
Definition bend : Route :=
  routeOf [airport 0 0; waypoint 10000 0; waypoint 10000 10000; airport 10000 20000]
          ["A"; "B"; "C"; "D"] noProcedures noProcedures noProcedures 0.

(** The same bend flown as an approach whose first leg is a procedure
    turn. *)
Definition bendProcedureTurn : Route :=
  routeOf [airport 0 0;
           procedureLeg APPROACH_LEG PROCEDURE_TURN "" (emptyPos, emptyPos) 10000 0;
           procedureLeg APPROACH_LEG COURSE_OR_ARC "" (emptyPos, emptyPos) 10000 10000;
           airport 10000 20000]
          ["A"; "PT"; "CF"; "D"] noProcedures noProcedures noProcedures 0.

(** A hold with right turns at 10 km east; its helper line runs from the
    hold fix back west.  The line of the next leg starts at that leg's own
    fix, not at the hold. *)
Definition holdRoute : Route :=
  routeOf [airport 0 0;
           procedureLeg APPROACH_LEG HOLD "R" (at_m 10000 0, at_m 0 0) 10000 0;
           procedureLeg APPROACH_LEG COURSE_OR_ARC "" (emptyPos, emptyPos) 20000 0;
           airport 30000 0]
          ["A"; "HOLD"; "CF"; "D"] noProcedures noProcedures noProcedures 0.

(** An approach followed by its missed approach; the display filter [0]
    shows no missed-approach legs. *)
Definition missedRoute : Route :=
  routeOf [airport 0 0;
           waypoint 10000 0;
           procedureLeg APPROACH_LEG COURSE_OR_ARC "" (emptyPos, emptyPos) 20000 0;
           procedureLeg MISSED_LEG COURSE_OR_ARC "" (emptyPos, emptyPos) 30000 0;
           airport 20000 100]
          ["A"; "W"; "CF"; "MA"; "D"] noProcedures noProcedures noProcedures 0.

Definition someProcedure : MapProcedureLegs :=
  mkMapProcedureLegs [] [getApproachLeg (procedureLeg APPROACH_LEG COURSE_OR_ARC ""
                                                      (emptyPos, emptyPos) 0 0)].

(** Departure, STAR and arrival on one route, with the offsets that
    [updateProcedureLegs] records for them: the departure starts at 1, the
    STAR at 3 and the arrival at 5. *)
Definition procedureRoute : Route :=
  mkRoute [airport 0 0;
           procedureLeg DEPARTURE_LEG COURSE_OR_ARC "" (emptyPos, emptyPos) 10000 0;
           waypoint 50000 0;
           procedureLeg STAR_LEG COURSE_OR_ARC "" (emptyPos, emptyPos) 100000 0;
           procedureLeg STAR_LEG COURSE_OR_ARC "" (emptyPos, emptyPos) 110000 0;
           procedureLeg APPROACH_LEG COURSE_OR_ARC "" (emptyPos, emptyPos) 120000 0;
           airport 130000 0]
          (mkFlightplan ["A"; "SID1"; "W"; "STAR1"; "STAR2"; "APP1"; "D"] tt)
          F32.zero 0 tt PosCourse_default true
          someProcedure someProcedure someProcedure
          1 3 5 INVALID_INDEX_VALUE invalidDistance.

(** *** Samples *)

(** Abeam the corner of [bend], 5 m from either leg, heading north-east:
    the candidate is as near as the active leg. *)
Definition bendSample : PosCourse := aircraft 9995 5 45.

(** On the procedure turn, 50 m from either leg, course 030. *)
Definition turnSample : PosCourse := aircraft 9950 50 30.

(** On the helper line of the hold, and 1000 m south of it. *)
Definition holdOnLine : PosCourse := aircraft 5000 0 270.
Definition holdSouth : PosCourse := aircraft 5000 (-1000) 270.

Definition holdLeg : RouteLeg :=
  procedureLeg APPROACH_LEG HOLD "R" (at_m 10000 0, at_m 0 0) 10000 0.

Definition afterHoldLeg : RouteLeg :=
  procedureLeg APPROACH_LEG COURSE_OR_ARC "" (emptyPos, emptyPos) 20000 0.

(** 400 km north of [eastbound]: 216 nm from every segment. *)
Definition farSample : PosCourse := aircraft 150000 400000 90.

(** [eastbound] after the distance pass: 161.97 nm in total. *)
Definition eastboundMeasured : Route :=
  match updateDistancesAndCourse eastbound with
  | Some r => r
  | None => eastbound
  end.

(** Past the end of the approach leg of [missedRoute]. *)
Definition pastApproach : PosCourse := aircraft 25000 0 90.

Definition lastApproachLeg : RouteLeg :=
  procedureLeg APPROACH_LEG COURSE_OR_ARC "" (emptyPos, emptyPos) 20000 0.

Definition firstMissedLeg : RouteLeg :=
  procedureLeg MISSED_LEG COURSE_OR_ARC "" (emptyPos, emptyPos) 30000 0.

(** [eastbound] after a first sample over its first leg, 50 km out: the
    update has seeded leg 1 as the active leg. *)
Definition enRoute : Route :=
  match updateActiveLegAndPos (aircraft 50000 0 90) eastbound with
  | Some r => r
  | None => eastbound
  end.

(** The next sample, over the third leg of [eastbound]. *)
Definition aheadSample : PosCourse := aircraft 250000 0 90.

End Flat.

(** ** More of the class Route

    The functions of route.cpp that the active-leg update, the distance pass
    and the clear operations do not call: the nearest-leg query of the map,
    the route distances, the small accessors around the active leg, the
    flight-plan predicates and the splicing of procedure legs. *)

Section RouteQueries.
Context {G : GeoLib} {M : MapFlags} {P : PlnLib} {L : LegOps}.

Implicit Types (r : Route) (p : PosCourse) (l : RouteLeg).

(** More of atools::geo: the conversion to nautical miles, the distance
    between positions, and the size and the line distance of a line
    string. *)
Class GeoDistLib := {
  meterToNm : float -> float;
  Pos_distanceMeterTo : Pos -> Pos -> float;
  LineString_size : LineString -> Z;
  distanceMeterToLineString : LineString -> Pos -> LineDistance
}.

(** What route.cpp reads of a flight-plan entry: whether its waypoint type
    is [entry::AIRPORT] or [entry::USER], and for [getNextUserWaypointNumber]
    the [int] that [QString(USER_WP_ID.match(id).captured(1)).toInt()]
    yields for its waypoint id. *)
Class PlnEntryLib := {
  entryIsAirport : FlightplanEntry -> bool;
  entryIsUser : FlightplanEntry -> bool;
  entryUserNumber : FlightplanEntry -> Z
}.

(** Accessors of [RouteLeg] that route/routeleg.h declares: [isValid()],
    [getDepartureParking().isValid()], [getDepartureStart().isValid()] and
    [getDepartureStart().helipadNumber]. *)
Class LegQueryLib := {
  legIsValid : RouteLeg -> bool;
  departureParkingIsValid : RouteLeg -> bool;
  departureStartIsValid : RouteLeg -> bool;
  departureStartHelipadNumber : RouteLeg -> Z
}.

(** The builders that [updateProcedureLegs] calls:
    [RouteLeg::createFromApproachLeg(i, legs, prev)] on a fresh leg,
    [FlightplanEntryBuilder::buildFlightplanEntry(leg, entry, true)] on a
    fresh entry and [ProcedureQuery::extractLegsForFlightplanProperties]. *)
Class ProcedureBuildLib := {
  createFromApproachLeg : Z -> MapProcedureLegs -> option RouteLeg -> RouteLeg;
  buildFlightplanEntry : MapProcedureLeg -> FlightplanEntry;
  extractLegsForFlightplanProperties :
    Properties -> MapProcedureLegs -> MapProcedureLegs -> MapProcedureLegs -> Properties
}.

Context {D : GeoDistLib} {E : PlnEntryLib} {Q : LegQueryLib} {B : ProcedureBuildLib}.

(** *** [int] *)

Definition INT_MAX : Z := 2147483647.

(** [a + 1] on [int]: an overflow is undefined behaviour, [None]. *)
Definition int_succ (a : Z) : option Z := if a <? INT_MAX then Some (a + 1) else None.

(** *** [getNextUserWaypointNumber], lines 92-105 *)

Definition getNextUserWaypointNumber r : option Z :=
  int_succ (fold_left (fun nextNum entry =>
                         if entryIsUser entry then Z.max (entryUserNumber entry) nextNum
                         else nextNum)
                      (entries (flightplan r)) 0).

(** *** [getRouteDistances], lines 258-343 *)

(** The four [float *] arguments: [None] for [nullptr], otherwise the
    [float] pointed to.  The pointers are distinct. *)
Record RouteDistances := mkRouteDistances {
  distFromStart : option float;
  distToDest : option float;
  nextLegDistance : option float;
  crossTrackDistance : option float
}.

(** Lines 317-323. *)
Fixpoint sumFromStart r (activeIsMissed : bool) (idx : list nat) (sum : float)
  : option float :=
  match idx with
  | [] => Some sum
  | i :: idx' =>
      l ← Route_at r (Z.of_nat i);
      if negb (isMissed l) || activeIsMissed
      then sumFromStart r activeIsMissed idx' (F32.add sum (getDistanceTo l))
      else Some sum
  end.

(** Lines 331-335. *)
Definition sumToDest r (activeIsMissed : bool) (idx : list nat) (sum : float)
  : option float :=
  forEach (fun sum i =>
             l ← Route_at r (Z.of_nat i);
             Some (if negb (isMissed l) || activeIsMissed
                   then F32.add sum (getDistanceTo l) else sum))
          idx sum.

Definition getRouteDistances r (out : RouteDistances) : option (bool * RouteDistances) :=
  if activeLeg r =? INVALID_INDEX_VALUE then Some (false, out)
  else
    activeL ← Route_at r (activeLeg r);
    let geometryLeg :=
      if isAnyProcedure activeL && (2 <? LineString_size (getGeometry activeL))
      then Some (getApproachLeg activeL) else None in
    let cross :=
      match crossTrackDistance out with
      | None => None
      | Some _ =>
          Some match geometryLeg with
               | Some g =>
                   let lineDist := distanceMeterToLineString (geometry g) (pos (activePos r)) in
                   if LineDist_eqb (status lineDist) ALONG_TRACK
                   then meterToNm (distance lineDist)
                   else INVALID_DISTANCE_VALUE
               | None =>
                   if LineDist_eqb (status (activeLegResult r)) ALONG_TRACK
                   then meterToNm (distance (activeLegResult r))
                   else INVALID_DISTANCE_VALUE
               end
      end in
    let routeIndex := activeLeg r in
    if negb (routeIndex =? INVALID_INDEX_VALUE) then
      let routeIndex := if Route_size r <=? routeIndex then Route_size r - 1 else routeIndex in
      activeIsMissed ← isMissed <$> Route_at r (activeLeg r);
      indexL ← Route_at r routeIndex;
      distToCur ←
        (if negb (isMissed indexL) || activeIsMissed then
           match geometryLeg with
           | Some g =>
               Some (meterToNm (distanceFrom2 (distanceMeterToLineString
                                                 (geometry g) (pos (activePos r)))))
           | None =>
               posAt ← getPositionAt r routeIndex;
               Some (meterToNm (Pos_distanceMeterTo posAt (pos (activePos r))))
           end
         else Some F32.zero);
      let next := (fun _ => distToCur) <$> nextLegDistance out in
      fromStart ←
        match distFromStart out with
        | None => Some None
        | Some _ =>
            sum ← sumFromStart r activeIsMissed (seq 0 (Z.to_nat (routeIndex + 1))) F32.zero;
            Some (Some (F32.abs (F32.sub sum distToCur)))
        end;
      toDest ←
        match distToDest out with
        | None => Some None
        | Some _ =>
            sum ← sumToDest r activeIsMissed
                            (seq (Z.to_nat (routeIndex + 1))
                                 (Z.to_nat (Route_size r - (routeIndex + 1)))) F32.zero;
            Some (Some (F32.abs (F32.add sum distToCur)))
        end;
      Some (true, mkRouteDistances fromStart toDest next cross)
    else Some (false, mkRouteDistances (distFromStart out) (distToDest out)
                                       (nextLegDistance out) cross).

(** *** The active leg: lines 717-783 *)

(** A [const RouteLeg *]: [None] is [nullptr]. *)
Definition getActiveLeg r : option (option RouteLeg) :=
  if negb (activeLeg r =? INVALID_INDEX_VALUE)
  then l ← Route_at r (activeLeg r); Some (Some l)
  else Some None.

Definition getActiveLegCorrected r (corrected : option bool)
  : option (option RouteLeg * option bool) :=
  '(idx, corrected) ← getActiveLegIndexCorrected r corrected;
  if negb (idx =? INVALID_INDEX_VALUE)
  then l ← Route_at r idx; Some (Some l, corrected)
  else Some (None, corrected).

Definition isActiveMissed r : option bool :=
  leg ← getActiveLeg r;
  Some match leg with
       | Some l => isMissed l
       | None => false
       end.

Definition isPassedLastLeg r : option bool :=
  lastOrBeforeMissed ←
    (if Route_size r - 1 <=? activeLeg r then Some true
     else if activeLeg r + 1 <? Route_size r
          then isMissed <$> Route_at r (activeLeg r + 1)
          else Some false);
  Some (lastOrBeforeMissed && LineDist_eqb (status (activeLegResult r)) AFTER_END).

Definition setActiveLeg r (value : Z) : option Route :=
  let active := if (0 <? value) && (value <? Route_size r) then value else 1 in
  l0 ← Route_at r (active - 1);
  l1 ← Route_at r active;
  Some (setActive r active
                  (distanceMeterToLine (pos (activePos r)) (getPosition l0) (getPosition l1))
                  (activePos r)).

(** *** The nearest leg of the map: lines 884-923 *)

(** The body of the scan; the state is [(minResult, index)]. *)
Definition nearestLegBody r (position : Pos) (st : LineDistance * Z) (i : nat)
  : option (LineDistance * Z) :=
  prev ← Route_at r (Z.of_nat i - 1);
  if isAnyProcedure prev then Some st
  else
    pos1 ← getPositionAt r (Z.of_nat i - 1);
    pos2 ← getPositionAt r (Z.of_nat i);
    let result := distanceMeterToLine position pos1 pos2 in
    if negb (LineDist_eqb (status result) INVALID)
       && F32.ltb (F32.abs (distance result)) (F32.abs (distance (fst st)))
    then Some (result, Z.of_nat i)
    else Some st.

(** [nearestLegResult(pos, lineDistanceResult, index)].  The result is the
    pair of the two references after the call; [lineDistanceResult] is the
    referenced object before it.  [minResult] is declared without
    initialiser and gets its status and distance assigned: [junk1] and
    [junk2] stand for the indeterminate [distanceFrom1] and
    [distanceFrom2]. *)
Definition nearestLegResult r (position : Pos) (lineDistanceResult : LineDistance)
           (junk1 junk2 : float) : option (LineDistance * Z) :=
  let lineDistanceResult :=
    mkLineDistance INVALID INVALID_DISTANCE_VALUE
                   (distanceFrom1 lineDistanceResult) (distanceFrom2 lineDistanceResult) in
  if negb (Pos_isValid position) then Some (lineDistanceResult, INVALID_INDEX_VALUE)
  else
    st ← forEach (nearestLegBody r position) (seq 1 (length (legs r) - 1))
                 (mkLineDistance INVALID INVALID_DISTANCE_VALUE junk1 junk2,
                  INVALID_INDEX_VALUE);
    if negb (snd st =? INVALID_INDEX_VALUE)
    then Some (fst st, snd st)
    else Some (lineDistanceResult, snd st).

Definition getNearestLegResult r (position : Pos) (lineDistanceResult : LineDistance)
           (junk1 junk2 : float) : option (Z * LineDistance) :=
  '(res, index) ← nearestLegResult r position lineDistanceResult junk1 junk2;
  Some (index, res).

(** *** The flight-plan predicates: lines 504-555 *)

(** [atools::fs::pln::Flightplan::isEmpty()]: the plan has no entries; the
    predicates read [getEntries().first()] behind it. *)
Definition Flightplan_isEmpty (f : Flightplan) : bool :=
  match entries f with [] => true | _ => false end.

Definition isFlightplanEmpty r : bool := Flightplan_isEmpty (flightplan r).

Definition hasValidDeparture r : option bool :=
  if negb (Flightplan_isEmpty (flightplan r)) then
    firstEntry ← head (entries (flightplan r));
    if entryIsAirport firstEntry then legIsValid <$> Route_first r else Some false
  else Some false.

Definition hasValidDestination r : option bool :=
  if negb (Flightplan_isEmpty (flightplan r)) then
    lastEntry ← last (entries (flightplan r));
    if entryIsAirport lastEntry
    then legIsValid <$> Route_at r (Route_size r - 1)
    else Some false
  else Some false.

Definition hasDepartureParking r : option bool :=
  valid ← hasValidDeparture r;
  if valid : bool then departureParkingIsValid <$> Route_first r else Some false.

Definition hasDepartureStart r : option bool :=
  valid ← hasValidDeparture r;
  if valid : bool then departureStartIsValid <$> Route_first r else Some false.

Definition hasDepartureHelipad r : option bool :=
  start ← hasDepartureStart r;
  if start : bool
  then (fun l => 0 <? departureStartHelipadNumber l) <$> Route_first r
  else Some false.

Definition hasEntries r : bool := 2 <? Z.of_nat (length (entries (flightplan r))).

Definition canCalcRoute r : bool := 2 <=? Z.of_nat (length (entries (flightplan r))).

(** *** Procedures: lines 557-563 and 614-678 *)

Definition clearAllProcedures r : option Route :=
  r ← clearApproachAndTransProcedure r;
  r ← clearTransitionProcedure r;
  r ← clearStarProcedure r;
  clearDepartureProcedure r.

(** Modelled from the spec: the legs of a procedure leg set in the order
    they are flown, the attached transition first; [size()] and [at(i)] of
    [maptypes::MapProcedureLegs] are not among the sources. *)
Definition MapProcedureLegs_all (legSet : MapProcedureLegs) : list MapProcedureLeg :=
  transitionLegs legSet ++ approachLegs legSet.

Definition MapProcedureLegs_size (legSet : MapProcedureLegs) : nat :=
  length (MapProcedureLegs_all legSet).

Definition MapProcedureLegs_at (legSet : MapProcedureLegs) (i : Z) : option MapProcedureLeg :=
  if 0 <=? i then MapProcedureLegs_all legSet !! Z.to_nat i else None.

(** [QList::insert(i, value)]: prepends for [i <= 0], appends for
    [i >= size()]. *)
Definition QList_insert {A : Type} (i : Z) (value : A) (xs : list A) : list A :=
  take (Z.to_nat i) xs ++ value :: drop (Z.to_nat i) xs.

Definition setOffsets r (dep star arr : Z) : Route :=
  mkRoute (legs r) (flightplan r) (totalDistance r) (shownTypes r) (boundingRect r)
          (activePos r) (trueCourse r) (arrivalLegs r) (starLegs r) (departureLegs r)
          dep star arr (activeLeg r) (activeLegResult r).

Definition setEntries r (es : list FlightplanEntry) : Route :=
  setFlightplan r (mkFlightplan es (properties (flightplan r))).

(** Lines 628-638: one departure leg. *)
Definition insertDepartureLeg r (i : nat) : option Route :=
  let insertIndex := 1 + Z.of_nat i in
  prev ← Route_at r (Z.of_nat i);
  let obj := createFromApproachLeg (Z.of_nat i) (departureLegs r) (Some prev) in
  let r := setLegs r (QList_insert insertIndex obj (legs r)) in
  procLeg ← MapProcedureLegs_at (departureLegs r) (insertIndex - 1);
  Some (setEntries r (QList_insert insertIndex (buildFlightplanEntry procLeg)
                                   (entries (flightplan r)))).

(** Lines 644-655 and 661-672: one STAR or arrival leg of [legSet], before
    the last leg. *)
Definition insertBeforeLast r (legSet : MapProcedureLegs) (i : nat) : option Route :=
  prev ← (if 2 <=? Route_size r then Some <$> Route_at r (Route_size r - 2) else Some None);
  let obj := createFromApproachLeg (Z.of_nat i) legSet prev in
  let r := setLegs r (QList_insert (Route_size r - 1) obj (legs r)) in
  procLeg ← MapProcedureLegs_at legSet (Z.of_nat i);
  Some (setEntries r (QList_insert (Z.of_nat (length (entries (flightplan r))) - 1)
                                   (buildFlightplanEntry procLeg)
                                   (entries (flightplan r)))).

Definition updateProcedureLegs r : option Route :=
  let r := eraseProcedureLegs r PROCEDURE_ALL in
  let r := setOffsets r INVALID_INDEX_VALUE INVALID_INDEX_VALUE INVALID_INDEX_VALUE in
  let r := if negb (MapProcedureLegs_isEmpty (departureLegs r))
           then setOffsets r 1 (starLegsOffset r) (arrivalLegsOffset r) else r in
  r ← forEach insertDepartureLeg (seq 0 (MapProcedureLegs_size (departureLegs r))) r;
  let r := if negb (MapProcedureLegs_isEmpty (starLegs r))
           then setOffsets r (departureLegsOffset r) (Route_size r - 1) (arrivalLegsOffset r)
           else r in
  r ← forEach (fun r i => insertBeforeLast r (starLegs r) i)
              (seq 0 (MapProcedureLegs_size (starLegs r))) r;
  let r := if negb (MapProcedureLegs_isEmpty (arrivalLegs r))
           then setOffsets r (departureLegsOffset r) (starLegsOffset r) (Route_size r - 1)
           else r in
  r ← forEach (fun r i => insertBeforeLast r (arrivalLegs r) i)
              (seq 0 (MapProcedureLegs_size (arrivalLegs r))) r;
  let r := clearFlightplanProcedureProperties r PROCEDURE_ALL in
  Some (setFlightplan r
          (mkFlightplan (entries (flightplan r))
                        (extractLegsForFlightplanProperties
                           (properties (flightplan r))
                           (arrivalLegs r) (starLegs r) (departureLegs r)))).

(** *** Vocabulary of the properties *)

(** The distances to the previous leg added to [start] in binary32, in the
    order of the legs. *)
Definition addDistances (ls : list RouteLeg) (start : float) : float :=
  fold_left (fun sum l => F32.add sum (getDistanceTo l)) ls start.

(** The legs before the first missed-approach leg. *)
Fixpoint beforeMissed (ls : list RouteLeg) : list RouteLeg :=
  match ls with
  | [] => []
  | l :: ls' => if isMissed l then [] else l :: beforeMissed ls'
  end.

Definition notMissed (ls : list RouteLeg) : list RouteLeg :=
  List.filter (fun l => negb (isMissed l)) ls.

(** Whether the polyline of the procedure leg stands for the active leg
    [l]. *)
Definition usesGeometry l : bool :=
  isAnyProcedure l && (2 <? LineString_size (getGeometry l)).

(** The distance in nautical miles from the position of the aircraft to the
    end of the active leg [l]. *)
Definition distanceToLegEnd r l : float :=
  if usesGeometry l
  then meterToNm (distanceFrom2 (distanceMeterToLineString (geometry (getApproachLeg l))
                                                          (pos (activePos r))))
  else meterToNm (Pos_distanceMeterTo (getPosition l) (pos (activePos r))).

(** The cross-track distance in nautical miles for the active leg [l]. *)
Definition crossTrackOf r l : float :=
  let lineDist :=
    if usesGeometry l
    then distanceMeterToLineString (geometry (getApproachLeg l)) (pos (activePos r))
    else activeLegResult r in
  if LineDist_eqb (status lineDist) ALONG_TRACK
  then meterToNm (distance lineDist)
  else INVALID_DISTANCE_VALUE.


(** The state of the scan names a segment of the route that the query
    considers. *)
Definition namesSegment r (position : Pos) (st : LineDistance * Z) : Prop :=
  exists l0 l1,
    Route_at r (snd st - 1) = Some l0 /\ Route_at r (snd st) = Some l1
    /\ isAnyProcedure l0 = false
    /\ fst st = distanceMeterToLine position (getPosition l0) (getPosition l1)
    /\ LineDist_eqb (status (fst st)) INVALID = false
    /\ 1 <= snd st < Route_size r.

(** The legs that a loop of [updateProcedureLegs] builds from [legSet] for
    the indexes [idx]: each from the one before it, the first from
    [prev]. *)
Fixpoint builtLegs (legSet : MapProcedureLegs) (prev : option RouteLeg) (idx : list nat)
  : list RouteLeg :=
  match idx with
  | [] => []
  | i :: idx' =>
      let obj := createFromApproachLeg (Z.of_nat i) legSet prev in
      obj :: builtLegs legSet (Some obj) idx'
  end.

(** The flight-plan entries built from [legSet]. *)
Definition builtEntries (legSet : MapProcedureLegs) : list FlightplanEntry :=
  map buildFlightplanEntry (MapProcedureLegs_all legSet).


(** Every leg carries its position in the list as its flight-plan entry
    index. *)
Definition indexed (ls : list RouteLeg) : Prop :=
  forall (i : nat) l, ls !! i = Some l -> flightplanEntryIndex l = Z.of_nat i.

(** Whether a leg of the list has a map object type with magnetic
    variation. *)
Definition anyMagvarType (ls : list RouteLeg) : bool :=
  existsb (fun obj => testFlag (getMapObjectType obj) NAV_MAGVAR) ls.


End RouteQueries.


(** ** The planar stand-in, continued

    The collaborators of the queries above on the plane of [Flat]: a line
    string is measured against its first segment, a flight-plan entry is
    its ident, an airport has an ident of four letters and a user waypoint
    the ident [WP] followed by its number. *)

Module FlatQueries.
Import Flat.

Definition lineStringDistance (ls : list FlatPos) (p : FlatPos) : LineDistance :=
  match ls with
  | p1 :: p2 :: _ => lineDistance p p1 p2
  | _ => invalidDistance
  end.

#[export] Instance geoDist : GeoDistLib := {
  meterToNm := fun m => F32.div m (F32.of_ratio 1852216 1000);
  Pos_distanceMeterTo := dist;
  LineString_size := fun ls => Z.of_nat (length ls);
  distanceMeterToLineString := lineStringDistance
}.

Fixpoint digitsValue (s : string) (acc : Z) : Z :=
  match s with
  | EmptyString => acc
  | String c s' => digitsValue s' (10 * acc + (Z.of_nat (Ascii.nat_of_ascii c) - 48))
  end.

Definition userNumber (s : string) : Z :=
  if String.prefix "WP" s
  then digitsValue (String.substring 2 (String.length s - 2) s) 0
  else 0.

#[export] Instance plnEntry : PlnEntryLib := {
  entryIsAirport := fun s => Nat.eqb (String.length s) 4;
  entryIsUser := String.prefix "WP";
  entryUserNumber := userNumber
}.

#[export] Instance legQuery : LegQueryLib := {
  legIsValid := fun l => valid (getPosition l);
  departureParkingIsValid := fun _ => false;
  departureStartIsValid := fun l => testFlag (getMapObjectType l) AIRPORT;
  departureStartHelipadNumber := fun _ => 0
}.

(** A leg built from entry [i] of a leg set ends at the start of that
    entry's line; the entry of the flight plan is named after the turn
    direction. *)
#[export] Instance procedureBuild : ProcedureBuildLib := {
  createFromApproachLeg := fun i legSet _ =>
    match MapProcedureLegs_at legSet i with
    | Some procLeg =>
        mkRouteLeg (mkLegIdentity (fst (line procLeg)) (variantType APPROACH_LEG) APPROACH_LEG
                                  procLeg false)
                   i F32.zero F32.zero F32.zero
    | None => procedureLeg APPROACH_LEG INVALID_LEG_TYPE "" (emptyPos, emptyPos) 0 0
    end;
  buildFlightplanEntry := fun procLeg => turnDirection procLeg;
  extractLegsForFlightplanProperties := fun props _ _ _ => props
}.

(** [eastbound] between two airports, with two user waypoints. *)
Definition userRoute : Route :=
  routeOf [airport 0 0; waypoint 100000 0; waypoint 200000 0; airport 300000 0]
          ["EDDF"; "WP1"; "WP7"; "LOWI"] noProcedures noProcedures noProcedures 0.

(** Over the third leg of [eastbound], abeam nothing of the second. *)
Definition overThirdLeg : FlatPos := at_m 150000 0.

(** All four floats are asked for. *)
Definition allAsked : RouteDistances :=
  mkRouteDistances (Some F32.zero) (Some F32.zero) (Some F32.zero) (Some F32.zero).

(** [eastboundMeasured] after a sample over its first leg, 50 km out. *)
Definition enRouteMeasured : Route :=
  match updateActiveLegAndPos (aircraft 50000 0 90) eastboundMeasured with
  | Some r => r
  | None => eastboundMeasured
  end.

(** What a caller of the nearest-leg query may have left in its line
    distance. *)
Definition staleDistance : LineDistance :=
  mkLineDistance ALONG_TRACK F32.zero (F32.of_Z 7) (F32.of_Z 9).

Definition otherStaleDistance : LineDistance :=
  mkLineDistance AFTER_END (F32.of_Z 5) (F32.of_Z 7) (F32.of_Z 9).


(** A hold ahead of the active leg: the leg after the waypoint is the hold
    of [holdRoute]. *)
Definition holdAheadRoute : Route :=
  routeOf [airport 0 0; waypoint 5000 0; holdLeg; airport 30000 0]
          ["A"; "W"; "HOLD"; "D"] noProcedures noProcedures noProcedures 0.

(** 100 m beside the segment into the hold. *)
Definition besideHoldEntry : PosCourse := aircraft 7000 100 90.

(** A leg to 20 km east whose line starts at the fix of the hold. *)
Definition exitLeg : RouteLeg :=
  mkRouteLeg (mkLegIdentity (at_m 20000 0) (variantType APPROACH_LEG) APPROACH_LEG
                (mkMapProcedureLeg COURSE_OR_ARC (at_m 10000 0, at_m 20000 0)
                                   (emptyPos, emptyPos) "" F32.zero [at_m 20000 0])
                false)
             0 F32.zero F32.zero F32.zero.

Definition holdExitRoute : Route :=
  routeOf [airport 0 0; holdLeg; exitLeg; airport 30000 0]
          ["A"; "HOLD"; "CF"; "D"] noProcedures noProcedures noProcedures 0.

(** On the leg out of the hold, 2 km past the fix, heading east. *)
Definition pastHoldFix : PosCourse := aircraft 12000 0 90.


End FlatQueries.


(** * Verification *)

(** ** The order of binary32 *)

Lemma F32_ltb_irrefl (x : float) : F32.ltb x x = false.
Proof.
  unfold F32.ltb, SFltb. destruct x as [s|s| |s m e]; simpl; try reflexivity.
  - now destruct s.
  - destruct s; rewrite Z.compare_refl;
      change (Pos.compare_cont Eq m m) with (Pos.compare m m);
      now rewrite Pos.compare_refl.
Qed.

Lemma F32_ltb_trans (x y z : float) :
  F32.ltb x y = true -> F32.ltb y z = true -> F32.ltb x z = true.
Proof.
  unfold F32.ltb, SFltb.
  destruct x as [sx|sx| |sx mx ex], y as [sy|sy| |sy my ey], z as [sz|sz| |sz mz ez];
    simpl; try discriminate; try reflexivity;
    repeat match goal with s : bool |- _ => destruct s end;
    simpl; try discriminate; try reflexivity.
  all: change (Pos.compare_cont Eq) with Pos.compare.
  all: destruct (Z.compare_spec ex ey), (Z.compare_spec ey ez), (Z.compare_spec ex ez);
    simpl; try discriminate; try reflexivity; try lia; subst.
  all: destruct (Pos.compare_spec mx my), (Pos.compare_spec my mz), (Pos.compare_spec mx mz);
    simpl; try discriminate; try reflexivity; try lia.
Qed.

Lemma F32_ltb_abs_l (x y : float) :
  F32.ltb (F32.abs x) y = true -> F32.ltb x y = true.
Proof.
  unfold F32.ltb, F32.abs, SFltb.
  destruct x as [sx|sx| |sx mx ex], y as [sy|sy| |sy my ey];
    simpl; try discriminate; try reflexivity;
    repeat match goal with s : bool |- _ => destruct s end;
    simpl; try discriminate; try reflexivity; auto.
Qed.



Section RouteProofs.
Context {G : GeoLib} {M : MapFlags} {P : PlnLib} {L : LegOps}.

Implicit Types (r : Route) (p : PosCourse) (l : RouteLeg).

(** ** Indexing *)

Lemma Route_at_Some r i l :
  Route_at r i = Some l -> 0 <= i < Route_size r.
Proof.
  unfold Route_at, Route_size. destruct (Z.leb_spec 0 i) as [Hi|Hi]; [|discriminate].
  intros Hl%lookup_lt_Some. lia.
Qed.

Lemma Route_at_is_Some r i :
  0 <= i < Route_size r -> is_Some (Route_at r i).
Proof.
  unfold Route_at, Route_size. intros [H0 H1].
  destruct (Z.leb_spec 0 i) as [Hi|Hi]; [|lia].
  apply lookup_lt_is_Some. lia.
Qed.

Lemma Route_at_None r i :
  Route_size r <= i -> Route_at r i = None.
Proof.
  unfold Route_at, Route_size. intros H.
  destruct (Z.leb_spec 0 i) as [Hi|Hi]; [|reflexivity].
  apply lookup_ge_None. lia.
Qed.

Lemma getPositionAt_Some r i l :
  Route_at r i = Some l -> getPositionAt r i = Some (getPosition l).
Proof. unfold getPositionAt. now intros ->. Qed.

Lemma Route_size_nonneg r : 0 <= Route_size r.
Proof. unfold Route_size. lia. Qed.

(** ** C10: the corrected index *)

(** C10: when the active-leg index is valid, [getActiveLegIndexCorrected]
    returns the index itself and writes [false] through a non-null
    [corrected]; with a null pointer it returns the index as well.  The
    correction branch asks for [nextLeg < size()] and [nextLeg == size()]
    at once, so [at(nextLeg)] is never read and the call cannot fail. *)
Theorem getActiveLegIndexCorrected_never_corrects r (b : bool) :
  activeLeg r <> INVALID_INDEX_VALUE ->
  getActiveLegIndexCorrected r (Some b) = Some (activeLeg r, Some false)
  /\ getActiveLegIndexCorrected r None = Some (activeLeg r, None).
Proof.
  intros Hvalid. unfold getActiveLegIndexCorrected.
  destruct (Z.eqb_spec (activeLeg r) INVALID_INDEX_VALUE) as [E|_]; [contradiction|].
  destruct (Z.ltb_spec (activeLeg r + 1) (Route_size r)) as [Hlt|Hge].
  - destruct (Z.eqb_spec (activeLeg r + 1) (Route_size r)) as [Heq|_]; [lia|].
    split; reflexivity.
  - split; reflexivity.
Qed.

(** ** C9: invalid input *)

(** C9: on an empty route or an invalid position sample
    [updateActiveLegAndPos] returns normally and the route is reset: the
    active-leg index is the invalid index, the active-leg result has the
    status [INVALID] and its three distances are the invalid distance; the
    legs are untouched. *)
Theorem updateActiveLegAndPos_invalid_input p r :
  Route_isEmpty r = true \/ PosCourse_isValid p = false ->
  exists r',
    updateActiveLegAndPos p r = Some r'
    /\ activeLeg r' = INVALID_INDEX_VALUE
    /\ status (activeLegResult r') = INVALID
    /\ distance (activeLegResult r') = INVALID_DISTANCE_VALUE
    /\ distanceFrom1 (activeLegResult r') = INVALID_DISTANCE_VALUE
    /\ distanceFrom2 (activeLegResult r') = INVALID_DISTANCE_VALUE
    /\ activePos r' = PosCourse_default
    /\ legs r' = legs r.
Proof.
  intros H. exists (resetActive r). unfold updateActiveLegAndPos.
  assert (Route_isEmpty r || negb (PosCourse_isValid p) = true) as ->.
  { destruct H as [-> | ->]; [reflexivity | apply orb_true_r]. }
  repeat split.
Qed.

(** ** The steps before the switch *)

Lemma nearestAllBody_range r p st i :
  (1 <= i < length (legs r))%nat ->
  exists st', nearestAllBody r p st i = Some st'
              /\ (snd st' = snd st \/ 1 <= snd st' < Route_size r).
Proof.
  intros Hi. unfold nearestAllBody.
  destruct (Route_at_is_Some r (Z.of_nat i - 1)) as [l1 E1]; [unfold Route_size; lia|].
  destruct (Route_at_is_Some r (Z.of_nat i)) as [l2 E2]; [unfold Route_size; lia|].
  rewrite (getPositionAt_Some _ _ _ E1), (getPositionAt_Some _ _ _ E2). simpl.
  match goal with |- context [if ?c then _ else _] => destruct c end.
  - eexists; split; [reflexivity|]. right. simpl. unfold Route_size. lia.
  - eexists; split; [reflexivity|]. now left.
Qed.

Lemma forEach_nearest_range r p idx : forall st,
  Forall (fun i => 1 <= i < length (legs r))%nat idx ->
  exists st', forEach (nearestAllBody r p) idx st = Some st'
              /\ (snd st' = snd st \/ 1 <= snd st' < Route_size r).
Proof.
  induction idx as [|i idx IH]; intros st Hall; simpl.
  - eexists; split; [reflexivity|now left].
  - inversion Hall as [|? ? Hi Hrest]; subst.
    destruct (nearestAllBody_range r p st i Hi) as (st1 & -> & H1). simpl.
    destruct (IH st1 Hrest) as (st2 & -> & H2).
    eexists; split; [reflexivity|].
    destruct H2 as [-> | H2]; [exact H1 | now right].
Qed.

Lemma seq_range_Forall (a n : nat) :
  Forall (fun i => a <= i < a + n)%nat (seq a n).
Proof.
  apply List.Forall_forall. intros i Hi%in_seq. lia.
Qed.

(** The scan cannot fail, and yields the invalid index or the index of a
    segment. *)
Lemma nearestAllLegIndex_range r p :
  exists c i, nearestAllLegIndex r p = Some (c, i)
              /\ (i = INVALID_INDEX_VALUE \/ 1 <= i < Route_size r).
Proof.
  unfold nearestAllLegIndex.
  destruct (negb (PosCourse_isValid p)); [eexists _, _; split; [reflexivity|now left]|].
  edestruct (forEach_nearest_range r p (seq 1 (length (legs r) - 1))) as (st & -> & Hst).
  { eapply Forall_impl; [apply seq_range_Forall|]. simpl. intros i Hi. lia. }
  simpl. match goal with |- context [if ?c then _ else _] => destruct c end.
  - eexists _, _; split; [reflexivity|now left].
  - eexists _, _; split; [reflexivity|]. exact Hst.
Qed.

Lemma seedLeg_total r p :
  0 <= activeLeg r -> exists s, seedLeg r p = Some s /\ 0 <= s.
Proof.
  intros H. unfold seedLeg.
  destruct (Z.eqb_spec (activeLeg r) INVALID_INDEX_VALUE) as [E|E].
  - destruct (nearestAllLegIndex_range r p) as (c & i & -> & Hi). simpl.
    exists i. split; [reflexivity|]. unfold INVALID_INDEX_VALUE in *. lia.
  - eauto.
Qed.

Lemma clampLeg_range r s :
  0 <= s -> 0 < Route_size r -> 0 <= clampLeg r s < Route_size r.
Proof.
  intros Hs Hn. unfold clampLeg.
  destruct (Z.leb_spec (Route_size r) s); lia.
Qed.

(** What lines 139-153 compute, read back from a successful run. *)
Lemma measureActive_inv r p c a res :
  measureActive r p c = Some (a, res) ->
  (Route_size r = 1 /\ a = 0)
  \/ (Route_size r <> 1 /\ a = (if c =? 0 then 1 else c)
      /\ exists l0 l1, Route_at r (a - 1) = Some l0 /\ Route_at r a = Some l1
                       /\ res = distanceMeterToLine (pos p) (getPosition l0) (getPosition l1)).
Proof.
  unfold measureActive.
  destruct (Z.eqb_spec (Route_size r) 1) as [E|E].
  - destruct (Route_first r); simpl; [|discriminate]. intros [= <- _]. now left.
  - unfold getPositionAt.
    destruct (Route_at r ((if c =? 0 then 1 else c) - 1)) as [l0|] eqn:E0; simpl; [|discriminate].
    destruct (Route_at r (if c =? 0 then 1 else c)) as [l1|] eqn:E1; simpl; [|discriminate].
    intros [= <- <-]. right. repeat split; [exact E|]. eauto.
Qed.

Lemma measureActive_range r p c a res :
  measureActive r p c = Some (a, res) -> 0 <= a < Route_size r.
Proof.
  intros [[H1 ->] | (_ & _ & l0 & l1 & H0 & H1 & _)]%measureActive_inv; [lia|].
  apply Route_at_Some in H0, H1. lia.
Qed.

Lemma measureActive_total r p c :
  0 <= c < Route_size r -> exists a res, measureActive r p c = Some (a, res) /\ c <= a.
Proof.
  intros Hc. unfold measureActive.
  destruct (Z.eqb_spec (Route_size r) 1) as [E|E].
  - destruct (Route_at_is_Some r 0) as [f Ef]; [lia|]. unfold Route_first. rewrite Ef. simpl.
    eexists _, _; split; [reflexivity|lia].
  - set (a := if c =? 0 then 1 else c).
    assert (1 <= a < Route_size r /\ c <= a) as [Ha Hca].
    { subst a. destruct (Z.eqb_spec c 0); lia. }
    destruct (Route_at_is_Some r (a - 1)) as [l0 E0]; [lia|].
    destruct (Route_at_is_Some r a) as [l1 E1]; [lia|].
    rewrite (getPositionAt_Some _ _ _ E0), (getPositionAt_Some _ _ _ E1). simpl.
    eexists _, _; split; [reflexivity|exact Hca].
Qed.

(** The skip over initial fixes ends inside the route, at or after the leg it
    starts from; the fuel [size] is never used up. *)
Lemma skipInitialFixes_total r : forall fuel n,
  0 <= n < Route_size r -> Route_size r - n <= Z.of_nat fuel ->
  exists m, skipInitialFixes fuel r n = Some m /\ n <= m < Route_size r.
Proof.
  induction fuel as [|fuel IH]; intros n Hn Hfuel; [lia|].
  simpl. destruct (Route_at_is_Some r n Hn) as [l ->]. simpl.
  destruct (ProcedureLegType_eqb (getApproachLegType l) INITIAL_FIX); simpl.
  - destruct (Z.ltb_spec n (Route_size r - 2)) as [Hlt|Hge].
    + destruct (IH (n + 1)) as (m & -> & Hm); [lia|lia|]. exists m. split; [reflexivity|lia].
    + exists n. split; [reflexivity|lia].
  - exists n. split; [reflexivity|lia].
Qed.

Lemma skipInitialFixes_inv r : forall fuel n m,
  skipInitialFixes fuel r n = Some m -> n <= m /\ is_Some (Route_at r m).
Proof.
  induction fuel as [|fuel IH]; intros n m; simpl;
    destruct (Route_at r n) as [l|] eqn:E; simpl; try discriminate;
    destruct (ProcedureLegType_eqb (getApproachLegType l) INITIAL_FIX && (n <? Route_size r - 2));
    try discriminate.
  - intros [= <-]. split; [lia|eauto].
  - intros H%IH. split; [lia|tauto].
  - intros [= <-]. split; [lia|eauto].
Qed.

Lemma nextLegCandidate_total r activeL n :
  0 <= n < Route_size r ->
  exists m, nextLegCandidate r activeL n = Some m /\ n <= m < Route_size r.
Proof.
  intros Hn. unfold nextLegCandidate. destruct (isHold activeL).
  - apply skipInitialFixes_total; [exact Hn|]. unfold Route_size. lia.
  - exists n. split; [reflexivity|lia].
Qed.

Lemma nextLegCandidate_inv r activeL n m :
  is_Some (Route_at r n) ->
  nextLegCandidate r activeL n = Some m -> n <= m /\ is_Some (Route_at r m).
Proof.
  intros Hn. unfold nextLegCandidate. destruct (isHold activeL).
  - apply skipInitialFixes_inv.
  - intros [= <-]. split; [lia|exact Hn].
Qed.

Lemma nextLegCandidate_le r activeL n m :
  nextLegCandidate r activeL n = Some m -> n <= m.
Proof.
  unfold nextLegCandidate. destruct (isHold activeL).
  - now intros [? _]%skipInitialFixes_inv.
  - intros [= <-]. lia.
Qed.

(** ** The switch *)

(** The two outcomes of [advance], with the leg data they depend on. *)
Lemma advance_unfold p r a res activeL nextLeg nextL prevL :
  Route_at r a = Some activeL ->
  nextLegCandidate r activeL (a + 1) = Some nextLeg ->
  Route_at r (nextLeg - 1) = Some prevL ->
  Route_at r nextLeg = Some nextL ->
  let nextLegResult := distanceMeterToLine (pos p) (getPosition prevL) (getPosition nextL) in
  let courseDiff := courseDifference p (getPosition prevL) (getPosition nextL) in
  advance p r a res =
  Some (if switchToNextLeg p activeL nextL res nextLegResult courseDiff
           && negb (missedHidden r nextL)
        then setActive r nextLeg nextLegResult p
        else setActive r a res p).
Proof.
  intros Ha Hc Hp Hn. simpl. unfold advance.
  assert (a + 1 < Route_size r) as Hlt.
  { destruct (Z.ltb_spec (a + 1) (Route_size r)) as [|Hge]; [assumption|].
    unfold nextLegCandidate in Hc. destruct (isHold activeL).
    - destruct (length (legs r)); simpl in Hc; rewrite (Route_at_None r (a + 1) Hge) in Hc;
        discriminate.
    - injection Hc as <-. rewrite (Route_at_None r (a + 1) Hge) in Hn. discriminate. }
  destruct (Z.ltb_spec (a + 1) (Route_size r)); [|lia].
  rewrite Ha. simpl. rewrite Hc. simpl.
  rewrite (getPositionAt_Some _ _ _ Hp), (getPositionAt_Some _ _ _ Hn). simpl.
  rewrite Hn. simpl.
  destruct (switchToNextLeg _ _ _ _ _ _); simpl; [|reflexivity].
  destruct (missedHidden r nextL); reflexivity.
Qed.

Lemma advance_total p r a res :
  0 <= a < Route_size r -> exists r', advance p r a res = Some r'.
Proof.
  intros Ha. destruct (Z.ltb_spec (a + 1) (Route_size r)) as [Hlt|Hge].
  - destruct (Route_at_is_Some r a Ha) as [activeL Ea].
    destruct (nextLegCandidate_total r activeL (a + 1)) as (m & Em & Hm); [lia|].
    destruct (Route_at_is_Some r (m - 1)) as [prevL Ep]; [lia|].
    destruct (Route_at_is_Some r m) as [nextL En]; [lia|].
    rewrite (advance_unfold p r a res _ _ _ _ Ea Em Ep En). eauto.
  - unfold advance. destruct (Z.ltb_spec (a + 1) (Route_size r)); [lia|]. eauto.
Qed.

(** [advance] either keeps the leg or moves to a later one inside the
    route; the rest of the route stays. *)
Lemma advance_inv p r a res r' :
  advance p r a res = Some r' ->
  legs r' = legs r /\ shownTypes r' = shownTypes r /\ activePos r' = p
  /\ r' = setActive r (activeLeg r') (activeLegResult r') p
  /\ (r' = setActive r a res p \/ (a < activeLeg r' < Route_size r)).
Proof.
  unfold advance.
  destruct (Z.ltb_spec (a + 1) (Route_size r)) as [Hlt|Hge];
    [|intros [= <-]; repeat split; now left].
  destruct (Route_at r a) as [activeL|] eqn:Ea; simpl; [|discriminate].
  destruct (nextLegCandidate r activeL (a + 1)) as [m|] eqn:Em; simpl; [|discriminate].
  destruct (nextLegCandidate_inv r activeL (a + 1) m) as [Hm [nextL En]];
    [apply Route_at_is_Some; apply Route_at_Some in Ea; lia|exact Em|].
  destruct (getPositionAt r (m - 1)); simpl; [|discriminate].
  rewrite (getPositionAt_Some _ _ _ En). simpl. rewrite En. simpl.
  destruct (switchToNextLeg _ _ _ _ _ _); [|intros [= <-]; repeat split; now left].
  destruct (missedHidden r nextL); simpl; intros [= <-]; repeat split; try now left.
  right. simpl. apply Route_at_Some in En. lia.
Qed.

Lemma updateActiveLegAndPos_unfold p r seeded a res :
  Route_isEmpty r = false -> PosCourse_isValid p = true ->
  seedLeg r p = Some seeded ->
  measureActive r p (clampLeg r seeded) = Some (a, res) ->
  updateActiveLegAndPos p r = advance p r a res.
Proof.
  intros Hne Hv Hs Hm. unfold updateActiveLegAndPos.
  rewrite Hne, Hv, Hs. simpl. rewrite Hm. reflexivity.
Qed.

(** The update returns for every route whose active-leg index is an index or
    the invalid index: no access leaves the list. *)
Lemma updateActiveLegAndPos_total p r :
  0 <= activeLeg r -> exists r', updateActiveLegAndPos p r = Some r'.
Proof.
  intros Ha.
  destruct (Route_isEmpty r || negb (PosCourse_isValid p)) eqn:E.
  { unfold updateActiveLegAndPos. rewrite E. eauto. }
  apply orb_false_elim in E as [Hne Hv]. apply negb_false_iff in Hv.
  destruct (seedLeg_total r p Ha) as (s & Es & Hs).
  assert (0 < Route_size r) as Hn.
  { unfold Route_isEmpty in Hne. pose proof (Route_size_nonneg r).
    destruct (Z.eqb_spec (Route_size r) 0); [discriminate|lia]. }
  destruct (measureActive_total r p (clampLeg r s)) as (a & res & Em & _);
    [now apply clampLeg_range|].
  rewrite (updateActiveLegAndPos_unfold p r s a res Hne Hv Es Em).
  apply advance_total. eapply measureActive_range; eauto.
Qed.

(** ** C1: procedure turns and plain legs *)

(** C1, as the code has it.  Neither the active leg nor the next leg is a
    hold; [res] is the line distance of the active leg and [nextRes] the one
    of the candidate segment.  The update returns, and the active leg becomes
    the next leg exactly when the rule fires and the missed-approach filter
    does not hide the next leg.  The rule for a procedure turn is
    [|candidate| < |active| + 100 m] and a course difference below 45
    degrees; for any other leg it is the status after-end, or
    [|candidate| < |active| + 10 m] and a course difference below 90
    degrees.  The margin widens the candidate's side: the candidate may be
    farther than the active leg by less than the margin. *)
Theorem switch_rule_procedure_turn_and_plain p r seeded a res activeL nextL :
  Route_isEmpty r = false -> PosCourse_isValid p = true ->
  seedLeg r p = Some seeded ->
  measureActive r p (clampLeg r seeded) = Some (a, res) ->
  Route_at r a = Some activeL ->
  Route_at r (a + 1) = Some nextL ->
  isHold activeL = false -> isHold nextL = false ->
  let nextRes := distanceMeterToLine (pos p) (getPosition activeL) (getPosition nextL) in
  let courseDiff := courseDifference p (getPosition activeL) (getPosition nextL) in
  let closer margin :=
    F32.ltb (F32.abs (distance nextRes)) (F32.add (F32.abs (distance res)) margin) in
  let rule :=
    if ProcedureLegType_eqb (getApproachLegType activeL) PROCEDURE_TURN
    then closer (F32.of_Z 100) && F32.ltb courseDiff (F32.of_Z 45)
    else LineDist_eqb (status res) AFTER_END
         || (closer (F32.of_Z 10) && F32.ltb courseDiff (F32.of_Z 90)) in
  exists r',
    updateActiveLegAndPos p r = Some r'
    /\ activeLeg r' = (if rule && negb (missedHidden r nextL) then a + 1 else a)
    /\ (activeLeg r' = a + 1 <-> rule = true /\ missedHidden r nextL = false).
Proof.
  intros Hne Hv Hs Hm Ha Hn HholdA HholdN nextRes courseDiff closer rule.
  rewrite (updateActiveLegAndPos_unfold p r seeded a res Hne Hv Hs Hm).
  assert (nextLegCandidate r activeL (a + 1) = Some (a + 1)) as Hc.
  { unfold nextLegCandidate. now rewrite HholdA. }
  assert (Route_at r (a + 1 - 1) = Some activeL) as Hp.
  { replace (a + 1 - 1) with a by lia. exact Ha. }
  rewrite (advance_unfold p r a res _ _ _ _ Ha Hc Hp Hn).
  match goal with |- context [switchToNextLeg ?x1 ?x2 ?x3 ?x4 ?x5 ?x6] =>
    assert (switchToNextLeg x1 x2 x3 x4 x5 x6 = rule) as ->
  end.
  { unfold switchToNextLeg. rewrite HholdA, HholdN. reflexivity. }
  eexists. split; [reflexivity|].
  destruct rule, (missedHidden r nextL); simpl; (split; [reflexivity|]);
    split; try tauto; try lia; intros [? ?]; try discriminate; reflexivity.
Qed.

(** ** C2: leaving a hold over its helper line *)

(** C2, as the code has it.  The active leg is a hold and the line of the
    next leg does not start at the hold's position; [nextLeg] is the
    candidate after the skip over initial fixes.  The update returns, and
    the active leg becomes [nextLeg] exactly when the position is
    along-track on the hold's helper line with a signed distance below the
    threshold, and the missed-approach filter does not hide the candidate.
    The threshold is -0.5 nm for the turn direction "R" and +0.5 nm for any
    other. *)
Theorem switch_rule_hold_helper_line p r seeded a res activeL nextLeg nextL :
  Route_isEmpty r = false -> PosCourse_isValid p = true ->
  seedLeg r p = Some seeded ->
  measureActive r p (clampLeg r seeded) = Some (a, res) ->
  Route_at r a = Some activeL ->
  isHold activeL = true ->
  nextLegCandidate r activeL (a + 1) = Some nextLeg ->
  Route_at r nextLeg = Some nextL ->
  Pos_eqb (Line_getPos1 (line (getApproachLeg nextL))) (getPosition activeL) = false ->
  let resultHold := Line_distanceMeterToLine (holdLine (getApproachLeg activeL)) (pos p) in
  let threshold :=
    nmToMeter (if String.eqb (turnDirection (getApproachLeg activeL)) "R"
               then F32.opp (F32.of_ratio 1 2) else F32.of_ratio 1 2) in
  let rule :=
    LineDist_eqb (status resultHold) ALONG_TRACK
    && F32.ltb (distance resultHold) threshold in
  exists r',
    updateActiveLegAndPos p r = Some r'
    /\ activeLeg r' = (if rule && negb (missedHidden r nextL) then nextLeg else a)
    /\ (activeLeg r' = nextLeg <-> rule = true /\ missedHidden r nextL = false).
Proof.
  intros Hne Hv Hs Hm Ha Hhold Hc Hn Hdiff resultHold threshold rule.
  rewrite (updateActiveLegAndPos_unfold p r seeded a res Hne Hv Hs Hm).
  assert (a + 1 <= nextLeg) as Hle.
  { unfold nextLegCandidate in Hc. rewrite Hhold in Hc.
    now apply skipInitialFixes_inv in Hc as [? _]. }
  destruct (Route_at_is_Some r (nextLeg - 1)) as [prevL Hp].
  { apply Route_at_Some in Ha, Hn. lia. }
  rewrite (advance_unfold p r a res _ _ _ _ Ha Hc Hp Hn).
  match goal with |- context [switchToNextLeg ?x1 ?x2 ?x3 ?x4 ?x5 ?x6] =>
    assert (switchToNextLeg x1 x2 x3 x4 x5 x6 = rule) as ->
  end.
  { unfold switchToNextLeg. rewrite Hhold, Hdiff. reflexivity. }
  eexists. split; [reflexivity|].
  destruct rule, (missedHidden r nextL); simpl; (split; [reflexivity|]);
    split; try tauto; try lia; intros [? ?]; try discriminate; reflexivity.
Qed.

(** ** C6: the veto of hidden missed-approach legs *)

(** C6: while the display filter hides missed-approach legs, (1) a candidate
    that is a missed-approach leg is never switched to: whatever the rules
    say, the update returns the route with the active leg where it was; and
    (2) every run that moves the active leg ends on a leg that is not a
    missed-approach leg. *)
Theorem missed_approach_veto p r seeded a res :
  Route_isEmpty r = false -> PosCourse_isValid p = true ->
  seedLeg r p = Some seeded ->
  measureActive r p (clampLeg r seeded) = Some (a, res) ->
  testFlag (shownTypes r) PROCEDURE_MISSED = false ->
  (forall activeL nextLeg nextL,
      Route_at r a = Some activeL ->
      nextLegCandidate r activeL (a + 1) = Some nextLeg ->
      Route_at r nextLeg = Some nextL ->
      isMissed nextL = true ->
      updateActiveLegAndPos p r = Some (setActive r a res p))
  /\ (exists r', updateActiveLegAndPos p r = Some r'
                 /\ (activeLeg r' = a
                     \/ exists l, Route_at r (activeLeg r') = Some l /\ isMissed l = false)).
Proof.
  intros Hne Hv Hs Hm Hflag.
  rewrite (updateActiveLegAndPos_unfold p r seeded a res Hne Hv Hs Hm).
  pose proof (measureActive_range _ _ _ _ _ Hm) as Hrange.
  split.
  - intros activeL nextLeg nextL Ha Hc Hn Hmissed.
    destruct (Route_at_is_Some r (nextLeg - 1)) as [prevL Hp].
    { pose proof (nextLegCandidate_le _ _ _ _ Hc). apply Route_at_Some in Hn. lia. }
    rewrite (advance_unfold p r a res _ _ _ _ Ha Hc Hp Hn).
    unfold missedHidden. rewrite Hflag, Hmissed. simpl.
    now rewrite andb_false_r.
  - destruct (Z.ltb_spec (a + 1) (Route_size r)) as [Hlt|Hge].
    + destruct (Route_at_is_Some r a Hrange) as [activeL Ha].
      destruct (nextLegCandidate_total r activeL (a + 1)) as (m & Hc & Hmr); [lia|].
      destruct (Route_at_is_Some r (m - 1)) as [prevL Hp]; [lia|].
      destruct (Route_at_is_Some r m) as [nextL Hn]; [lia|].
      rewrite (advance_unfold p r a res _ _ _ _ Ha Hc Hp Hn).
      eexists. split; [reflexivity|].
      destruct (switchToNextLeg _ _ _ _ _ _); simpl; [|now left].
      unfold missedHidden. rewrite Hflag. simpl.
      destruct (isMissed nextL) eqn:Emiss; simpl; [now left|].
      right. exists nextL. split; [exact Hn|exact Emiss].
    + unfold advance. destruct (Z.ltb_spec (a + 1) (Route_size r)); [lia|].
      eexists. split; [reflexivity|]. now left.
Qed.

(** ** C8: repeated samples *)

(** The update writes the three members of the active leg and nothing
    else. *)
Lemma updateActiveLegAndPos_frame p r r1 :
  updateActiveLegAndPos p r = Some r1 ->
  r1 = setActive r (activeLeg r1) (activeLegResult r1) (activePos r1).
Proof.
  unfold updateActiveLegAndPos.
  destruct (Route_isEmpty r || negb (PosCourse_isValid p)); [now intros [= <-]|].
  destruct (seedLeg r p) as [s|]; simpl; [|discriminate].
  destruct (measureActive r p (clampLeg r s)) as [[a res]|]; simpl; [|discriminate].
  intros (_ & _ & Hp & Hr & _)%advance_inv. now rewrite Hp.
Qed.

Lemma skipInitialFixes_reads r r' : forall fuel n,
  legs r' = legs r -> skipInitialFixes fuel r' n = skipInitialFixes fuel r n.
Proof.
  intros fuel n E.
  assert (forall i, Route_at r' i = Route_at r i) as Hat
      by (intros i; unfold Route_at; now rewrite E).
  assert (Route_size r' = Route_size r) as Hsz by (unfold Route_size; now rewrite E).
  revert n. induction fuel as [|fuel IH]; intros n; simpl; rewrite Hat, Hsz;
    [reflexivity|].
  destruct (Route_at r n); simpl; [|reflexivity].
  now rewrite IH.
Qed.

(** It reads the legs, the display filter and the active-leg index only. *)
Lemma updateActiveLegAndPos_reads p r res q :
  updateActiveLegAndPos p (setActive r (activeLeg r) res q) = updateActiveLegAndPos p r.
Proof.
  unfold updateActiveLegAndPos, advance, nextLegCandidate.
  change (legs (setActive r (activeLeg r) res q)) with (legs r).
  destruct (Route_isEmpty r || negb (PosCourse_isValid p)) eqn:E.
  - change (Route_isEmpty (setActive r (activeLeg r) res q)) with (Route_isEmpty r).
    rewrite E. reflexivity.
  - change (Route_isEmpty (setActive r (activeLeg r) res q)) with (Route_isEmpty r).
    rewrite E.
    change (seedLeg (setActive r (activeLeg r) res q) p) with (seedLeg r p).
    destruct (seedLeg r p) as [s|]; simpl; [|reflexivity].
    change (measureActive (setActive r (activeLeg r) res q) p
                          (clampLeg (setActive r (activeLeg r) res q) s))
      with (measureActive r p (clampLeg r s)).
    destruct (measureActive r p (clampLeg r s)) as [[a ares]|]; simpl; [|reflexivity].
    change (Route_size (setActive r (activeLeg r) res q)) with (Route_size r).
    destruct (a + 1 <? Route_size r); [|reflexivity].
    change (Route_at (setActive r (activeLeg r) res q)) with (Route_at r).
    destruct (Route_at r a) as [activeL|]; simpl; [|reflexivity].
    rewrite (skipInitialFixes_reads r (setActive r (activeLeg r) res q)) by reflexivity.
    reflexivity.
Qed.

(** C8, as the code has it.  The update switches at most once per call, so a
    second call with the same sample may move the active leg further; what
    holds for every route and sample is that the second call returns, never
    moves the active-leg index backward, and returns the state of the first
    call whenever the first call left the index where it was. *)
Theorem repeated_sample_never_goes_back p r r1 :
  Route_size r < INVALID_INDEX_VALUE ->
  updateActiveLegAndPos p r = Some r1 ->
  exists r2,
    updateActiveLegAndPos p r1 = Some r2
    /\ activeLeg r1 <= activeLeg r2
    /\ (activeLeg r1 = activeLeg r -> r2 = r1).
Proof.
  intros Hsize H1.
  assert (activeLeg r1 = activeLeg r -> updateActiveLegAndPos p r1 = Some r1) as Hfix.
  { intros E. rewrite (updateActiveLegAndPos_frame p r r1 H1) at 1. rewrite E.
    rewrite updateActiveLegAndPos_reads. exact H1. }
  pose proof H1 as H1'. unfold updateActiveLegAndPos in H1'.
  destruct (Route_isEmpty r || negb (PosCourse_isValid p)) eqn:Einv.
  { injection H1' as <-. exists (resetActive r). repeat split; [|lia].
    unfold updateActiveLegAndPos. simpl.
    change (Route_isEmpty (resetActive r)) with (Route_isEmpty r). now rewrite Einv. }
  apply orb_false_elim in Einv as [Hne Hv]. apply negb_false_iff in Hv.
  destruct (seedLeg r p) as [s|] eqn:Es; simpl in H1'; [|discriminate].
  destruct (measureActive r p (clampLeg r s)) as [[a res]|] eqn:Em; simpl in H1';
    [|discriminate].
  pose proof (measureActive_range _ _ _ _ _ Em) as Ha.
  destruct (advance_inv _ _ _ _ _ H1') as (Hlegs & Hshown & _ & _ & Hcase).
  assert (0 <= activeLeg r1 < Route_size r) as Hr1.
  { destruct Hcase as [-> | ?]; simpl; lia. }
  assert (Route_size r <> 1 -> 1 <= activeLeg r1) as Hr1'.
  { intros Hn1. destruct Hcase as [-> | ?]; simpl; [|lia].
    apply measureActive_inv in Em as [[? _] | (_ & _ & l0 & _ & E0 & _)]; [lia|].
    apply Route_at_Some in E0. lia. }
  assert (Route_size r1 = Route_size r) as Hsz by (unfold Route_size; now rewrite Hlegs).
  assert (Route_isEmpty r1 = false) as Hne1 by (unfold Route_isEmpty in *; now rewrite Hsz).
  assert (seedLeg r1 p = Some (activeLeg r1)) as Es1.
  { unfold seedLeg. destruct (Z.eqb_spec (activeLeg r1) INVALID_INDEX_VALUE); [lia|reflexivity]. }
  assert (clampLeg r1 (activeLeg r1) = activeLeg r1) as Ec1.
  { unfold clampLeg. rewrite Hsz. destruct (Z.leb_spec (Route_size r) (activeLeg r1)); lia. }
  destruct (measureActive_total r1 p (activeLeg r1)) as (a2 & res2 & Em2 & Hle); [lia|].
  rewrite <- Ec1 in Em2 at 1.
  rewrite (updateActiveLegAndPos_unfold p r1 _ a2 res2 Hne1 Hv Es1 Em2) in *.
  destruct (advance_total p r1 a2 res2) as [r2 E2].
  { rewrite Ec1 in Em2. apply measureActive_range in Em2. exact Em2. }
  exists r2. split; [exact E2|]. split.
  - destruct (advance_inv _ _ _ _ _ E2) as (_ & _ & _ & _ & [-> | ?]); simpl; lia.
  - intros E. specialize (Hfix E). congruence.
Qed.

(** ** C3: the seed of the active leg *)

Lemma nearestAllBody_cases r p st i st' :
  nearestAllBody r p st i = Some st' ->
  exists res, segmentResult r p (Z.of_nat i) = Some res
    /\ ((LineDist_eqb (status res) INVALID = false
         /\ F32.ltb (F32.abs (distance res)) (fst (fst st)) = true
         /\ st' = (F32.abs (distance res), distance res, Z.of_nat i))
        \/ (negb (LineDist_eqb (status res) INVALID)
            && F32.ltb (F32.abs (distance res)) (fst (fst st)) = false
            /\ st' = st)).
Proof.
  unfold nearestAllBody, segmentResult.
  destruct (getPositionAt r (Z.of_nat i - 1)) as [pos1|]; simpl; [|discriminate].
  destruct (getPositionAt r (Z.of_nat i)) as [pos2|]; simpl; [|discriminate].
  destruct (negb _ && _) eqn:E; intros [= <-]; eexists; (split; [reflexivity|]).
  - left. apply andb_true_iff in E as [E1 E2]. apply negb_true_iff in E1. auto.
  - right. auto.
Qed.

(** After the scan no valid segment of the scanned ones is strictly nearer
    than the minimum, and the minimum only went down. *)
Lemma forEach_nearest_lower r p idx : forall st st',
  forEach (nearestAllBody r p) idx st = Some st' ->
  (forall x, F32.ltb x (fst (fst st')) = true -> F32.ltb x (fst (fst st)) = true)
  /\ (forall i res, In i idx -> segmentResult r p (Z.of_nat i) = Some res ->
                    LineDist_eqb (status res) INVALID = false ->
                    F32.ltb (F32.abs (distance res)) (fst (fst st')) = false).
Proof.
  induction idx as [|i idx IH]; intros st st'; simpl.
  - intros [= <-]. split; [auto|]. intros ? ? [].
  - destruct (nearestAllBody r p st i) as [st1|] eqn:E1; simpl; [|discriminate].
    intros H. destruct (IH _ _ H) as [Hdown Hrest].
    destruct (nearestAllBody_cases _ _ _ _ _ E1) as (res & Eres & Hcase).
    assert (forall x, F32.ltb x (fst (fst st1)) = true -> F32.ltb x (fst (fst st)) = true)
      as Hstep.
    { destruct Hcase as [(_ & Hlt & ->) | (_ & ->)]; simpl; [|auto].
      intros x Hx. eapply F32_ltb_trans; eauto. }
    split; [auto|].
    intros j resj [<- | Hin] Ej Hvalid; [|eauto].
    rewrite Eres in Ej. injection Ej as <-.
    destruct (F32.ltb (F32.abs (distance res)) (fst (fst st'))) eqn:Elt; [|reflexivity].
    apply Hdown in Elt.
    destruct Hcase as [(_ & _ & ->) | (Hno & ->)]; simpl in Elt.
    + now rewrite F32_ltb_irrefl in Elt.
    + now rewrite Hvalid, Elt in Hno.
Qed.

(** The scan ends on its start state or on a valid segment it visited, which
    was below the minimum the scan started from. *)
Lemma forEach_nearest_selected r p idx : forall st st',
  forEach (nearestAllBody r p) idx st = Some st' ->
  st' = st
  \/ exists i res, In i idx /\ segmentResult r p (Z.of_nat i) = Some res
       /\ LineDist_eqb (status res) INVALID = false
       /\ F32.ltb (F32.abs (distance res)) (fst (fst st)) = true
       /\ st' = (F32.abs (distance res), distance res, Z.of_nat i).
Proof.
  induction idx as [|i idx IH]; intros st st'; simpl.
  - intros [= <-]. now left.
  - destruct (nearestAllBody r p st i) as [st1|] eqn:E1; simpl; [|discriminate].
    intros H.
    destruct (nearestAllBody_cases _ _ _ _ _ E1)
      as (res & Eres & [(Hv & Hlt & Est) | (_ & Est)]).
    + destruct (IH _ _ H) as [-> | (j & resj & Hin & Ej & Hvj & Hltj & ->)].
      * right. exists i, res. subst st1. auto 6.
      * right. exists j, resj. subst st1. simpl in Hltj.
        repeat split; auto. eapply F32_ltb_trans; eauto.
    + subst st1. destruct (IH _ _ H) as [-> | (j & resj & Hin & Hj)].
      * now left.
      * right. exists j, resj. tauto.
Qed.

(** The first half of C3 holds: an index that [nearestAllLegIndex] yields,
    and with which the update therefore seeds the active leg, is that of a
    segment with a valid classification, not farther than 100 nm, and no
    segment with a valid classification is strictly nearer. *)
Lemma nearestAllLegIndex_minimal r p c i :
  nearestAllLegIndex r p = Some (c, i) -> i <> INVALID_INDEX_VALUE ->
  exists res,
    segmentResult r p i = Some res
    /\ LineDist_eqb (status res) INVALID = false
    /\ c = distance res
    /\ F32.gtb (F32.abs c) (nmToMeter (F32.of_Z 100)) = false
    /\ forall j resj, segmentResult r p j = Some resj ->
                      LineDist_eqb (status resj) INVALID = false ->
                      F32.ltb (F32.abs (distance resj)) (F32.abs c) = false.
Proof.
  unfold nearestAllLegIndex.
  destruct (negb (PosCourse_isValid p)); [intros [= _ <-]; contradiction|].
  destruct (forEach _ _ _) as [st|] eqn:E; simpl; [|discriminate].
  destruct (forEach_nearest_lower _ _ _ _ _ E) as [_ Hlow].
  destruct (forEach_nearest_selected _ _ _ _ _ E)
    as [-> | (k & res & Hin & Ek & Hv & Hlt & ->)]; cbn [fst snd].
  { rewrite F32_ltb_irrefl. intros [= _ <-]; contradiction. }
  cbn [fst snd] in Hlt, Hlow.
  rewrite (F32_ltb_abs_l _ _ Hlt). cbn [andb].
  match goal with |- context [if ?b then _ else _] => destruct b eqn:Efar end;
    intros Heq; injection Heq as Hc Hi; subst c i; [contradiction|].
  intros _. exists res. repeat split; try assumption.
  intros j resj Ej Hvj.
  assert (exists n : nat, j = Z.of_nat n /\ In n (seq 1 (length (legs r) - 1)))
    as (n & -> & Hn).
  { unfold segmentResult, getPositionAt in Ej.
    destruct (Route_at r (j - 1)) as [l0|] eqn:E0; simpl in Ej; [|discriminate].
    destruct (Route_at r j) as [l1|] eqn:E1; simpl in Ej; [|discriminate].
    apply Route_at_Some in E0, E1. unfold Route_size in *.
    exists (Z.to_nat j). split; [lia|]. apply in_seq. lia. }
  eapply Hlow; eauto.
Qed.

(** The second half fails.  When no segment is within 100 nm the scan
    yields the invalid index, the clamp of lines 134-135 takes it for an
    index past the end, and the update ends on the last leg. *)
Lemma seed_without_near_segment_is_last_leg p r c :
  Route_isEmpty r = false -> PosCourse_isValid p = true ->
  Route_size r < INVALID_INDEX_VALUE ->
  activeLeg r = INVALID_INDEX_VALUE ->
  nearestAllLegIndex r p = Some (c, INVALID_INDEX_VALUE) ->
  exists r', updateActiveLegAndPos p r = Some r' /\ activeLeg r' = Route_size r - 1.
Proof.
  intros Hne Hv Hsize Hact Hnear.
  assert (0 < Route_size r) as Hn.
  { unfold Route_isEmpty in Hne. pose proof (Route_size_nonneg r).
    destruct (Z.eqb_spec (Route_size r) 0); [discriminate|lia]. }
  assert (seedLeg r p = Some INVALID_INDEX_VALUE) as Hs.
  { unfold seedLeg. rewrite Hact, Hnear. reflexivity. }
  assert (clampLeg r INVALID_INDEX_VALUE = Route_size r - 1) as Hc.
  { unfold clampLeg. destruct (Z.leb_spec (Route_size r) INVALID_INDEX_VALUE); lia. }
  destruct (measureActive_total r p (Route_size r - 1)) as (a & res & Em & Hle); [lia|].
  pose proof (measureActive_range _ _ _ _ _ Em) as Ha.
  rewrite <- Hc in Em.
  rewrite (updateActiveLegAndPos_unfold p r _ a res Hne Hv Hs Em).
  unfold advance. destruct (Z.ltb_spec (a + 1) (Route_size r)); [lia|].
  eexists. split; [reflexivity|]. simpl. lia.
Qed.

(** ** C5: position at a distance *)

Lemma findLegLoop_total r d idx : forall total,
  Forall (fun i => Z.of_nat i + 1 < Route_size r) idx ->
  exists total' found,
    findLegLoop r d idx total = Some (total', found)
    /\ (found = INVALID_INDEX_VALUE \/ exists i, found = Z.of_nat i /\ In i idx).
Proof.
  induction idx as [|i idx IH]; intros total Hall; simpl.
  - eexists _, _. split; [reflexivity|now left].
  - inversion Hall as [|? ? Hi Hrest]; subst.
    destruct (Route_at_is_Some r (Z.of_nat i + 1)) as [l ->]; [lia|]. simpl.
    destruct (F32.gtb _ d).
    + eexists _, _. split; [reflexivity|]. right. exists i. auto.
    + destruct (IH (F32.add total (getDistanceTo l)) Hrest) as (t & f & -> & Hf).
      eexists _, _. split; [reflexivity|].
      destruct Hf as [-> | (j & -> & Hj)]; [now left|]. right. exists j. auto.
Qed.

(** The skip over approach points stays in the route when the last leg is
    not an approach point. *)
Lemma skipApproachPoints_total r :
  (forall l, Route_at r (Route_size r - 1) = Some l -> isApproachPoint l = false) ->
  forall fuel n,
    0 <= n < Route_size r -> Route_size r - n <= Z.of_nat fuel ->
    exists m, skipApproachPoints fuel r n = Some m /\ n <= m < Route_size r.
Proof.
  intros Hlast. induction fuel as [|fuel IH]; intros n Hn Hfuel; [lia|].
  simpl. destruct (Route_at_is_Some r n Hn) as [l El]. rewrite El. simpl.
  destruct (isApproachPoint l) eqn:Ep; simpl.
  - destruct (Z.ltb_spec n (Route_size r)) as [_|]; [|lia].
    assert (n <> Route_size r - 1) as Hne.
    { intros ->. rewrite (Hlast _ El) in Ep. discriminate. }
    destruct (IH (n + 1)) as (m & -> & Hm); [lia|lia|]. exists m. split; [reflexivity|lia].
  - exists n. split; [reflexivity|lia].
Qed.

(** The fuel [size] of the skip is enough: from an index that is not
    negative, more fuel gives the same result, a failed read included. *)
Lemma skipApproachPoints_fuel r : forall fuel fuel' n,
  0 <= n -> Route_size r - n < Z.of_nat fuel -> (fuel <= fuel')%nat ->
  skipApproachPoints fuel' r n = skipApproachPoints fuel r n.
Proof.
  induction fuel as [|fuel IH]; intros fuel' n Hn Hfuel Hle.
  - destruct fuel'; simpl; rewrite (Route_at_None r n) by lia; reflexivity.
  - destruct fuel' as [|fuel']; [lia|]. simpl.
    destruct (Route_at r n) as [l|]; simpl; [|reflexivity].
    destruct (isApproachPoint l && (n <? Route_size r)); [|reflexivity].
    apply IH; lia.
Qed.

(** On a route whose last leg is not an approach point (the destination of a
    flight plan is not one) every read of [positionAtDistance] is inside the
    list: the call returns a position for every distance. *)
Lemma positionAtDistance_total r d :
  (forall l, Route_at r (Route_size r - 1) = Some l -> isApproachPoint l = false) ->
  exists result, positionAtDistance r d = Some result.
Proof.
  intros Hlast. unfold positionAtDistance.
  destruct (_ || _); [eauto|].
  destruct (findLegLoop_total r d (seq 0 (length (legs r) - 1)) F32.zero)
    as (total & found & -> & Hfound).
  { apply List.Forall_forall. intros i Hi%in_seq. unfold Route_size. lia. }
  simpl. destruct (Z.ltb_spec found (Route_size r - 1)) as [Hlt|]; [|eauto].
  assert (0 <= found) as H0.
  { destruct Hfound as [-> | (i & -> & _)]; [unfold INVALID_INDEX_VALUE|]; lia. }
  destruct (Route_at_is_Some r found) as [l El]; [lia|].
  destruct (Route_at_is_Some r (found + 1)) as [l1 El1]; [lia|].
  rewrite El. simpl. destruct (negb (isAnyProcedure l)).
  - rewrite El1. simpl.
    rewrite (getPositionAt_Some _ _ _ El), (getPositionAt_Some _ _ _ El1). simpl. eauto.
  - destruct (skipApproachPoints_total r Hlast (length (legs r)) (found + 1))
      as (m & -> & Hm); [lia|unfold Route_size; lia|].
    simpl. destruct (Route_at_is_Some r m) as [lm ->]; [lia|]. simpl. eauto.
Qed.

(** C5: for every route and every distance [d], (1) when [d] is negative or
    exceeds the total distance, [positionAtDistance] returns normally and the
    result is the empty position [EMPTY_POS]; (2) when [d] is inside the
    range and no leg is found to contain it, the call returns normally as
    well and hands back the default-constructed position: an unusable
    result is a value the caller has to test, not an error. *)
Theorem positionAtDistance_out_of_range r d :
  (F32.ltb d F32.zero = true \/ F32.gtb d (totalDistance r) = true ->
   positionAtDistance r d = Some EMPTY_POS)
  /\ (F32.ltb d F32.zero = false -> F32.gtb d (totalDistance r) = false ->
      Route_size r <= INVALID_INDEX_VALUE ->
      forall total,
        findLegLoop r d (seq 0 (length (legs r) - 1)) F32.zero
        = Some (total, INVALID_INDEX_VALUE) ->
        positionAtDistance r d = Some Pos_default).
Proof.
  unfold positionAtDistance. split.
  - intros [-> | ->]; [reflexivity|]. now rewrite orb_true_r.
  - intros -> -> Hsize total ->. simpl.
    destruct (Z.ltb_spec INVALID_INDEX_VALUE (Route_size r - 1)); [lia|reflexivity].
Qed.

(** ** C4: the total distance *)

Lemma sumDistanceTo_snoc (ls : list RouteLeg) l :
  sumDistanceTo (ls ++ [l])
  = if negb (isMissed l) then F32.add (sumDistanceTo ls) (getDistanceTo l)
    else sumDistanceTo ls.
Proof.
  unfold sumDistanceTo. rewrite List.filter_app. simpl.
  destruct (negb (isMissed l)).
  - now rewrite fold_left_app.
  - now rewrite app_nil_r.
Qed.

Lemma Route_at_middle r (done todo : list RouteLeg) l :
  legs r = done ++ l :: todo -> Route_at r (Z.of_nat (length done)) = Some l.
Proof.
  intros E. unfold Route_at.
  destruct (Z.leb_spec 0 (Z.of_nat (length done))); [|lia].
  rewrite Nat2Z.id, E. now apply list_lookup_middle.
Qed.

Lemma isAirportAfterArrival_at r k x :
  Route_at r k = Some x ->
  isAirportAfterArrival r k
  = Some ((hasArrivalProcedure r || hasStarProcedure r) && (k =? Route_size r - 1)
          && (getMapObjectType x =? AIRPORT)).
Proof.
  intros E. unfold isAirportAfterArrival. rewrite E.
  now destruct ((hasArrivalProcedure r || hasStarProcedure r) && (k =? Route_size r - 1)).
Qed.

(** The loop of lines 795-805, started after the legs [done] with their
    distances summed up. *)
Lemma distancesLoop_spec : forall (todo done : list RouteLeg) last r,
  legs r = done ++ todo ->
  totalDistance r = sumDistanceTo done ->
  (todo = [] -> isAirportAfterArrival r (Route_size r - 1) <> Some true) ->
  exists r',
    distancesLoop (seq (length done) (length todo)) last r = Some r'
    /\ totalDistance r' = sumDistanceTo (legsBeforeAirportAfterArrival r').
Proof.
  induction todo as [|x rest IH]; intros done last r Hlegs Htotal Hend; simpl.
  - exists r. split; [reflexivity|].
    unfold legsBeforeAirportAfterArrival.
    specialize (Hend eq_refl).
    destruct (isAirportAfterArrival r (Route_size r - 1)) as [[|]|];
      try contradiction; now rewrite Htotal, Hlegs, app_nil_r.
  - pose proof (Route_at_middle r done rest x Hlegs) as Hat.
    assert (Route_size r = Z.of_nat (length done) + 1 + Z.of_nat (length rest)) as Hsize.
    { unfold Route_size. rewrite Hlegs, length_app. simpl. lia. }
    rewrite (isAirportAfterArrival_at r _ x Hat). simpl.
    destruct ((hasArrivalProcedure r || hasStarProcedure r)
              && (Z.of_nat (length done) =? Route_size r - 1)
              && (getMapObjectType x =? AIRPORT)) eqn:Estop.
    + (* the airport after the arrival: the loop stops *)
      exists r. split; [reflexivity|].
      pose proof Estop as Estop'.
      apply andb_true_iff in Estop' as [[_ Elast%Z.eqb_eq]%andb_true_iff _].
      assert (rest = []) as -> by (destruct rest; [reflexivity|simpl in Hsize; lia]).
      unfold legsBeforeAirportAfterArrival.
      rewrite <- Elast, (isAirportAfterArrival_at r _ x Hat), Estop.
      now rewrite Hlegs, removelast_last.
    + rewrite Hat. simpl.
      set (x' := updateDistanceAndCourse (Z.of_nat (length done)) last x).
      set (r1 := setLegs r (<[length done:=x']> (legs r))).
      set (r2 := if negb (isMissed x')
                 then setTotalDistance r1 (F32.add (totalDistance r1) (getDistanceTo x'))
                 else r1).
      assert (legs r2 = (done ++ [x']) ++ rest) as Hlegs2.
      { assert (legs r2 = <[length done:=x']> (legs r)) as ->
            by (subst r2 r1; now destruct (negb (isMissed x'))).
        rewrite Hlegs, insert_app_r_alt by lia.
        rewrite Nat.sub_diag. simpl. now rewrite <- app_assoc. }
      assert (hasArrivalProcedure r2 || hasStarProcedure r2
              = hasArrivalProcedure r || hasStarProcedure r) as Hhas
          by (subst r2 r1; now destruct (negb (isMissed x'))).
      assert (totalDistance r2 = sumDistanceTo (done ++ [x'])) as Htotal2.
      { rewrite sumDistanceTo_snoc. subst r2 r1.
        destruct (negb (isMissed x')); simpl; now rewrite Htotal. }
      destruct (IH (done ++ [x']) (Some x') r2 Hlegs2 Htotal2) as (r' & Hr' & Hsum).
      { intros ->.
        assert (Route_size r2 = Route_size r) as Hsz2.
        { unfold Route_size. rewrite Hlegs2, Hlegs, !length_app. simpl. lia. }
        assert (Route_at r2 (Route_size r2 - 1) = Some x') as Hat2.
        { replace (Route_size r2 - 1) with (Z.of_nat (length done))
            by (rewrite Hsz2, Hsize; simpl; lia).
          apply (Route_at_middle r2 done [] x'). rewrite Hlegs2. now rewrite <- app_assoc. }
        rewrite (isAirportAfterArrival_at r2 _ x' Hat2), Hhas, Hsz2.
        replace (Route_size r - 1) with (Z.of_nat (length done)) at 1
          by (rewrite Hsize; simpl; lia).
        change (getMapObjectType x') with (getMapObjectType x).
        rewrite Estop. discriminate. }
      exists r'. split; [|exact Hsum].
      rewrite length_app, Nat.add_1_r in Hr'. exact Hr'.
Qed.

(** The distance pass returns for every route. *)
Lemma updateDistancesAndCourse_spec r :
  exists r',
    updateDistancesAndCourse r = Some r'
    /\ totalDistance r' = sumDistanceTo (legsBeforeAirportAfterArrival r').
Proof.
  unfold updateDistancesAndCourse.
  apply (distancesLoop_spec (legs r) [] None (setTotalDistance r F32.zero)).
  - reflexivity.
  - reflexivity.
  - intros E. unfold isAirportAfterArrival, Route_size, Route_at. simpl. rewrite E. simpl.
    destruct (_ && _); discriminate.
Qed.


(** ** C7: clearing a procedure *)

Lemma keptAt_app {A : Type} (erased : nat -> bool) (l1 l2 : list A) : forall k,
  keptAt erased k (l1 ++ l2) = keptAt erased k l1 ++ keptAt erased (k + length l1) l2.
Proof.
  induction l1 as [|x l1 IH]; intros k; simpl.
  - now rewrite Nat.add_0_r.
  - rewrite IH, Nat.add_succ_r. simpl. now destruct (erased k).
Qed.

(** Removing the erased indexes from the last one down leaves the elements
    at the other indexes, in order. *)
Lemma fold_delete_keptAt {A : Type} (erased : nat -> bool) (l : list A) :
  forall suffix,
    fold_left (fun xs i => delete i xs)
              (List.filter erased (rev (seq 0 (length l)))) (l ++ suffix)
    = keptAt erased 0 l ++ suffix.
Proof.
  induction l as [|x l IH] using rev_ind; intros suffix; [reflexivity|].
  rewrite length_app, Nat.add_1_r, seq_S, rev_app_distr, keptAt_app. simpl.
  destruct (erased (length l)) eqn:E; simpl.
  - rewrite <- app_assoc. simpl. rewrite delete_middle, IH. now rewrite app_nil_r.
  - rewrite <- !app_assoc. simpl. apply IH.
Qed.

Lemma keptAt_filter {A : Type} (erased : nat -> bool) (f : A -> bool) (l : list A) :
  forall k,
    (forall i x, l !! i = Some x -> erased (k + i)%nat = f x) ->
    keptAt erased k l = List.filter (fun x => negb (f x)) l.
Proof.
  induction l as [|x l IH]; intros k H; [reflexivity|]. simpl.
  rewrite <- (H 0%nat x eq_refl), Nat.add_0_r.
  rewrite (IH (S k)).
  - now destruct (erased k).
  - intros i y Hy. rewrite <- (H (S i) y Hy). f_equal. lia.
Qed.

Lemma keptAt_entries {A B : Type} (erased : nat -> bool) (f : A -> bool)
      (ls : list A) : forall (es : list B) k,
    (forall i x, ls !! i = Some x -> erased (k + i)%nat = f x) ->
    length es = length ls ->
    keptAt erased k es
    = map snd (List.filter (fun le => negb (f (fst le))) (combine ls es)).
Proof.
  induction ls as [|x ls IH]; intros [|e es] k H Hlen; try discriminate; [reflexivity|].
  simpl. rewrite <- (H 0%nat x eq_refl), Nat.add_0_r.
  rewrite (IH es (S k)).
  - now destruct (erased k).
  - intros i y Hy. rewrite <- (H (S i) y Hy). f_equal. lia.
  - now injection Hlen.
Qed.

Lemma sameProcedures_refl r : sameProcedures r r.
Proof. repeat split. Qed.

Lemma sameProcedures_trans r1 r2 r3 :
  sameProcedures r1 r2 -> sameProcedures r2 r3 -> sameProcedures r1 r3.
Proof. unfold sameProcedures. intuition congruence. Qed.

Lemma fold_eraseAt idx : forall r,
  legs (fold_left eraseAt idx r) = fold_left (fun xs i => delete i xs) idx (legs r)
  /\ entries (flightplan (fold_left eraseAt idx r))
     = fold_left (fun xs i => delete i xs) idx (entries (flightplan r))
  /\ properties (flightplan (fold_left eraseAt idx r)) = properties (flightplan r)
  /\ sameProcedures r (fold_left eraseAt idx r).
Proof.
  induction idx as [|i idx IH]; intros r; simpl.
  - repeat split.
  - destruct (IH (eraseAt r i)) as (H1 & H2 & H3 & H4).
    rewrite H1, H2, H3. repeat split; apply H4.
Qed.

(** Lines 680-700: the legs that match go, the entries at their indexes go
    with them, and nothing else changes. *)
Lemma eraseProcedureLegs_spec r type :
  length (entries (flightplan r)) = length (legs r) ->
  legs (eraseProcedureLegs r type)
  = List.filter (fun l => negb (eraseMatches type l)) (legs r)
  /\ entries (flightplan (eraseProcedureLegs r type))
     = keptEntries (eraseMatches type) (legs r) (entries (flightplan r))
  /\ properties (flightplan (eraseProcedureLegs r type)) = properties (flightplan r)
  /\ sameProcedures r (eraseProcedureLegs r type).
Proof.
  intros Hlen. unfold eraseProcedureLegs, eraseIndexes.
  set (erased := fun i => match legs r !! i with
                          | Some routeLeg => eraseMatches type routeLeg
                          | None => false
                          end).
  destruct (fold_eraseAt (List.filter erased (rev (seq 0 (length (legs r))))) r)
    as (H1 & H2 & H3 & H4).
  rewrite H1, H2, H3. repeat split; try apply H4.
  - rewrite <- (app_nil_r (legs r)) at 2.
    rewrite fold_delete_keptAt, app_nil_r.
    apply keptAt_filter. intros i x Hx. unfold erased. simpl. now rewrite Hx.
  - rewrite <- Hlen. rewrite <- (app_nil_r (entries (flightplan r))) at 2.
    rewrite fold_delete_keptAt, app_nil_r.
    apply keptAt_entries; [|exact Hlen].
    intros i x Hx. unfold erased. simpl. now rewrite Hx.
Qed.


Lemma map_identity_insert (ls : list RouteLeg) : forall (i : nat) x x',
  ls !! i = Some x -> identity x' = identity x ->
  map identity (<[i:=x']> ls) = map identity ls.
Proof.
  induction ls as [|y ls IH]; intros [|i] x x' Hx Hid; simpl in *; try discriminate.
  - injection Hx as ->. now rewrite Hid.
  - f_equal. eapply IH; eauto.
Qed.

Lemma map_identity_alter (g : RouteLeg -> RouteLeg) (ls : list RouteLeg) :
  (forall x, identity (g x) = identity x) ->
  forall i : nat, map identity (alter g i ls) = map identity ls.
Proof.
  intros Hg. induction ls as [|y ls IH]; intros [|i]; simpl; try reflexivity.
  - now rewrite Hg.
  - f_equal. apply IH.
Qed.

Lemma fold_alter_identity (g : nat -> list RouteLeg -> RouteLeg -> RouteLeg) :
  (forall i ls x, identity (g i ls x) = identity x) ->
  forall (idx : list nat) (ls : list RouteLeg),
    map identity (fold_left (fun ls i => alter (g i ls) i ls) idx ls) = map identity ls.
Proof.
  intros Hg. induction idx as [|i idx IH]; intros ls; simpl; [reflexivity|].
  rewrite IH. apply map_identity_alter. intros x. apply Hg.
Qed.

Lemma updateIndices_identity r :
  map identity (legs (updateIndices r)) = map identity (legs r).
Proof.
  unfold updateIndices. simpl.
  apply (fold_alter_identity (fun i _ => setFlightplanEntryIndex (Z.of_nat i))).
  reflexivity.
Qed.

Lemma updateMagvar_identity r :
  map identity (legs (updateMagvar r)) = map identity (legs r).
Proof.
  unfold updateMagvar. simpl.
  rewrite (fold_alter_identity (fun i ls => updateInvalidMagvar (Z.of_nat i) ls))
    by reflexivity.
  apply (fold_alter_identity (fun _ _ => updateMagvarLeg)). reflexivity.
Qed.

Lemma distancesLoop_frame idx : forall last r r',
  distancesLoop idx last r = Some r' ->
  map identity (legs r') = map identity (legs r)
  /\ flightplan r' = flightplan r
  /\ sameProcedures r r'.
Proof.
  induction idx as [|i idx IH]; intros last r r'; simpl.
  - intros [= <-]. repeat split.
  - destruct (isAirportAfterArrival r (Z.of_nat i)) as [[|]|]; simpl; try discriminate.
    + intros [= <-]. repeat split.
    + destruct (Route_at r (Z.of_nat i)) as [x|] eqn:Ex; simpl; [|discriminate].
      intros H. apply IH in H as (H1 & H2 & H3).
      set (x' := updateDistanceAndCourse (Z.of_nat i) last x) in *.
      assert (map identity (<[i:=x']> (legs r)) = map identity (legs r)) as Hmap.
      { apply (map_identity_insert _ _ x); [|reflexivity].
        unfold Route_at in Ex. destruct (0 <=? Z.of_nat i); [|discriminate].
        now rewrite Nat2Z.id in Ex. }
      destruct (negb (isMissed x')); simpl in *; rewrite H1, H2, Hmap;
        repeat split; apply H3.
Qed.

(** The update pass returns, recomputes derived fields, and keeps the
    identity of every leg, the flight plan and the procedure members. *)
Lemma updateAll_spec r :
  exists r',
    updateAll r = Some r'
    /\ map identity (legs r') = map identity (legs r)
    /\ flightplan r' = flightplan r
    /\ sameProcedures r r'.
Proof.
  unfold updateAll.
  destruct (updateDistancesAndCourse_spec (updateMagvar (updateIndices r)))
    as (r1 & E1 & _).
  rewrite E1. simpl. eexists. split; [reflexivity|].
  apply distancesLoop_frame in E1 as (H1 & H2 & S1 & S2 & S3 & S4 & S5 & S6).
  split; [|split; [exact H2|repeat split; assumption]].
  transitivity (map identity (legs r1)); [reflexivity|]. rewrite H1.
  transitivity (map identity (legs (updateMagvar (updateIndices r)))); [reflexivity|].
  rewrite updateMagvar_identity. apply updateIndices_identity.
Qed.

(** A block of legs picked by their identity, none of which is among the
    legs removed, is the same before and after. *)
Lemma block_unchanged (f erased : LegIdentity -> bool) (ls ls' : list RouteLeg) :
  map identity ls' = map identity (List.filter (fun l => negb (erased (identity l))) ls) ->
  (forall i, f i = true -> erased i = false) ->
  map identity (List.filter (fun l => f (identity l)) ls')
  = map identity (List.filter (fun l => f (identity l)) ls).
Proof.
  intros Hmap Hdisj.
  rewrite <- !(@filter_map_swap _ _ f identity), Hmap.
  rewrite <- (@filter_map_swap _ _ (fun i => negb (erased i)) identity).
  induction (map identity ls) as [|i is' IH]; simpl; [reflexivity|].
  destruct (erased i) eqn:Ee; simpl.
  - destruct (f i) eqn:Ef; [|exact IH]. rewrite (Hdisj i Ef) in Ee. discriminate.
  - destruct (f i); [now rewrite IH|exact IH].
Qed.

(** C7, as the code has it.  The flag of a STAR is set in
    [PROCEDURE_STAR] and the flags of the other procedure kinds are not.
    (1) On a route with a STAR whose entry list runs parallel to the legs,
    [clearStarProcedure] returns; the legs that remain are those that are
    not STAR legs, identities unchanged and in order; the flight-plan
    entries at the indexes of the STAR legs are gone and no other; the
    departure block and the arrival block (approach, transition and missed
    legs) are as before; the departure and arrival leg sets are as before
    and the STAR leg set is empty, so that the STAR is absent; and the
    three offsets, [starLegsOffset] among them, keep the value they had:
    the clear operations do not write offsets.  (2) Each of the four clear
    operations returns the route as it is when its category is absent. *)
Theorem clearStarProcedure_removes_star_legs_only r :
  testFlag PROCEDURE_STAR PROCEDURE_STAR = true ->
  testFlag PROCEDURE_STAR PROCEDURE_APPROACH = false ->
  testFlag PROCEDURE_STAR PROCEDURE_MISSED = false ->
  testFlag PROCEDURE_STAR PROCEDURE_TRANSITION = false ->
  testFlag PROCEDURE_STAR PROCEDURE_SID = false ->
  (hasStarProcedure r = true ->
   length (entries (flightplan r)) = length (legs r) ->
   exists r',
     clearStarProcedure r = Some r'
     /\ map identity (legs r')
        = map identity (List.filter (fun l => negb (isStar l)) (legs r))
     /\ entries (flightplan r') = keptEntries isStar (legs r) (entries (flightplan r))
     /\ map identity (List.filter isSid (legs r'))
        = map identity (List.filter isSid (legs r))
     /\ map identity (List.filter (fun l => isApproach l || isTransition l || isMissed l)
                                  (legs r'))
        = map identity (List.filter (fun l => isApproach l || isTransition l || isMissed l)
                                    (legs r))
     /\ departureLegs r' = departureLegs r
     /\ arrivalLegs r' = arrivalLegs r
     /\ starLegs r' = MapProcedureLegs_default
     /\ hasStarProcedure r' = false
     /\ departureLegsOffset r' = departureLegsOffset r
     /\ arrivalLegsOffset r' = arrivalLegsOffset r
     /\ starLegsOffset r' = starLegsOffset r)
  /\ (hasStarProcedure r = false -> clearStarProcedure r = Some r)
  /\ (hasDepartureProcedure r = false -> clearDepartureProcedure r = Some r)
  /\ (hasArrivalProcedure r = false -> clearApproachAndTransProcedure r = Some r)
  /\ (hasTransitionProcedure r = false -> clearTransitionProcedure r = Some r).
Proof.
  intros Fstar Fapp Fmiss Ftrans Fsid.
  split; [|repeat split; intros E;
            unfold clearStarProcedure, clearDepartureProcedure,
              clearApproachAndTransProcedure, clearTransitionProcedure;
            now rewrite E].
  intros Hstar Hlen. unfold clearStarProcedure. rewrite Hstar.
  set (r0 := clearFlightplanProcedureProperties
               (setProcedures r (arrivalLegs r) MapProcedureLegs_default (departureLegs r))
               PROCEDURE_STAR).
  assert (forall l, eraseMatches PROCEDURE_STAR l = isStar l) as Hmatch.
  { intros l. unfold eraseMatches. now rewrite Fstar, Fapp, Fmiss, Ftrans, Fsid. }
  destruct (eraseProcedureLegs_spec r0 PROCEDURE_STAR Hlen) as (E1 & E2 & _ & E3).
  destruct (updateAll_spec (eraseProcedureLegs r0 PROCEDURE_STAR))
    as (r' & Er' & U1 & U2 & U3).
  exists r'. split; [exact Er'|].
  assert (map identity (legs r')
          = map identity (List.filter (fun l => negb (isStar l)) (legs r))) as Hlegs.
  { rewrite U1, E1. f_equal. apply filter_ext. intros l. now rewrite Hmatch. }
  pose proof (sameProcedures_trans _ _ _ E3 U3) as (S1 & S2 & S3 & S4 & S5 & S6).
  repeat split; try assumption.
  - rewrite U2, E2. unfold keptEntries. f_equal. apply filter_ext.
    intros le. now rewrite Hmatch.
  - apply (block_unchanged (fun i => LegVariant_eqb (variant i) DEPARTURE_LEG)
                           (fun i => LegVariant_eqb (variant i) STAR_LEG));
      [exact Hlegs|]. intros i. now destruct (variant i).
  - apply (block_unchanged
             (fun i => LegVariant_eqb (variant i) APPROACH_LEG
                       || LegVariant_eqb (variant i) TRANSITION_LEG
                       || LegVariant_eqb (variant i) MISSED_LEG)
             (fun i => LegVariant_eqb (variant i) STAR_LEG));
      [exact Hlegs|]. intros i. now destruct (variant i).
  - unfold hasStarProcedure. now rewrite S2.
Qed.

End RouteProofs.


(** * More of the class Route: verification *)

(** ** binary32: absolute values *)

Lemma F32_abs_not_negative (x : float) : F32.ltb (F32.abs x) F32.zero = false.
Proof. destruct x as [[|]|[|]| |[|] m e]; reflexivity. Qed.

Lemma F32_abs_is_finite (x : float) : F32.is_finite (F32.abs x) = F32.is_finite x.
Proof. now destruct x. Qed.

Lemma F32_ltb_below_not_below (a b m : float) :
  F32.ltb a m = true -> F32.ltb b m = false -> F32.is_finite b = true ->
  F32.ltb a b = true.
Proof.
  unfold F32.ltb, SFltb, F32.is_finite.
  destruct a as [sa|sa| |sa ma ea], b as [sb|sb| |sb mb eb], m as [sm|sm| |sm mm em];
    simpl; try discriminate; try reflexivity;
    repeat match goal with s : bool |- _ => destruct s end;
    simpl; try discriminate; try reflexivity.
  all: change (Pos.compare_cont Eq) with Pos.compare.
  all: destruct (Z.compare_spec ea eb), (Z.compare_spec eb em), (Z.compare_spec ea em);
    simpl; try discriminate; try reflexivity; try lia; subst.
  all: destruct (Pos.compare_spec ma mb), (Pos.compare_spec mb mm), (Pos.compare_spec ma mm);
    simpl; try discriminate; try reflexivity; try lia.
Qed.


Section RouteQueriesProofs.
Context {G : GeoLib} {M : MapFlags} {P : PlnLib} {L : LegOps}.
Context {D : GeoDistLib} {E : PlnEntryLib} {Q : LegQueryLib} {B : ProcedureBuildLib}.

Implicit Types (r : Route) (p : PosCourse) (l : RouteLeg).

(** ** The active leg that the update leaves *)

Lemma Route_at_reads r r' i : legs r' = legs r -> Route_at r' i = Route_at r i.
Proof. unfold Route_at. now intros ->. Qed.

Lemma Route_size_reads r r' : legs r' = legs r -> Route_size r' = Route_size r.
Proof. unfold Route_size. now intros ->. Qed.

Lemma segmentResult_reads r r' p j :
  legs r' = legs r -> segmentResult r' p j = segmentResult r p j.
Proof.
  intros H. unfold segmentResult, getPositionAt. now rewrite !(Route_at_reads r r' _ H).
Qed.

Lemma segmentResult_at r p j l0 l1 :
  Route_at r (j - 1) = Some l0 -> Route_at r j = Some l1 ->
  segmentResult r p j = Some (distanceMeterToLine (pos p) (getPosition l0) (getPosition l1)).
Proof. intros H0 H1. unfold segmentResult, getPositionAt. now rewrite H0, H1. Qed.

Lemma advance_result p r a res r' :
  advance p r a res = Some r' ->
  (activeLeg r' = a /\ activeLegResult r' = res)
  \/ (exists activeL,
         Route_at r a = Some activeL
         /\ nextLegCandidate r activeL (a + 1) = Some (activeLeg r')
         /\ segmentResult r p (activeLeg r') = Some (activeLegResult r')).
Proof.
  unfold advance.
  destruct (Z.ltb_spec (a + 1) (Route_size r)) as [Hlt|Hge];
    [|intros [= <-]; now left].
  destruct (Route_at r a) as [activeL|] eqn:Ea; simpl; [|discriminate].
  destruct (nextLegCandidate r activeL (a + 1)) as [m|] eqn:Em; simpl; [|discriminate].
  destruct (getPositionAt r (m - 1)) as [pos1|] eqn:E1; simpl; [|discriminate].
  destruct (getPositionAt r m) as [pos2|] eqn:E2; simpl; [|discriminate].
  destruct (Route_at r m) as [nextL|] eqn:En; simpl; [|discriminate].
  destruct (switchToNextLeg _ _ _ _ _ _); [|intros [= <-]; now left].
  destruct (missedHidden r nextL); simpl; intros [= <-]; [now left|].
  right. exists activeL. simpl. repeat split; trivial.
  unfold segmentResult. now rewrite E1, E2.
Qed.

Lemma Route_isEmpty_false r : Route_isEmpty r = false -> 0 < Route_size r.
Proof.
  unfold Route_isEmpty. pose proof (Route_size_nonneg r).
  destruct (Z.eqb_spec (Route_size r) 0); [discriminate|lia].
Qed.

(** X1: On a route with legs and for a valid position the update always
    ends with an active leg inside the route.  On a route of one leg that
    is leg 0, measured against the point itself; on any longer route the
    active leg is never leg 0, and the stored line distance is the one of
    the sample against the segment that ends at the active leg. *)
Theorem updateActiveLegAndPos_active_leg_in_range p r :
  Route_isEmpty r = false -> PosCourse_isValid p = true -> 0 <= activeLeg r ->
  exists r',
    updateActiveLegAndPos p r = Some r'
    /\ legs r' = legs r
    /\ activePos r' = p
    /\ 0 <= activeLeg r' < Route_size r'
    /\ (Route_size r' = 1 ->
        activeLeg r' = 0
        /\ exists f, Route_first r' = Some f
                     /\ activeLegResult r'
                        = distanceMeterToLine (pos p) (getPosition f) (getPosition f))
    /\ (Route_size r' <> 1 ->
        1 <= activeLeg r'
        /\ segmentResult r' p (activeLeg r') = Some (activeLegResult r')).
Proof.
  intros Hne Hv Ha.
  pose proof (Route_isEmpty_false r Hne) as Hn.
  destruct (seedLeg_total r p Ha) as (s & Es & Hs).
  pose proof (clampLeg_range r s Hs Hn) as Hc.
  destruct (measureActive_total r p (clampLeg r s) Hc) as (a & res & Em & _).
  pose proof (measureActive_range _ _ _ _ _ Em) as Har.
  destruct (advance_total p r a res Har) as [r' Eadv].
  exists r'. rewrite (updateActiveLegAndPos_unfold p r s a res Hne Hv Es Em).
  destruct (advance_inv _ _ _ _ _ Eadv) as (Hlegs & _ & Hpos & _ & Hrange).
  pose proof (Route_size_reads r r' Hlegs) as Hsize.
  split; [exact Eadv|]. split; [exact Hlegs|]. split; [exact Hpos|].
  assert (0 <= activeLeg r' < Route_size r') as Hin.
  { rewrite Hsize. destruct Hrange as [->|Hr]; [simpl|]; lia. }
  split; [exact Hin|].
  destruct (advance_result _ _ _ _ _ Eadv) as [[Hsame Hres]|(activeL & Eal & Ecand & Hseg)].
  - split.
    + intros H1. rewrite Hsize in H1.
      unfold measureActive in Em. rewrite H1 in Em. simpl in Em.
      destruct (Route_first r) as [f|] eqn:Ef; simpl in Em; [|discriminate].
      injection Em as <- <-. split; [exact Hsame|].
      exists f. unfold Route_first in *. rewrite (Route_at_reads r r' 0 Hlegs).
      split; [exact Ef|exact Hres].
    + intros H1. rewrite Hsize in H1.
      destruct (measureActive_inv _ _ _ _ _ Em)
        as [[H1' _]|(_ & Hval & l0 & l1 & E0 & E1 & Hr)]; [contradiction|].
      rewrite Hsame. split.
      * rewrite Hval. destruct (Z.eqb_spec (clampLeg r s) 0); lia.
      * rewrite (segmentResult_reads r r' p a Hlegs), Hres, Hr.
        now apply segmentResult_at.
  - pose proof (nextLegCandidate_le _ _ _ _ Ecand) as Hle.
    split; [intros H1; lia|].
    intros _. split; [lia|].
    now rewrite (segmentResult_reads r r' p _ Hlegs).
Qed.

Lemma skipInitialFixes_skipped r : forall fuel n m,
  skipInitialFixes fuel r n = Some m ->
  forall j, n <= j < m ->
            exists l, Route_at r j = Some l
                      /\ ProcedureLegType_eqb (getApproachLegType l) INITIAL_FIX = true.
Proof.
  induction fuel as [|fuel IH]; intros n m; simpl;
    destruct (Route_at r n) as [next|] eqn:En; simpl; try discriminate;
    destruct (ProcedureLegType_eqb (getApproachLegType next) INITIAL_FIX) eqn:Et; simpl;
    try (intros [= <-] j Hj; lia);
    destruct (n <? Route_size r - 2); try discriminate;
    try (intros [= <-] j Hj; lia).
  intros Hrec j Hj.
  destruct (Z.eq_dec j n) as [->|Hneq]; [eauto|].
  apply (IH (n + 1) m Hrec). lia.
Qed.

(** X2: From an active leg inside the route one update moves the active
    leg forward or leaves it, never past the last leg.  It moves by one leg,
    except when the active leg is a hold: then every leg it passes over is
    an initial fix. *)
Theorem updateActiveLegAndPos_step p r r' activeL :
  PosCourse_isValid p = true ->
  Route_size r <= INVALID_INDEX_VALUE ->
  1 <= activeLeg r < Route_size r ->
  Route_at r (activeLeg r) = Some activeL ->
  updateActiveLegAndPos p r = Some r' ->
  activeLeg r <= activeLeg r' < Route_size r
  /\ (isHold activeL = false -> activeLeg r' <= activeLeg r + 1)
  /\ (forall j, activeLeg r < j < activeLeg r' ->
                exists l, Route_at r j = Some l
                          /\ ProcedureLegType_eqb (getApproachLegType l) INITIAL_FIX = true)
  /\ (activeLeg r = Route_size r - 1 -> activeLeg r' = activeLeg r).
Proof.
  intros Hv Hint Hin Eal Eup.
  assert (Route_isEmpty r = false) as Hne.
  { unfold Route_isEmpty. destruct (Z.eqb_spec (Route_size r) 0); [lia|reflexivity]. }
  assert (seedLeg r p = Some (activeLeg r)) as Es.
  { unfold seedLeg. destruct (Z.eqb_spec (activeLeg r) INVALID_INDEX_VALUE); [lia|reflexivity]. }
  assert (clampLeg r (activeLeg r) = activeLeg r) as Ec.
  { unfold clampLeg. destruct (Z.leb_spec (Route_size r) (activeLeg r)); [lia|reflexivity]. }
  destruct (measureActive_total r p (activeLeg r)) as (a & res & Em & _); [lia|].
  destruct (measureActive_inv _ _ _ _ _ Em) as [[H1 _]|(_ & Hval & _)]; [lia|].
  assert (a = activeLeg r) as ->.
  { rewrite Hval. destruct (Z.eqb_spec (activeLeg r) 0); [lia|reflexivity]. }
  assert (measureActive r p (clampLeg r (activeLeg r)) = Some (activeLeg r, res)) as Em'
    by (rewrite Ec; exact Em).
  rewrite (updateActiveLegAndPos_unfold p r _ _ res Hne Hv Es Em') in Eup.
  destruct (advance_inv _ _ _ _ _ Eup) as (_ & _ & _ & _ & Hrange).
  assert (activeLeg r <= activeLeg r' < Route_size r) as Hle.
  { destruct Hrange as [->|Hr]; [simpl|]; lia. }
  split; [exact Hle|].
  destruct (advance_result _ _ _ _ _ Eup) as [[Hsame _]|(activeL' & Eal' & Ecand & _)].
  - rewrite Hsame. repeat split; intros; lia.
  - rewrite Eal in Eal'. injection Eal' as <-.
    unfold nextLegCandidate in Ecand. split; [|split].
    + intros Hh. rewrite Hh in Ecand. injection Ecand as <-. lia.
    + intros j Hj. destruct (isHold activeL).
      * apply (skipInitialFixes_skipped r _ _ _ Ecand). lia.
      * injection Ecand as Hm. lia.
    + intros Hlast. lia.
Qed.

Lemma updateActiveLegAndPos_range p r r' :
  Route_isEmpty r = false -> PosCourse_isValid p = true ->
  updateActiveLegAndPos p r = Some r' ->
  legs r' = legs r /\ 0 <= activeLeg r' < Route_size r'.
Proof.
  intros Hne Hv. unfold updateActiveLegAndPos. rewrite Hne, Hv. simpl.
  destruct (seedLeg r p) as [s|]; simpl; [|discriminate].
  destruct (measureActive r p (clampLeg r s)) as [[a res]|] eqn:Em; simpl; [|discriminate].
  intros Eadv. pose proof (measureActive_range _ _ _ _ _ Em) as Har.
  destruct (advance_inv _ _ _ _ _ Eadv) as (Hlegs & _ & _ & _ & Hrange).
  split; [exact Hlegs|]. rewrite (Route_size_reads r r' Hlegs).
  destruct Hrange as [->|Hr]; [simpl|]; lia.
Qed.

(** ** The route distances *)

Lemma Route_at_nat r (i : nat) : Route_at r (Z.of_nat i) = legs r !! i.
Proof.
  unfold Route_at. destruct (Z.leb_spec 0 (Z.of_nat i)); [|lia]. now rewrite Nat2Z.id.
Qed.

Lemma sumFromStart_spec r (activeIsMissed : bool) : forall n k sum,
  (k + n <= length (legs r))%nat ->
  sumFromStart r activeIsMissed (seq k n) sum
  = Some (addDistances (if activeIsMissed then take n (drop k (legs r))
                        else beforeMissed (take n (drop k (legs r)))) sum).
Proof.
  induction n as [|n IH]; intros k sum Hk; [now destruct activeIsMissed|].
  simpl seq. cbn [sumFromStart]. rewrite Route_at_nat.
  destruct (legs r !! k) as [x|] eqn:Ex.
  2: { apply lookup_ge_None in Ex. lia. }
  rewrite (drop_S _ _ _ Ex). simpl.
  destruct activeIsMissed.
  - rewrite orb_true_r. rewrite IH by lia. reflexivity.
  - rewrite orb_false_r. destruct (isMissed x); simpl; [reflexivity|].
    rewrite IH by lia. reflexivity.
Qed.

Lemma sumToDest_spec r (activeIsMissed : bool) : forall n k sum,
  (k + n <= length (legs r))%nat ->
  sumToDest r activeIsMissed (seq k n) sum
  = Some (addDistances (if activeIsMissed then take n (drop k (legs r))
                        else notMissed (take n (drop k (legs r)))) sum).
Proof.
  unfold sumToDest.
  induction n as [|n IH]; intros k sum Hk; [now destruct activeIsMissed|].
  simpl seq. cbn [forEach]. rewrite Route_at_nat.
  destruct (legs r !! k) as [x|] eqn:Ex.
  2: { apply lookup_ge_None in Ex. lia. }
  rewrite (drop_S _ _ _ Ex). simpl.
  destruct activeIsMissed.
  - rewrite orb_true_r. rewrite IH by lia. reflexivity.
  - rewrite orb_false_r. unfold notMissed. simpl.
    destruct (isMissed x); simpl; rewrite IH by lia; reflexivity.
Qed.

Lemma getRouteDistances_at r out activeL :
  activeLeg r <> INVALID_INDEX_VALUE ->
  Route_at r (activeLeg r) = Some activeL ->
  let a := Z.to_nat (activeLeg r) in
  let cur := distanceToLegEnd r activeL in
  getRouteDistances r out
  = Some (true,
          mkRouteDistances
            ((fun _ => F32.abs (F32.sub (addDistances
                                           (if isMissed activeL then take (S a) (legs r)
                                            else beforeMissed (take (S a) (legs r)))
                                           F32.zero) cur))
               <$> distFromStart out)
            ((fun _ => F32.abs (F32.add (addDistances
                                           (if isMissed activeL then drop (S a) (legs r)
                                            else notMissed (drop (S a) (legs r)))
                                           F32.zero) cur))
               <$> distToDest out)
            ((fun _ => cur) <$> nextLegDistance out)
            ((fun _ => crossTrackOf r activeL) <$> crossTrackDistance out)).
Proof.
  intros Hvalid Eal a cur.
  pose proof (Route_at_Some _ _ _ Eal) as Hin.
  unfold getRouteDistances.
  destruct (Z.eqb_spec (activeLeg r) INVALID_INDEX_VALUE) as [|_]; [contradiction|].
  rewrite Eal. cbn [mbind option_bind negb].
  destruct (Z.leb_spec (Route_size r) (activeLeg r)) as [|_]; [lia|].
  cbn [fmap option_fmap option_map mbind option_bind]. rewrite Eal.
  cbn [mbind option_bind].
  assert (negb (isMissed activeL) || isMissed activeL = true) as ->
    by (destruct (isMissed activeL); reflexivity).
  rewrite (getPositionAt_Some _ _ _ Eal).
  assert ((if isAnyProcedure activeL && (2 <? LineString_size (getGeometry activeL))
           then Some (meterToNm (distanceFrom2
                        (distanceMeterToLineString (geometry (getApproachLeg activeL))
                                                   (pos (activePos r)))))
           else Some (meterToNm (Pos_distanceMeterTo (getPosition activeL) (pos (activePos r)))))
          = Some cur) as Hcur.
  { unfold cur, distanceToLegEnd, usesGeometry.
    destruct (isAnyProcedure activeL && (2 <? LineString_size (getGeometry activeL)));
      reflexivity. }
  assert (Z.to_nat (activeLeg r + 1) = S a) as Hsa by (unfold a; lia).
  assert (S a <= length (legs r))%nat as Hlen by (unfold a, Route_size in *; lia).
  assert (Z.to_nat (Route_size r - (activeLeg r + 1)) = (length (legs r) - S a)%nat) as Hrest
    by (unfold a, Route_size in *; lia).
  destruct (isAnyProcedure activeL && (2 <? LineString_size (getGeometry activeL))) eqn:Eg;
    cbn [mbind option_bind] in Hcur |- *; injection Hcur as Hcur; rewrite Hcur;
    cbn [mbind option_bind];
    rewrite Hsa, Hrest;
    rewrite (sumFromStart_spec r (isMissed activeL) (S a) 0 F32.zero) by lia;
    rewrite (sumToDest_spec r (isMissed activeL) (length (legs r) - S a) (S a) F32.zero) by lia;
    rewrite drop_0, (take_ge (drop (S a) (legs r))) by (rewrite length_drop; lia);
    unfold crossTrackOf, usesGeometry; rewrite Eg;
    destruct (distFromStart out), (distToDest out), (nextLegDistance out),
             (crossTrackDistance out); reflexivity.
Qed.

(** X3: [getRouteDistances] written out for an active leg inside the
    route: it reports success, and each float that is asked for gets its
    value.  The distance to the end of the active leg is always computed,
    also on a missed-approach leg.  From the start the legs up to the active
    one are summed, cut at the first missed-approach leg; to the
    destination the legs after the active one, the missed-approach legs
    left out.  On an active missed-approach leg all legs count.  A pointer
    that is null stays null. *)
Theorem getRouteDistances_result r out activeL :
  activeLeg r <> INVALID_INDEX_VALUE ->
  Route_at r (activeLeg r) = Some activeL ->
  let a := Z.to_nat (activeLeg r) in
  let cur := distanceToLegEnd r activeL in
  getRouteDistances r out
  = Some (true,
          mkRouteDistances
            ((fun _ => F32.abs (F32.sub (addDistances
                                           (if isMissed activeL then take (S a) (legs r)
                                            else beforeMissed (take (S a) (legs r)))
                                           F32.zero) cur))
               <$> distFromStart out)
            ((fun _ => F32.abs (F32.add (addDistances
                                           (if isMissed activeL then drop (S a) (legs r)
                                            else notMissed (drop (S a) (legs r)))
                                           F32.zero) cur))
               <$> distToDest out)
            ((fun _ => cur) <$> nextLegDistance out)
            ((fun _ => crossTrackOf r activeL) <$> crossTrackDistance out)).
Proof. exact (getRouteDistances_at r out activeL). Qed.

Lemma getRouteDistances_reads_active r out res :
  getRouteDistances r out = Some res -> activeLeg r <> INVALID_INDEX_VALUE ->
  exists activeL, Route_at r (activeLeg r) = Some activeL.
Proof.
  intros Hres Hvalid. unfold getRouteDistances in Hres.
  destruct (Z.eqb_spec (activeLeg r) INVALID_INDEX_VALUE) as [|_]; [contradiction|].
  destruct (Route_at r (activeLeg r)) as [activeL|]; [eauto|discriminate].
Qed.

Lemma getRouteDistances_none r out :
  activeLeg r = INVALID_INDEX_VALUE -> getRouteDistances r out = Some (false, out).
Proof. intros Hinv. unfold getRouteDistances. now rewrite Hinv. Qed.

(** X4: [getRouteDistances] ends without a failed access exactly when
    there is no active leg or the active leg is inside the route; the clamp
    of the index to the last leg never comes into play, since the active leg
    has been read before.  It reports success exactly when there is an
    active leg, and without one it leaves the four floats as they are. *)
Theorem getRouteDistances_defined r out :
  (is_Some (getRouteDistances r out)
   <-> activeLeg r = INVALID_INDEX_VALUE \/ 0 <= activeLeg r < Route_size r)
  /\ (forall ok out', getRouteDistances r out = Some (ok, out') ->
                      ok = negb (activeLeg r =? INVALID_INDEX_VALUE))
  /\ (activeLeg r = INVALID_INDEX_VALUE -> getRouteDistances r out = Some (false, out)).
Proof.
  split; [|split; [|apply getRouteDistances_none]].
  - split.
    + intros [res Hres].
      destruct (Z.eq_dec (activeLeg r) INVALID_INDEX_VALUE) as [|Hvalid]; [now left|right].
      destruct (getRouteDistances_reads_active r out res Hres Hvalid) as [activeL Eal].
      exact (Route_at_Some _ _ _ Eal).
    + intros [Hinv|Hin].
      * rewrite (getRouteDistances_none r out Hinv). eauto.
      * destruct (Z.eq_dec (activeLeg r) INVALID_INDEX_VALUE) as [Hinv|Hvalid].
        { rewrite (getRouteDistances_none r out Hinv). eauto. }
        destruct (Route_at_is_Some r _ Hin) as [activeL Eal].
        rewrite (getRouteDistances_at r out activeL Hvalid Eal). eauto.
  - intros ok out' Hres.
    destruct (Z.eqb_spec (activeLeg r) INVALID_INDEX_VALUE) as [Hinv|Hvalid].
    + rewrite (getRouteDistances_none r out Hinv) in Hres. now injection Hres as <- _.
    + destruct (getRouteDistances_reads_active r out _ Hres Hvalid) as [activeL Eal].
      rewrite (getRouteDistances_at r out activeL Hvalid Eal) in Hres.
      now injection Hres as <- _.
Qed.

(** X5: The distance from the start and the distance to the destination
    that [getRouteDistances] reports are never negative. *)
Theorem getRouteDistances_not_negative r out out' :
  getRouteDistances r out = Some (true, out') ->
  (forall x, distFromStart out' = Some x -> F32.ltb x F32.zero = false)
  /\ (forall x, distToDest out' = Some x -> F32.ltb x F32.zero = false).
Proof.
  intros Hres.
  destruct (Z.eq_dec (activeLeg r) INVALID_INDEX_VALUE) as [Hinv|Hvalid].
  { rewrite (getRouteDistances_none r out Hinv) in Hres. discriminate. }
  destruct (getRouteDistances_reads_active r out _ Hres Hvalid) as [activeL Eal].
  rewrite (getRouteDistances_at r out activeL Hvalid Eal) in Hres.
  injection Hres as <-. simpl. split; intros x Hx.
  - destruct (distFromStart out); [|discriminate]. injection Hx as <-.
    apply F32_abs_not_negative.
  - destruct (distToDest out); [|discriminate]. injection Hx as <-.
    apply F32_abs_not_negative.
Qed.

(** ** The accessors of the active leg *)

Lemma getActiveLegIndexCorrected_same r (corrected : option bool) :
  activeLeg r <> INVALID_INDEX_VALUE ->
  getActiveLegIndexCorrected r corrected
  = Some (activeLeg r, (fun _ => false) <$> corrected).
Proof.
  intros Hvalid. unfold getActiveLegIndexCorrected.
  destruct (Z.eqb_spec (activeLeg r) INVALID_INDEX_VALUE) as [|_]; [contradiction|].
  destruct (Z.ltb_spec (activeLeg r + 1) (Route_size r)) as [Hlt|_]; [|reflexivity].
  destruct (Z.eqb_spec (activeLeg r + 1) (Route_size r)) as [|_]; [lia|reflexivity].
Qed.

(** X6: Without an active leg no accessor reads a leg: the active leg and
    the corrected active leg are null, the float out of [corrected] is not
    written, the active leg is not a missed-approach leg, and after
    [resetActive] the last leg does not count as passed. *)
Theorem accessors_without_active_leg r (corrected : option bool) :
  activeLeg r = INVALID_INDEX_VALUE ->
  getActiveLeg r = Some None
  /\ getActiveLegCorrected r corrected = Some (None, corrected)
  /\ isActiveMissed r = Some false
  /\ isPassedLastLeg (resetActive r) = Some false.
Proof.
  intros Hinv.
  assert (getActiveLeg r = Some None) as Hleg.
  { unfold getActiveLeg. now rewrite Hinv. }
  split; [exact Hleg|]. split; [|split].
  - unfold getActiveLegCorrected, getActiveLegIndexCorrected. now rewrite Hinv.
  - unfold isActiveMissed. now rewrite Hleg.
  - unfold isPassedLastLeg.
    change (activeLeg (resetActive r)) with INVALID_INDEX_VALUE.
    change (status (activeLegResult (resetActive r))) with INVALID.
    change (Route_size (resetActive r)) with (Route_size r).
    rewrite (Route_at_reads r (resetActive r) _ eq_refl).
    destruct (Z.leb_spec (Route_size r - 1) INVALID_INDEX_VALUE) as [_|Hbig];
      [reflexivity|].
    destruct (Z.ltb_spec (INVALID_INDEX_VALUE + 1) (Route_size r)) as [Hlt|_];
      [|reflexivity].
    destruct (Route_at_is_Some r (INVALID_INDEX_VALUE + 1)) as [l El];
      [unfold INVALID_INDEX_VALUE in *; lia|].
    rewrite El. simpl. now rewrite andb_false_r.
Qed.

(** X7: After an update of a route with legs for a valid position every
    accessor of the active leg reads inside the route: the active leg and
    the corrected active leg are the leg at the active index, nothing is
    corrected, and the route distances are available. *)
Theorem accessors_after_update p r r' out (b : bool) :
  Route_size r <= INVALID_INDEX_VALUE ->
  Route_isEmpty r = false -> PosCourse_isValid p = true ->
  updateActiveLegAndPos p r = Some r' ->
  exists l out',
    Route_at r (activeLeg r') = Some l
    /\ getActiveLeg r' = Some (Some l)
    /\ getActiveLegCorrected r' (Some b) = Some (Some l, Some false)
    /\ isActiveMissed r' = Some (isMissed l)
    /\ is_Some (isPassedLastLeg r')
    /\ getRouteDistances r' out = Some (true, out').
Proof.
  intros Hint Hne Hv Eup.
  destruct (updateActiveLegAndPos_range p r r' Hne Hv Eup) as [Hlegs Hin].
  pose proof (Route_size_reads r r' Hlegs) as Hsize.
  assert (activeLeg r' <> INVALID_INDEX_VALUE) as Hvalid by lia.
  destruct (Route_at_is_Some r' _ Hin) as [l El].
  exists l. eexists. split; [now rewrite <- (Route_at_reads r r' _ Hlegs)|].
  assert (getActiveLeg r' = Some (Some l)) as Hleg.
  { unfold getActiveLeg.
    destruct (Z.eqb_spec (activeLeg r') INVALID_INDEX_VALUE) as [|_]; [contradiction|].
    simpl. now rewrite El. }
  split; [exact Hleg|]. split; [|split; [|split]].
  - unfold getActiveLegCorrected.
    rewrite (getActiveLegIndexCorrected_same r' (Some b) Hvalid). simpl.
    destruct (Z.eqb_spec (activeLeg r') INVALID_INDEX_VALUE) as [|_]; [contradiction|].
    simpl. now rewrite El.
  - unfold isActiveMissed. now rewrite Hleg.
  - unfold isPassedLastLeg.
    destruct (Z.leb_spec (Route_size r' - 1) (activeLeg r')) as [_|Hmore]; [simpl; eauto|].
    destruct (Z.ltb_spec (activeLeg r' + 1) (Route_size r')) as [Hlt|_]; [|simpl; eauto].
    destruct (Route_at_is_Some r' (activeLeg r' + 1)) as [n En]; [lia|].
    rewrite En. simpl. eauto.
  - exact (getRouteDistances_at r' out l Hvalid El).
Qed.

(** X8: [setActiveLeg] reads the legs [activeLeg - 1] and [activeLeg]: it
    ends without a failed access exactly on a route of two legs or more.
    The active leg is then the given one if that is a leg after the first,
    and leg 1 otherwise; the line distance is that of the last position
    against the segment ending at the active leg. *)
Theorem setActiveLeg_spec r (value : Z) :
  (is_Some (setActiveLeg r value) <-> 2 <= Route_size r)
  /\ forall r', setActiveLeg r value = Some r' ->
       legs r' = legs r /\ activePos r' = activePos r
       /\ 1 <= activeLeg r' < Route_size r'
       /\ activeLeg r' = (if (0 <? value) && (value <? Route_size r) then value else 1)
       /\ segmentResult r' (activePos r) (activeLeg r') = Some (activeLegResult r').
Proof.
  unfold setActiveLeg.
  set (active := if (0 <? value) && (value <? Route_size r) then value else 1).
  assert (1 <= active /\ (2 <= Route_size r -> active < Route_size r)) as [Hlow Hhigh].
  { unfold active. destruct (Z.ltb_spec 0 value), (Z.ltb_spec value (Route_size r)); simpl; lia. }
  split.
  - split.
    + intros [r' Hr'].
      destruct (Route_at r (active - 1)) as [l0|]; simpl in Hr'; [|discriminate].
      destruct (Route_at r active) as [l1|] eqn:E1; simpl in Hr'; [|discriminate].
      apply Route_at_Some in E1. lia.
    + intros Hsize.
      destruct (Route_at_is_Some r (active - 1)) as [l0 E0]; [lia|].
      destruct (Route_at_is_Some r active) as [l1 E1]; [lia|].
      rewrite E0, E1. simpl. eauto.
  - intros r'.
    destruct (Route_at r (active - 1)) as [l0|] eqn:E0; simpl; [|discriminate].
    destruct (Route_at r active) as [l1|] eqn:E1; simpl; [|discriminate].
    intros [= <-]. simpl.
    pose proof (Route_at_Some _ _ _ E1) as Hin.
    split; [reflexivity|]. split; [reflexivity|]. split.
    { change (Route_size (setActive r active
                (distanceMeterToLine (pos (activePos r)) (getPosition l0) (getPosition l1))
                (activePos r))) with (Route_size r). lia. }
    split; [reflexivity|].
    exact (segmentResult_at r (activePos r) active l0 l1 E0 E1).
Qed.


(** ** The nearest leg of the map *)

Lemma nearestLegBody_total r (position : Pos) st i :
  (1 <= i < length (legs r))%nat ->
  exists l0 l1,
    Route_at r (Z.of_nat i - 1) = Some l0 /\ Route_at r (Z.of_nat i) = Some l1
    /\ let res := distanceMeterToLine position (getPosition l0) (getPosition l1) in
       nearestLegBody r position st i
       = Some (if negb (isAnyProcedure l0)
                  && negb (LineDist_eqb (status res) INVALID)
                  && F32.ltb (F32.abs (distance res)) (F32.abs (distance (fst st)))
               then (res, Z.of_nat i) else st).
Proof.
  intros Hi. unfold nearestLegBody.
  destruct (Route_at_is_Some r (Z.of_nat i - 1)) as [l0 E0]; [unfold Route_size; lia|].
  destruct (Route_at_is_Some r (Z.of_nat i)) as [l1 E1]; [unfold Route_size; lia|].
  exists l0, l1. split; [exact E0|]. split; [exact E1|].
  rewrite E0. cbn [mbind option_bind].
  rewrite (getPositionAt_Some _ _ _ E0), (getPositionAt_Some _ _ _ E1).
  cbn [mbind option_bind].
  destruct (isAnyProcedure l0); simpl; [reflexivity|].
  match goal with |- context [if ?c then _ else _] => destruct c end; reflexivity.
Qed.

Lemma forEach_nearestLeg r (position : Pos) idx : forall st,
  Forall (fun i => 1 <= i < length (legs r))%nat idx ->
  exists st',
    forEach (nearestLegBody r position) idx st = Some st'
    /\ (st' = st
        \/ (namesSegment r position st'
            /\ F32.ltb (F32.abs (distance (fst st'))) (F32.abs (distance (fst st))) = true))
    /\ (forall x, F32.ltb x (F32.abs (distance (fst st'))) = true ->
                  F32.ltb x (F32.abs (distance (fst st))) = true)
    /\ (forall i l0 l1,
           In i idx ->
           Route_at r (Z.of_nat i - 1) = Some l0 -> Route_at r (Z.of_nat i) = Some l1 ->
           isAnyProcedure l0 = false ->
           let res := distanceMeterToLine position (getPosition l0) (getPosition l1) in
           LineDist_eqb (status res) INVALID = false ->
           F32.ltb (F32.abs (distance res)) (F32.abs (distance (fst st'))) = false).
Proof.
  induction idx as [|i idx IH]; intros st Hall.
  - exists st. split; [reflexivity|]. split; [now left|]. split; [tauto|].
    intros i l0 l1 [].
  - inversion Hall as [|? ? Hi Hrest]; subst.
    destruct (nearestLegBody_total r position st i Hi) as (l0 & l1 & E0 & E1 & Hbody).
    cbn zeta in Hbody.
    set (res := distanceMeterToLine position (getPosition l0) (getPosition l1)) in *.
    cbn [forEach]. rewrite Hbody. cbn [mbind option_bind].
    match type of Hbody with _ = Some ?s => remember s as st1 eqn:Hst1 end.
    clear Hbody.
    destruct (IH st1 Hrest) as (st' & Hrun & Hsel & Hmono & Hmin).
    exists st'. split; [exact Hrun|].
    assert (st1 = st
            \/ (isAnyProcedure l0 = false /\ LineDist_eqb (status res) INVALID = false
                /\ F32.ltb (F32.abs (distance res)) (F32.abs (distance (fst st))) = true
                /\ st1 = (res, Z.of_nat i))) as Hstep.
    { rewrite Hst1. destruct (isAnyProcedure l0); simpl; [now left|].
      destruct (LineDist_eqb (status res) INVALID); simpl; [now left|].
      destruct (F32.ltb (F32.abs (distance res)) (F32.abs (distance (fst st))));
        [right; auto|now left]. }
    assert (forall x, F32.ltb x (F32.abs (distance (fst st1))) = true ->
                      F32.ltb x (F32.abs (distance (fst st))) = true) as Hmono1.
    { destruct Hstep as [->|(_ & _ & Hlt & ->)]; [tauto|].
      intros x Hx. simpl in Hx. exact (F32_ltb_trans _ _ _ Hx Hlt). }
    split; [|split].
    + destruct Hsel as [->|[Hnames Hlt]].
      * destruct Hstep as [->|(Hproc & Hst & Hlt & Est)]; [now left|].
        right. split; [|rewrite Est; exact Hlt].
        rewrite Est. exists l0, l1. simpl. repeat split; trivial;
          unfold Route_size; lia.
      * right. split; [exact Hnames|]. now apply Hmono1.
    + intros x Hx. apply Hmono1, Hmono, Hx.
    + intros j m0 m1 [<-|Hj] F0 F1 Hproc; [|now apply (Hmin j m0 m1)].
      rewrite E0 in F0. rewrite E1 in F1. injection F0 as <-. injection F1 as <-.
      cbn zeta. fold res. intros Hst.
      destruct (F32.ltb (F32.abs (distance res)) (F32.abs (distance (fst st')))) eqn:Hlt;
        [|reflexivity].
      apply Hmono in Hlt.
      destruct Hstep as [Est|(_ & _ & _ & Est)]; rewrite Est in Hlt.
      * rewrite Est, Hproc, Hst in Hst1. simpl in Hst1. rewrite Hlt in Hst1.
        rewrite Hst1 in Hlt. simpl in Hlt. now rewrite F32_ltb_irrefl in Hlt.
      * simpl in Hlt. now rewrite F32_ltb_irrefl in Hlt.
Qed.


Lemma seq_1_range r :
  Forall (fun i => 1 <= i < length (legs r))%nat (seq 1 (length (legs r) - 1)).
Proof.
  eapply Forall_impl; [apply seq_range_Forall|]. simpl. intros i Hi. lia.
Qed.

Lemma In_seq_1 r (j : Z) l0 l1 :
  Route_at r (j - 1) = Some l0 -> Route_at r j = Some l1 ->
  In (Z.to_nat j) (seq 1 (length (legs r) - 1)) /\ Z.of_nat (Z.to_nat j) = j.
Proof.
  intros H0%Route_at_Some H1%Route_at_Some. unfold Route_size in *.
  split; [apply in_seq|]; lia.
Qed.

Lemma abs_INVALID_DISTANCE_VALUE : F32.abs INVALID_DISTANCE_VALUE = INVALID_DISTANCE_VALUE.
Proof. reflexivity. Qed.

(** X9: [nearestLegResult] never reads outside the route, whatever the
    route.  Either it reports no leg: then the index is the invalid one, and
    the line distance
    of the caller has the invalid status and the invalid distance, its two
    other distances being left as they were.  Or the position is valid and
    it reports a segment of the route whose first leg is no procedure leg,
    with the line distance of the position against that segment, which is
    not invalid. *)
Theorem nearestLegResult_names_a_segment r (position : Pos) (ld : LineDistance)
        (junk1 junk2 : float) :
  exists res idx,
    nearestLegResult r position ld junk1 junk2 = Some (res, idx)
    /\ ((idx = INVALID_INDEX_VALUE
         /\ res = mkLineDistance INVALID INVALID_DISTANCE_VALUE
                                 (distanceFrom1 ld) (distanceFrom2 ld))
        \/ (idx <> INVALID_INDEX_VALUE /\ Pos_isValid position = true
            /\ namesSegment r position (res, idx))).
Proof.
  unfold nearestLegResult.
  destruct (Pos_isValid position) eqn:Hv; simpl.
  2: { eexists _, _. split; [reflexivity|]. now left. }
  destruct (forEach_nearestLeg r position _
              (mkLineDistance INVALID INVALID_DISTANCE_VALUE junk1 junk2, INVALID_INDEX_VALUE)
              (seq_1_range r)) as (st' & -> & Hsel & _).
  cbn [mbind option_bind].
  destruct (Z.eqb_spec (snd st') INVALID_INDEX_VALUE) as [Hinv|Hfound]; simpl.
  - eexists _, _. split; [reflexivity|]. left. now split.
  - eexists _, _. split; [reflexivity|]. right. split; [exact Hfound|]. split; [reflexivity|].
    destruct Hsel as [->|[Hnames _]]; [now simpl in Hfound|].
    now destruct st'.
Qed.

(** X10: No segment that the query considers is nearer than the one
    [nearestLegResult] reports: for every segment whose first leg is no
    procedure leg and whose line distance is not invalid, the absolute
    distance is not below the reported one.  When no leg is reported, no
    such segment has an absolute distance below the invalid distance. *)
Theorem nearestLegResult_minimal r (position : Pos) (ld : LineDistance)
        (junk1 junk2 : float) res idx :
  Route_size r <= INVALID_INDEX_VALUE ->
  Pos_isValid position = true ->
  nearestLegResult r position ld junk1 junk2 = Some (res, idx) ->
  forall j l0 l1,
    Route_at r (j - 1) = Some l0 -> Route_at r j = Some l1 ->
    isAnyProcedure l0 = false ->
    let resj := distanceMeterToLine position (getPosition l0) (getPosition l1) in
    LineDist_eqb (status resj) INVALID = false ->
    F32.ltb (F32.abs (distance resj)) (F32.abs (distance res)) = false.
Proof.
  intros Hint Hv. unfold nearestLegResult. rewrite Hv. cbn [negb].
  destruct (forEach_nearestLeg r position _
              (mkLineDistance INVALID INVALID_DISTANCE_VALUE junk1 junk2, INVALID_INDEX_VALUE)
              (seq_1_range r)) as (st' & -> & Hsel & _ & Hmin).
  cbn [mbind option_bind].
  assert (distance (if negb (snd st' =? INVALID_INDEX_VALUE) then fst st'
                    else mkLineDistance INVALID INVALID_DISTANCE_VALUE
                                        (distanceFrom1 ld) (distanceFrom2 ld))
          = distance (fst st')) as Hdist.
  { destruct (Z.eqb_spec (snd st') INVALID_INDEX_VALUE) as [Hinv|_]; [|reflexivity].
    simpl. destruct Hsel as [->|[(_ & _ & _ & _ & _ & _ & _ & Hr) _]]; [reflexivity|lia]. }
  intros Hres j l0 l1 E0 E1 Hproc Hst.
  assert (distance res = distance (fst st')) as ->.
  { rewrite <- Hdist.
    destruct (negb (snd st' =? INVALID_INDEX_VALUE)); now injection Hres as <- _. }
  destruct (In_seq_1 r j l0 l1 E0 E1) as [Hin Hj].
  apply (Hmin (Z.to_nat j) l0 l1 Hin); rewrite ?Hj; trivial.
Qed.

Lemma forEach_nearestLeg_same_distance r (position : Pos) idx : forall st1 st2,
  Forall (fun i => 1 <= i < length (legs r))%nat idx ->
  distance (fst st1) = distance (fst st2) ->
  exists st1' st2',
    forEach (nearestLegBody r position) idx st1 = Some st1'
    /\ forEach (nearestLegBody r position) idx st2 = Some st2'
    /\ ((st1' = st1 /\ st2' = st2) \/ st1' = st2').
Proof.
  induction idx as [|i idx IH]; intros st1 st2 Hall Hd.
  - exists st1, st2. repeat split; trivial. now left.
  - inversion Hall as [|? ? Hi Hrest]; subst. cbn [forEach].
    destruct (nearestLegBody_total r position st1 i Hi) as (l0 & l1 & E0 & E1 & ->).
    destruct (nearestLegBody_total r position st2 i Hi) as (m0 & m1 & F0 & F1 & ->).
    rewrite E0 in F0. rewrite E1 in F1. injection F0 as <-. injection F1 as <-.
    cbn [mbind option_bind]. rewrite <- Hd.
    match goal with |- context [if ?c then _ else _] => destruct c end.
    + destruct (IH (distanceMeterToLine position (getPosition l0) (getPosition l1), Z.of_nat i)
                   (distanceMeterToLine position (getPosition l0) (getPosition l1), Z.of_nat i)
                   Hrest eq_refl) as (a & b & Ha & Hb & Hab).
      exists a, b. split; [exact Ha|]. split; [exact Hb|]. right. congruence.
    + destruct (IH st1 st2 Hrest Hd) as (a & b & Ha & Hb & Hab). exists a, b. auto.
Qed.

(** X11: [nearestLegResult] does not depend on what it leaves
    uninitialised or on what it overwrites: the two distances of its local
    minimum that are never assigned, and the status and the distance that
    the caller's line distance had before the call, have no influence on the
    result. *)
Theorem nearestLegResult_ignores_stale_values r (position : Pos) (ld ld' : LineDistance)
        (junk1 junk2 junk1' junk2' : float) :
  distanceFrom1 ld' = distanceFrom1 ld -> distanceFrom2 ld' = distanceFrom2 ld ->
  nearestLegResult r position ld junk1 junk2
  = nearestLegResult r position ld' junk1' junk2'.
Proof.
  intros H1 H2. unfold nearestLegResult. rewrite H1, H2.
  destruct (Pos_isValid position); simpl; [|reflexivity].
  destruct (forEach_nearestLeg_same_distance r position _
              (mkLineDistance INVALID INVALID_DISTANCE_VALUE junk1 junk2, INVALID_INDEX_VALUE)
              (mkLineDistance INVALID INVALID_DISTANCE_VALUE junk1' junk2', INVALID_INDEX_VALUE)
              (seq_1_range r) eq_refl) as (a & b & Ha & Hb & Hab).
  rewrite Ha, Hb. destruct Hab as [[Ea Eb]|Eab]; subst; reflexivity.
Qed.

Lemma forEach_nearest_simulation r p idx :
  (forall l, In l (legs r) -> isAnyProcedure l = false) ->
  forall (sa : float * float * Z) (sl : LineDistance * Z),
    Forall (fun i => 1 <= i < length (legs r))%nat idx ->
    fst (fst sa) = F32.abs (distance (fst sl)) ->
    snd (fst sa) = distance (fst sl) -> snd sa = snd sl ->
    exists sa' sl',
      forEach (nearestAllBody r p) idx sa = Some sa'
      /\ forEach (nearestLegBody r (pos p)) idx sl = Some sl'
      /\ fst (fst sa') = F32.abs (distance (fst sl'))
      /\ snd (fst sa') = distance (fst sl') /\ snd sa' = snd sl'.
Proof.
  intros Hplain. induction idx as [|i idx IH]; intros sa sl Hall Hm Hc Hi.
  - exists sa, sl. repeat split; trivial.
  - inversion Hall as [|? ? Hrange Hrest]; subst. cbn [forEach].
    destruct (nearestLegBody_total r (pos p) sl i Hrange) as (l0 & l1 & E0 & E1 & ->).
    unfold nearestAllBody.
    rewrite (getPositionAt_Some _ _ _ E0), (getPositionAt_Some _ _ _ E1).
    cbn [mbind option_bind].
    assert (isAnyProcedure l0 = false) as ->.
    { apply Hplain. unfold Route_at in E0.
      destruct (0 <=? Z.of_nat i - 1); [|discriminate].
      eapply list_elem_of_In, list_elem_of_lookup_2, E0. }
    rewrite Hm. cbn [negb andb].
    match goal with |- context [if ?c then _ else _] => destruct c end.
    + apply IH; trivial.
    + apply IH; trivial.
Qed.

(** X12: On a route without procedure legs the nearest leg of the map and
    the seed of the active leg are the same segment: [nearestAllLegIndex]
    reports the leg and the distance of [nearestLegResult], except that it
    reports no leg when that distance is above 100 nautical miles. *)
Theorem nearestLegResult_agrees_with_nearestAllLegIndex r p (ld : LineDistance)
        (junk1 junk2 : float) res idx :
  (forall l, In l (legs r) -> isAnyProcedure l = false) ->
  Route_size r <= INVALID_INDEX_VALUE ->
  nearestLegResult r (pos p) ld junk1 junk2 = Some (res, idx) ->
  nearestAllLegIndex r p
  = Some (if (idx =? INVALID_INDEX_VALUE)
             || F32.gtb (F32.abs (distance res)) (nmToMeter (F32.of_Z 100))
          then (INVALID_DISTANCE_VALUE, INVALID_INDEX_VALUE)
          else (distance res, idx)).
Proof.
  intros Hplain Hint. unfold nearestLegResult, nearestAllLegIndex, PosCourse_isValid.
  destruct (Pos_isValid (pos p)); cbn [negb].
  2: { intros [= <- <-]. reflexivity. }
  set (sl0 := (mkLineDistance INVALID INVALID_DISTANCE_VALUE junk1 junk2, INVALID_INDEX_VALUE)).
  destruct (forEach_nearestLeg r (pos p) _ sl0 (seq_1_range r)) as (sl' & Hrun & Hsel & _).
  destruct (forEach_nearest_simulation r p _ Hplain
              (INVALID_DISTANCE_VALUE, INVALID_DISTANCE_VALUE, INVALID_INDEX_VALUE) sl0
              (seq_1_range r) eq_refl eq_refl eq_refl)
    as (sa' & sl'' & -> & Hrun' & Hm & Hc & Hi).
  rewrite Hrun in Hrun'. injection Hrun' as <-.
  rewrite Hrun. cbn [mbind option_bind]. rewrite Hc, Hi.
  destruct Hsel as [->|[(_ & _ & _ & _ & _ & _ & _ & Hr) Hlt]].
  - simpl. intros [= <- <-]. reflexivity.
  - destruct (Z.eqb_spec (snd sl') INVALID_INDEX_VALUE) as [|_]; [lia|].
    cbn [negb]. intros [= <- <-].
    destruct (Z.eqb_spec (snd sl') INVALID_INDEX_VALUE) as [|_]; [lia|].
    cbn [orb].
    change (F32.ltb (F32.abs (distance (fst sl'))) INVALID_DISTANCE_VALUE = true) in Hlt.
    rewrite (F32_ltb_abs_l _ _ Hlt). cbn [andb].
    now destruct (F32.gtb (F32.abs (distance (fst sl'))) (nmToMeter (F32.of_Z 100))).
Qed.


Lemma seq_split_before (pre post : list nat) (i : nat) : forall a n,
  seq a n = pre ++ i :: post -> forall j, (a <= j < i)%nat -> In j pre.
Proof.
  induction pre as [|x pre IH]; intros a n Hseq j Hj.
  - destruct n; [discriminate|]. simpl in Hseq. injection Hseq as <- _. lia.
  - destruct n; [discriminate|]. simpl in Hseq. injection Hseq as <- Hrest.
    destruct (Nat.eq_dec j a) as [->|Hne]; [now left|].
    right. apply (IH (S a) n Hrest). lia.
Qed.

Lemma forEach_nearestLeg_first r (position : Pos) idx : forall st,
  Forall (fun i => 1 <= i < length (legs r))%nat idx ->
  exists st',
    forEach (nearestLegBody r position) idx st = Some st'
    /\ (st' = st
        \/ exists pre i post,
             idx = pre ++ i :: post /\ snd st' = Z.of_nat i
             /\ F32.ltb (F32.abs (distance (fst st'))) (F32.abs (distance (fst st))) = true
             /\ forall j l0 l1,
                  In j pre ->
                  Route_at r (Z.of_nat j - 1) = Some l0 -> Route_at r (Z.of_nat j) = Some l1 ->
                  isAnyProcedure l0 = false ->
                  LineDist_eqb (status (distanceMeterToLine position (getPosition l0)
                                                            (getPosition l1))) INVALID = false ->
                  F32.is_finite (distance (distanceMeterToLine position (getPosition l0)
                                                               (getPosition l1))) = true ->
                  F32.ltb (F32.abs (distance (fst st')))
                          (F32.abs (distance (distanceMeterToLine position (getPosition l0)
                                                                  (getPosition l1)))) = true).
Proof.
  induction idx as [|i idx IH]; intros st Hall.
  - exists st. split; [reflexivity|now left].
  - inversion Hall as [|? ? Hi Hrest]; subst.
    destruct (nearestLegBody_total r position st i Hi) as (l0 & l1 & E0 & E1 & Hbody).
    cbn zeta in Hbody.
    set (res := distanceMeterToLine position (getPosition l0) (getPosition l1)) in *.
    cbn [forEach]. rewrite Hbody. cbn [mbind option_bind]. clear Hbody.
    destruct (negb (isAnyProcedure l0) && negb (LineDist_eqb (status res) INVALID)
              && F32.ltb (F32.abs (distance res)) (F32.abs (distance (fst st)))) eqn:Hcond.
    + (* leg i is taken *)
      apply andb_prop in Hcond as [_ Hlt].
      destruct (IH (res, Z.of_nat i) Hrest) as (st' & Hrun & Hsel). exists st'.
      split; [exact Hrun|]. right.
      destruct Hsel as [->|(pre & k & post & -> & Hk & Hlt' & Hpre)].
      * exists [], i, idx. repeat split; trivial. intros j m0 m1 [].
      * exists (i :: pre), k, post. split; [reflexivity|]. split; [exact Hk|].
        simpl in Hlt'. split; [exact (F32_ltb_trans _ _ _ Hlt' Hlt)|].
        intros j m0 m1 [<-|Hj] F0 F1; [|exact (Hpre j m0 m1 Hj F0 F1)].
        rewrite E0 in F0. rewrite E1 in F1. injection F0 as <-. injection F1 as <-.
        intros _ _ _. exact Hlt'.
    + (* leg i is passed over *)
      destruct (IH st Hrest) as (st' & Hrun & Hsel). exists st'.
      split; [exact Hrun|].
      destruct Hsel as [->|(pre & k & post & -> & Hk & Hlt' & Hpre)]; [now left|right].
      exists (i :: pre), k, post. split; [reflexivity|]. split; [exact Hk|].
      split; [exact Hlt'|].
      intros j m0 m1 [<-|Hj] F0 F1; [|exact (Hpre j m0 m1 Hj F0 F1)].
      rewrite E0 in F0. rewrite E1 in F1. injection F0 as <-. injection F1 as <-.
      fold res. intros Hproc Hst Hfin. rewrite Hproc, Hst in Hcond. simpl in Hcond.
      apply (F32_ltb_below_not_below _ _ _ Hlt' Hcond).
      now rewrite F32_abs_is_finite.
Qed.

(** X13: Among segments that are equally near, [nearestLegResult] reports
    the first: every segment before the reported one that the query
    considers, with a finite distance, is farther away than the reported
    one. *)
Theorem nearestLegResult_first_of_the_nearest r (position : Pos) (ld : LineDistance)
        (junk1 junk2 : float) res idx :
  nearestLegResult r position ld junk1 junk2 = Some (res, idx) ->
  idx <> INVALID_INDEX_VALUE ->
  forall j l0 l1,
    j < idx ->
    Route_at r (j - 1) = Some l0 -> Route_at r j = Some l1 ->
    isAnyProcedure l0 = false ->
    let resj := distanceMeterToLine position (getPosition l0) (getPosition l1) in
    LineDist_eqb (status resj) INVALID = false ->
    F32.is_finite (distance resj) = true ->
    F32.ltb (F32.abs (distance res)) (F32.abs (distance resj)) = true.
Proof.
  unfold nearestLegResult.
  destruct (Pos_isValid position); cbn [negb]; [|intros [= _ <-] Hne; now destruct Hne].
  destruct (forEach_nearestLeg_first r position _
              (mkLineDistance INVALID INVALID_DISTANCE_VALUE junk1 junk2, INVALID_INDEX_VALUE)
              (seq_1_range r)) as (st' & -> & Hsel).
  cbn [mbind option_bind].
  destruct (Z.eqb_spec (snd st') INVALID_INDEX_VALUE) as [Hinv|Hfound]; cbn [negb];
    intros [= <- <-] Hne; [now destruct Hne|].
  intros j l0 l1 Hlt E0 E1 Hproc Hst Hfin.
  destruct Hsel as [->|(pre & k & post & Hseq & Hk & _ & Hpre)]; [now simpl in Hfound|].
  destruct (In_seq_1 r j l0 l1 E0 E1) as [_ Hj].
  apply (Hpre (Z.to_nat j) l0 l1); rewrite ?Hj; trivial.
  apply (seq_split_before pre post k _ _ Hseq).
  apply Route_at_Some in E0. lia.
Qed.


(** ** Procedures *)

Lemma filter_combine_length {X Y : Type} (f : X -> bool) (ls : list X) :
  forall es : list Y,
    length es = length ls ->
    length (map snd (List.filter (fun le => f (fst le)) (combine ls es)))
    = length (List.filter f ls).
Proof.
  induction ls as [|x ls IH]; intros [|e es] Hlen; simpl in *; try discriminate;
    [reflexivity|].
  destruct (f x); simpl; rewrite IH by lia; reflexivity.
Qed.

Lemma eraseIndexes_none r type :
  (forall l, In l (legs r) -> eraseMatches type l = false) -> eraseIndexes r type = [].
Proof.
  intros Hnone. unfold eraseIndexes.
  induction (rev (seq 0 (length (legs r)))) as [|i idx IH]; [reflexivity|].
  simpl. destruct (legs r !! i) as [l|] eqn:El; [|exact IH].
  rewrite (Hnone l); [exact IH|].
  eapply list_elem_of_In, list_elem_of_lookup_2, El.
Qed.

(** X14: [eraseProcedureLegs] for any set of procedure types, on a route
    whose entries mirror its legs: the legs of the given types go and the
    others stay in their order, each entry going or staying with its leg, so
    that the entries mirror the legs afterwards as well.  No leg of the
    given types is left, and erasing once more changes nothing. *)
Theorem eraseProcedureLegs_any_type r (type : Z) :
  length (entries (flightplan r)) = length (legs r) ->
  let r' := eraseProcedureLegs r type in
  legs r' = List.filter (fun l => negb (eraseMatches type l)) (legs r)
  /\ entries (flightplan r') = keptEntries (eraseMatches type) (legs r) (entries (flightplan r))
  /\ length (entries (flightplan r')) = length (legs r')
  /\ (forall l, In l (legs r') -> eraseMatches type l = false)
  /\ eraseProcedureLegs r' type = r'.
Proof.
  intros Hlen r'.
  destruct (eraseProcedureLegs_spec r type Hlen) as (Hlegs & Hentries & _ & _).
  fold r' in Hlegs, Hentries.
  assert (forall l, In l (legs r') -> eraseMatches type l = false) as Hnone.
  { intros l. rewrite Hlegs. intros [_ Hl]%filter_In. now apply negb_true_iff in Hl. }
  split; [exact Hlegs|]. split; [exact Hentries|]. split; [|split; [exact Hnone|]].
  - rewrite Hlegs, Hentries. unfold keptEntries.
    apply (filter_combine_length (fun l => negb (eraseMatches type l))). exact Hlen.
  - unfold eraseProcedureLegs at 1. now rewrite (eraseIndexes_none r' type Hnone).
Qed.

Lemma clearFlightplanProcedureProperties_same r type :
  sameProcedures r (clearFlightplanProcedureProperties r type).
Proof. repeat split. Qed.

Lemma eraseProcedureLegs_same r type : sameProcedures r (eraseProcedureLegs r type).
Proof. unfold eraseProcedureLegs. apply fold_eraseAt. Qed.

Lemma clear_pass r type :
  exists r',
    updateAll (eraseProcedureLegs (clearFlightplanProcedureProperties r type) type) = Some r'
    /\ sameProcedures r r'.
Proof.
  destruct (updateAll_spec (eraseProcedureLegs (clearFlightplanProcedureProperties r type) type))
    as (r' & Hr' & _ & _ & Hsame).
  exists r'. split; [exact Hr'|].
  eapply sameProcedures_trans; [|exact Hsame].
  eapply sameProcedures_trans; [apply clearFlightplanProcedureProperties_same|].
  apply eraseProcedureLegs_same.
Qed.

Lemma MapProcedureLegs_isEmpty_default (legSet : MapProcedureLegs) :
  MapProcedureLegs_isEmpty legSet = true -> legSet = MapProcedureLegs_default.
Proof. destruct legSet as [[|] [|]]; simpl; intros H; try discriminate; reflexivity. Qed.

(** X15: [clearAllProcedures] always ends and leaves a route without any
    procedure: the three leg sets are empty afterwards.  It does not write
    the three offsets, which keep the values they had. *)
Theorem clearAllProcedures_clears_the_leg_sets r :
  exists r',
    clearAllProcedures r = Some r'
    /\ arrivalLegs r' = MapProcedureLegs_default
    /\ starLegs r' = MapProcedureLegs_default
    /\ departureLegs r' = MapProcedureLegs_default
    /\ hasArrivalProcedure r' = false /\ hasTransitionProcedure r' = false
    /\ hasStarProcedure r' = false /\ hasDepartureProcedure r' = false
    /\ departureLegsOffset r' = departureLegsOffset r
    /\ starLegsOffset r' = starLegsOffset r
    /\ arrivalLegsOffset r' = arrivalLegsOffset r.
Proof.
  unfold clearAllProcedures.
  (* the approach with its transition *)
  assert (exists r1, clearApproachAndTransProcedure r = Some r1
                     /\ approachLegs (arrivalLegs r1) = []
                     /\ starLegs r1 = starLegs r /\ departureLegs r1 = departureLegs r
                     /\ departureLegsOffset r1 = departureLegsOffset r
                     /\ starLegsOffset r1 = starLegsOffset r
                     /\ arrivalLegsOffset r1 = arrivalLegsOffset r)
    as (r1 & -> & Ha1 & Hs1 & Hd1 & Ho1 & Hp1 & Hq1).
  { unfold clearApproachAndTransProcedure, hasArrivalProcedure.
    destruct (approachLegs (arrivalLegs r)) eqn:Ea; [exists r; now repeat split|].
    destruct (clear_pass (setProcedures r MapProcedureLegs_default (starLegs r)
                                        (departureLegs r)) PROCEDURE_ARRIVAL)
      as (r1 & -> & Ha & Hs & Hd & Ho & Hp & Hq).
    exists r1. simpl in *. rewrite Ha. now repeat split. }
  cbn [mbind option_bind].
  assert (exists r2, clearTransitionProcedure r1 = Some r2
                     /\ arrivalLegs r2 = MapProcedureLegs_default
                     /\ starLegs r2 = starLegs r1 /\ departureLegs r2 = departureLegs r1
                     /\ departureLegsOffset r2 = departureLegsOffset r1
                     /\ starLegsOffset r2 = starLegsOffset r1
                     /\ arrivalLegsOffset r2 = arrivalLegsOffset r1)
    as (r2 & -> & Ha2 & Hs2 & Hd2 & Ho2 & Hp2 & Hq2).
  { unfold clearTransitionProcedure, hasTransitionProcedure.
    destruct (transitionLegs (arrivalLegs r1)) eqn:Et.
    - exists r1. split; [reflexivity|]. split; [|now repeat split].
      destruct (arrivalLegs r1); simpl in *; now subst.
    - destruct (clear_pass (setProcedures r1 (clearTransition (arrivalLegs r1)) (starLegs r1)
                                          (departureLegs r1)) PROCEDURE_TRANSITION)
        as (r2 & -> & Ha & Hs & Hd & Ho & Hp & Hq).
      exists r2. simpl in *. rewrite Ha. unfold clearTransition. rewrite Ha1.
      now repeat split. }
  cbn [mbind option_bind].
  assert (exists r3, clearStarProcedure r2 = Some r3
                     /\ arrivalLegs r3 = arrivalLegs r2
                     /\ starLegs r3 = MapProcedureLegs_default
                     /\ departureLegs r3 = departureLegs r2
                     /\ departureLegsOffset r3 = departureLegsOffset r2
                     /\ starLegsOffset r3 = starLegsOffset r2
                     /\ arrivalLegsOffset r3 = arrivalLegsOffset r2)
    as (r3 & -> & Ha3 & Hs3 & Hd3 & Ho3 & Hp3 & Hq3).
  { unfold clearStarProcedure, hasStarProcedure.
    destruct (MapProcedureLegs_isEmpty (starLegs r2)) eqn:Es; cbn [negb].
    - exists r2. split; [reflexivity|]. split; [reflexivity|].
      split; [now apply MapProcedureLegs_isEmpty_default|now repeat split].
    - destruct (clear_pass (setProcedures r2 (arrivalLegs r2) MapProcedureLegs_default
                                          (departureLegs r2)) PROCEDURE_STAR)
        as (r3 & -> & Ha & Hs & Hd & Ho & Hp & Hq).
      exists r3. simpl in *. now repeat split. }
  cbn [mbind option_bind].
  assert (exists r4, clearDepartureProcedure r3 = Some r4
                     /\ arrivalLegs r4 = arrivalLegs r3
                     /\ starLegs r4 = starLegs r3
                     /\ departureLegs r4 = MapProcedureLegs_default
                     /\ departureLegsOffset r4 = departureLegsOffset r3
                     /\ starLegsOffset r4 = starLegsOffset r3
                     /\ arrivalLegsOffset r4 = arrivalLegsOffset r3)
    as (r4 & -> & Ha4 & Hs4 & Hd4 & Ho4 & Hp4 & Hq4).
  { unfold clearDepartureProcedure, hasDepartureProcedure.
    destruct (MapProcedureLegs_isEmpty (departureLegs r3)) eqn:Ed; cbn [negb].
    - exists r3. split; [reflexivity|]. split; [reflexivity|]. split; [reflexivity|].
      split; [now apply MapProcedureLegs_isEmpty_default|now repeat split].
    - destruct (clear_pass (setProcedures r3 (arrivalLegs r3) (starLegs r3)
                                          MapProcedureLegs_default) PROCEDURE_DEPARTURE)
        as (r4 & -> & Ha & Hs & Hd & Ho & Hp & Hq).
      exists r4. simpl in *. now repeat split. }
  exists r4. split; [reflexivity|].
  assert (arrivalLegs r4 = MapProcedureLegs_default) as Ha by congruence.
  assert (starLegs r4 = MapProcedureLegs_default) as Hs by congruence.
  unfold hasArrivalProcedure, hasTransitionProcedure, hasStarProcedure, hasDepartureProcedure.
  rewrite Ha, Hs, Hd4. simpl. repeat split; congruence.
Qed.


Lemma Route_eta r : setEntries (setLegs r (legs r)) (entries (flightplan r)) = r.
Proof. destruct r as [ls [es ps] ? ? ? ? ? ? ? ? ? ? ? ? ?]. reflexivity. Qed.

Lemma MapProcedureLegs_at_nat (legSet : MapProcedureLegs) (i : nat) :
  MapProcedureLegs_at legSet (Z.of_nat i) = MapProcedureLegs_all legSet !! i.
Proof.
  unfold MapProcedureLegs_at. destruct (Z.leb_spec 0 (Z.of_nat i)); [|lia].
  now rewrite Nat2Z.id.
Qed.

Lemma QList_insert_middle {X : Type} (pre post : list X) (x : X) (i : Z) :
  i = Z.of_nat (length pre) -> QList_insert i x (pre ++ post) = pre ++ x :: post.
Proof.
  intros ->. unfold QList_insert. rewrite Nat2Z.id.
  now rewrite take_app_length, drop_app_length.
Qed.

Lemma insertDepartureLeg_step k r1 pre prevk rest epre erest procLeg :
  legs r1 = pre ++ prevk :: rest -> length pre = k ->
  entries (flightplan r1) = epre ++ erest -> length epre = S k ->
  MapProcedureLegs_all (departureLegs r1) !! k = Some procLeg ->
  insertDepartureLeg r1 k
  = Some (setEntries
            (setLegs r1 ((pre ++ [prevk])
                         ++ createFromApproachLeg (Z.of_nat k) (departureLegs r1) (Some prevk)
                         :: rest))
            ((epre ++ [buildFlightplanEntry procLeg]) ++ erest)).
Proof.
  intros Hlegs Hk Hentries Hek Ep. unfold insertDepartureLeg.
  rewrite Route_at_nat, Hlegs, (list_lookup_middle _ _ _ _ (eq_sym Hk)).
  cbn [mbind option_bind].
  change (departureLegs (setLegs r1 ?x)) with (departureLegs r1).
  replace (1 + Z.of_nat k - 1) with (Z.of_nat k) by lia.
  rewrite MapProcedureLegs_at_nat, Ep. cbn [mbind option_bind].
  change (flightplan (setLegs r1 ?x)) with (flightplan r1). rewrite Hentries.
  replace (pre ++ prevk :: rest) with ((pre ++ [prevk]) ++ rest)
    by (now rewrite <- app_assoc).
  rewrite !QList_insert_middle by (rewrite ?length_app; simpl; lia).
  rewrite <- !app_assoc. reflexivity.
Qed.

Lemma insertDepartureLeg_loop : forall n k r1 pre prevk rest epre erest,
  legs r1 = pre ++ prevk :: rest -> length pre = k ->
  entries (flightplan r1) = epre ++ erest -> length epre = S k ->
  (k + n <= MapProcedureLegs_size (departureLegs r1))%nat ->
  forEach insertDepartureLeg (seq k n) r1
  = Some (setEntries
            (setLegs r1 (pre ++ prevk :: builtLegs (departureLegs r1) (Some prevk) (seq k n)
                             ++ rest))
            (epre ++ map buildFlightplanEntry
                         (take n (drop k (MapProcedureLegs_all (departureLegs r1))))
                  ++ erest)).
Proof.
  induction n as [|n IH]; intros k r1 pre prevk rest epre erest Hlegs Hk Hentries Hek Hsize.
  - simpl. rewrite <- Hlegs, <- Hentries. now rewrite Route_eta.
  - simpl seq. cbn [forEach].
    destruct (MapProcedureLegs_all (departureLegs r1) !! k) as [procLeg|] eqn:Ep.
    2: { apply lookup_ge_None in Ep. unfold MapProcedureLegs_size in Hsize. lia. }
    rewrite (insertDepartureLeg_step k r1 pre prevk rest epre erest procLeg
               Hlegs Hk Hentries Hek Ep).
    cbn [mbind option_bind].
    set (obj := createFromApproachLeg (Z.of_nat k) (departureLegs r1) (Some prevk)).
    rewrite (IH (S k) _ (pre ++ [prevk]) obj rest (epre ++ [buildFlightplanEntry procLeg]) erest).
    + cbn [builtLegs]. fold obj. rewrite (drop_S _ _ _ Ep). simpl.
      unfold setEntries, setLegs, setFlightplan. simpl.
      rewrite <- !app_assoc. reflexivity.
    + reflexivity.
    + rewrite length_app. simpl. lia.
    + reflexivity.
    + rewrite length_app. simpl. lia.
    + simpl. lia.
Qed.

Lemma last_before_last (pre : list RouteLeg) (z : RouteLeg) r :
  legs r = pre ++ [z] ->
  (if 2 <=? Route_size r then Some <$> Route_at r (Route_size r - 2) else Some None)
  = Some (last pre).
Proof.
  intros Hlegs. unfold Route_size. rewrite Hlegs, length_app. simpl.
  destruct pre as [|x pre] using rev_ind.
  - reflexivity.
  - clear IHpre. rewrite length_app. simpl.
    destruct (Z.leb_spec 2 (Z.of_nat (length pre + 1 + 1))) as [_|]; [|lia].
    replace (Z.of_nat (length pre + 1 + 1) - 2) with (Z.of_nat (length pre)) by lia.
    rewrite Route_at_nat, Hlegs, <- app_assoc.
    change ([x] ++ [z]) with (x :: [z]).
    rewrite (list_lookup_middle pre _ x (length pre) eq_refl).
    now rewrite last_snoc.
Qed.

Lemma insertBeforeLast_step k r1 (legSet : MapProcedureLegs) pre z epre ez procLeg :
  legs r1 = pre ++ [z] ->
  entries (flightplan r1) = epre ++ [ez] ->
  MapProcedureLegs_all legSet !! k = Some procLeg ->
  insertBeforeLast r1 legSet k
  = Some (setEntries
            (setLegs r1 ((pre ++ [createFromApproachLeg (Z.of_nat k) legSet (last pre)])
                         ++ [z]))
            ((epre ++ [buildFlightplanEntry procLeg]) ++ [ez])).
Proof.
  intros Hlegs Hentries Ep. unfold insertBeforeLast.
  rewrite (last_before_last pre z r1 Hlegs). cbn [mbind option_bind].
  rewrite MapProcedureLegs_at_nat, Ep. cbn [mbind option_bind].
  change (flightplan (setLegs r1 ?x)) with (flightplan r1). rewrite Hentries.
  unfold Route_size. rewrite Hlegs.
  rewrite !QList_insert_middle by (rewrite ?length_app; simpl; lia).
  rewrite <- !app_assoc. reflexivity.
Qed.

Lemma insertBeforeLast_loop (sel : Route -> MapProcedureLegs) :
  (forall r ls es, sel (setEntries (setLegs r ls) es) = sel r) ->
  forall n k r1 pre z epre ez,
    legs r1 = pre ++ [z] ->
    entries (flightplan r1) = epre ++ [ez] ->
    (k + n <= MapProcedureLegs_size (sel r1))%nat ->
    forEach (fun r i => insertBeforeLast r (sel r) i) (seq k n) r1
    = Some (setEntries
              (setLegs r1 (pre ++ builtLegs (sel r1) (last pre) (seq k n) ++ [z]))
              (epre ++ map buildFlightplanEntry
                           (take n (drop k (MapProcedureLegs_all (sel r1))))
                    ++ [ez])).
Proof.
  intros Hsel.
  induction n as [|n IH]; intros k r1 pre z epre ez Hlegs Hentries Hsize.
  - simpl. rewrite <- Hlegs, <- Hentries. now rewrite Route_eta.
  - simpl seq. cbn [forEach].
    destruct (MapProcedureLegs_all (sel r1) !! k) as [procLeg|] eqn:Ep.
    2: { apply lookup_ge_None in Ep. unfold MapProcedureLegs_size in Hsize. lia. }
    rewrite (insertBeforeLast_step k r1 (sel r1) pre z epre ez procLeg Hlegs Hentries Ep).
    cbn [mbind option_bind].
    set (obj := createFromApproachLeg (Z.of_nat k) (sel r1) (last pre)).
    match goal with
    | |- forEach _ _ ?r2 = _ =>
        assert (sel r2 = sel r1) as Hr2 by apply Hsel;
        rewrite (IH (S k) r2 (pre ++ [obj]) z (epre ++ [buildFlightplanEntry procLeg]) ez);
        [rewrite Hr2| | |rewrite Hr2]
    end.
    + cbn [builtLegs]. fold obj. rewrite (drop_S _ _ _ Ep), last_snoc. simpl.
      unfold setEntries, setLegs, setFlightplan. simpl.
      rewrite <- !app_assoc. reflexivity.
    + reflexivity.
    + reflexivity.
    + lia.
Qed.

Lemma if_setOffsets (c : bool) r (d s q : Z) :
  (if c then setOffsets r d s q else r)
  = setOffsets r (if c then d else departureLegsOffset r)
                 (if c then s else starLegsOffset r)
                 (if c then q else arrivalLegsOffset r).
Proof. destruct c; [reflexivity|]. now destruct r. Qed.

Lemma take_size_all (legSet : MapProcedureLegs) :
  take (MapProcedureLegs_size legSet) (drop 0 (MapProcedureLegs_all legSet))
  = MapProcedureLegs_all legSet.
Proof. rewrite drop_0. now apply take_ge. Qed.

Lemma length_builtLegs (legSet : MapProcedureLegs) : forall idx prev,
  length (builtLegs legSet prev idx) = length idx.
Proof. induction idx as [|i idx IH]; intros prev; simpl; [|rewrite IH]; reflexivity. Qed.

Lemma eraseProcedureLegs_frame r (type : Z) :
  let r' := eraseProcedureLegs r type in
  totalDistance r' = totalDistance r /\ boundingRect r' = boundingRect r
  /\ trueCourse r' = trueCourse r /\ shownTypes r' = shownTypes r
  /\ activeLeg r' = activeLeg r /\ activeLegResult r' = activeLegResult r
  /\ activePos r' = activePos r.
Proof.
  unfold eraseProcedureLegs. generalize (eraseIndexes r type). intros idx. revert r.
  induction idx as [|i idx IH]; intros r; [now repeat split|].
  simpl. destruct (IH (eraseAt r i)) as (H1 & H2 & H3 & H4 & H5 & H6 & H7).
  repeat split; [rewrite H1|rewrite H2|rewrite H3|rewrite H4|rewrite H5|rewrite H6|rewrite H7];
    reflexivity.
Qed.

Lemma updateProcedureLegs_spliced r (a z : RouteLeg) (mid : list RouteLeg)
        (ea ez : FlightplanEntry) (emid : list FlightplanEntry) :
  legs (eraseProcedureLegs r PROCEDURE_ALL) = a :: mid ++ [z] ->
  entries (flightplan (eraseProcedureLegs r PROCEDURE_ALL)) = ea :: emid ++ [ez] ->
  let dep := departureLegs r in
  let star := starLegs r in
  let arr := arrivalLegs r in
  let sids := builtLegs dep (Some a) (seq 0 (MapProcedureLegs_size dep)) in
  let stars := builtLegs star (last (a :: sids ++ mid)) (seq 0 (MapProcedureLegs_size star)) in
  let arrivals :=
    builtLegs arr (last (a :: sids ++ mid ++ stars)) (seq 0 (MapProcedureLegs_size arr)) in
  exists r',
    updateProcedureLegs r = Some r'
    /\ legs r' = a :: sids ++ mid ++ stars ++ arrivals ++ [z]
    /\ entries (flightplan r')
       = ea :: builtEntries dep ++ emid ++ builtEntries star ++ builtEntries arr ++ [ez]
    /\ departureLegsOffset r'
       = (if MapProcedureLegs_isEmpty dep then INVALID_INDEX_VALUE else 1)
    /\ starLegsOffset r'
       = (if MapProcedureLegs_isEmpty star then INVALID_INDEX_VALUE
          else Z.of_nat (1 + length sids + length mid))
    /\ arrivalLegsOffset r'
       = (if MapProcedureLegs_isEmpty arr then INVALID_INDEX_VALUE
          else Z.of_nat (1 + length sids + length mid + length stars))
    /\ properties (flightplan r')
       = extractLegsForFlightplanProperties
           (clearProcedureProperties (properties (flightplan r)) PROCEDURE_ALL) arr star dep
    /\ departureLegs r' = dep /\ starLegs r' = star /\ arrivalLegs r' = arr
    /\ totalDistance r' = totalDistance r /\ boundingRect r' = boundingRect r
    /\ trueCourse r' = trueCourse r /\ shownTypes r' = shownTypes r
    /\ activeLeg r' = activeLeg r /\ activeLegResult r' = activeLegResult r
    /\ activePos r' = activePos r.
Proof.
  intros Hlegs Hentries dep star arr sids stars arrivals.
  unfold updateProcedureLegs.
  destruct (eraseProcedureLegs_same r PROCEDURE_ALL) as (Harr & Hstar & Hdep & _).
  assert (properties (flightplan (eraseProcedureLegs r PROCEDURE_ALL))
          = properties (flightplan r)) as Hprops
    by (unfold eraseProcedureLegs; apply fold_eraseAt).
  destruct (eraseProcedureLegs_frame r PROCEDURE_ALL)
    as (Htotal & Hrect & Hcourse & Hshown & Hactive & Hresult & Hpos).
  set (r0 := eraseProcedureLegs r PROCEDURE_ALL) in *.
  (* the departure *)
  rewrite if_setOffsets.
  match goal with |- context [forEach insertDepartureLeg _ ?R] => set (r1 := R) end.
  rewrite (insertDepartureLeg_loop (MapProcedureLegs_size (departureLegs r1)) 0 r1
             [] a (mid ++ [z]) [ea] (emid ++ [ez]) Hlegs eq_refl Hentries eq_refl (le_n _)).
  cbn [mbind option_bind].
  change (departureLegs r1) with (departureLegs r0). rewrite Hdep. fold dep. fold sids.
  rewrite take_size_all. fold (builtEntries dep).
  (* the STAR *)
  rewrite if_setOffsets.
  match goal with
  | |- context [forEach (fun r i => insertBeforeLast r (starLegs r) i) _ ?R] => set (r2 := R)
  end.
  assert (legs r2 = (a :: sids ++ mid) ++ [z]) as Hlegs2
    by (simpl; now rewrite <- app_assoc).
  assert (entries (flightplan r2) = (ea :: builtEntries dep ++ emid) ++ [ez]) as Hentries2
    by (simpl; now rewrite <- app_assoc).
  rewrite (insertBeforeLast_loop starLegs (fun _ _ _ => eq_refl)
             (MapProcedureLegs_size (starLegs r2)) 0 r2 _ z _ ez Hlegs2 Hentries2 (le_n _)).
  cbn [mbind option_bind].
  change (starLegs r2) with (starLegs r0). rewrite Hstar. fold star. fold stars.
  rewrite take_size_all. fold (builtEntries star).
  (* the arrival *)
  rewrite if_setOffsets.
  match goal with
  | |- context [forEach (fun r i => insertBeforeLast r (arrivalLegs r) i) _ ?R] => set (r3 := R)
  end.
  assert (legs r3 = (a :: sids ++ mid ++ stars) ++ [z]) as Hlegs3
    by (simpl; now rewrite <- !app_assoc).
  assert (entries (flightplan r3)
          = (ea :: builtEntries dep ++ emid ++ builtEntries star) ++ [ez]) as Hentries3
    by (simpl; now rewrite <- !app_assoc).
  rewrite (insertBeforeLast_loop arrivalLegs (fun _ _ _ => eq_refl)
             (MapProcedureLegs_size (arrivalLegs r3)) 0 r3 _ z _ ez Hlegs3 Hentries3 (le_n _)).
  cbn [mbind option_bind].
  change (arrivalLegs r3) with (arrivalLegs r0). rewrite Harr. fold arr. fold arrivals.
  rewrite take_size_all. fold (builtEntries arr).
  eexists. split; [reflexivity|].
  cbn [legs entries flightplan properties departureLegs starLegs arrivalLegs
       departureLegsOffset starLegsOffset arrivalLegsOffset totalDistance boundingRect
       trueCourse shownTypes activeLeg activeLegResult activePos
       setFlightplan clearFlightplanProcedureProperties setEntries setLegs setOffsets].
  split; [simpl; now rewrite <- !app_assoc|].
  split; [simpl; now rewrite <- !app_assoc|].
  assert (Route_size (setEntries (setLegs r1 ([] ++ a :: sids ++ mid ++ [z]))
                                 ([ea] ++ builtEntries dep ++ emid ++ [ez]))
          - 1 = Z.of_nat (1 + length sids + length mid)) as Hsize1.
  { unfold Route_size. cbn [legs setEntries setFlightplan setLegs].
    simpl. rewrite !length_app. simpl. lia. }
  assert (Route_size (setEntries (setLegs r2 ((a :: sids ++ mid) ++ stars ++ [z]))
                                 ((ea :: builtEntries dep ++ emid) ++ builtEntries star ++ [ez]))
          - 1 = Z.of_nat (1 + length sids + length mid + length stars)) as Hsize2.
  { unfold Route_size. cbn [legs setEntries setFlightplan setLegs].
    simpl. rewrite !length_app. simpl. lia. }
  subst r3. cbn [departureLegsOffset starLegsOffset arrivalLegsOffset setOffsets
                 setEntries setLegs setFlightplan flightplan properties
                 departureLegs starLegs arrivalLegs totalDistance boundingRect
                 trueCourse shownTypes activeLeg activeLegResult activePos].
  rewrite Hsize2.
  subst r2. cbn [departureLegsOffset starLegsOffset arrivalLegsOffset setOffsets
                 setEntries setLegs setFlightplan flightplan properties
                 departureLegs starLegs arrivalLegs totalDistance boundingRect
                 trueCourse shownTypes activeLeg activeLegResult activePos].
  rewrite Hsize1.
  subst r1. cbn [departureLegsOffset starLegsOffset arrivalLegsOffset setOffsets
                 setEntries setLegs setFlightplan flightplan properties
                 departureLegs starLegs arrivalLegs totalDistance boundingRect
                 trueCourse shownTypes activeLeg activeLegResult activePos].
  rewrite Hdep, Hstar, Harr, Hprops. fold dep star arr.
  repeat split; trivial;
    destruct (MapProcedureLegs_isEmpty dep), (MapProcedureLegs_isEmpty star),
             (MapProcedureLegs_isEmpty arr); reflexivity.
Qed.

(** X16: [updateProcedureLegs] on a route that keeps two legs or more
    when its procedure legs are erased: it always ends.  The legs of the
    departure come right after the first leg, those of the STAR and then
    those of the arrival right before the last leg, each built from the leg
    before it; the entries are built and placed alike.  An offset is the
    index of the first leg of its block, or the invalid index for an empty
    leg set.  The total distance, the bounding rectangle, the course mode
    and the active leg are not touched. *)
Theorem updateProcedureLegs_rebuilds r (a z : RouteLeg) (mid : list RouteLeg)
        (ea ez : FlightplanEntry) (emid : list FlightplanEntry) :
  legs (eraseProcedureLegs r PROCEDURE_ALL) = a :: mid ++ [z] ->
  entries (flightplan (eraseProcedureLegs r PROCEDURE_ALL)) = ea :: emid ++ [ez] ->
  let dep := departureLegs r in
  let star := starLegs r in
  let arr := arrivalLegs r in
  let sids := builtLegs dep (Some a) (seq 0 (MapProcedureLegs_size dep)) in
  let stars := builtLegs star (last (a :: sids ++ mid)) (seq 0 (MapProcedureLegs_size star)) in
  let arrivals :=
    builtLegs arr (last (a :: sids ++ mid ++ stars)) (seq 0 (MapProcedureLegs_size arr)) in
  exists r',
    updateProcedureLegs r = Some r'
    /\ legs r' = a :: sids ++ mid ++ stars ++ arrivals ++ [z]
    /\ entries (flightplan r')
       = ea :: builtEntries dep ++ emid ++ builtEntries star ++ builtEntries arr ++ [ez]
    /\ departureLegsOffset r'
       = (if MapProcedureLegs_isEmpty dep then INVALID_INDEX_VALUE else 1)
    /\ starLegsOffset r'
       = (if MapProcedureLegs_isEmpty star then INVALID_INDEX_VALUE
          else Z.of_nat (1 + length sids + length mid))
    /\ arrivalLegsOffset r'
       = (if MapProcedureLegs_isEmpty arr then INVALID_INDEX_VALUE
          else Z.of_nat (1 + length sids + length mid + length stars))
    /\ properties (flightplan r')
       = extractLegsForFlightplanProperties
           (clearProcedureProperties (properties (flightplan r)) PROCEDURE_ALL) arr star dep
    /\ departureLegs r' = dep /\ starLegs r' = star /\ arrivalLegs r' = arr
    /\ totalDistance r' = totalDistance r /\ boundingRect r' = boundingRect r
    /\ trueCourse r' = trueCourse r /\ shownTypes r' = shownTypes r
    /\ activeLeg r' = activeLeg r /\ activeLegResult r' = activeLegResult r
    /\ activePos r' = activePos r.
Proof. exact (updateProcedureLegs_spliced r a z mid ea ez emid). Qed.

Lemma filter_none {X : Type} (g : X -> bool) (xs : list X) :
  (forall x, In x xs -> g x = false) -> List.filter g xs = [].
Proof.
  induction xs as [|x xs IH]; intros Hall; [reflexivity|].
  simpl. rewrite (Hall x) by now left. apply IH. intros y Hy. apply Hall. now right.
Qed.

Lemma filter_all {X : Type} (g : X -> bool) (xs : list X) :
  (forall x, In x xs -> g x = true) -> List.filter g xs = xs.
Proof.
  induction xs as [|x xs IH]; intros Hall; [reflexivity|].
  simpl. rewrite (Hall x) by now left. f_equal. apply IH. intros y Hy. apply Hall. now right.
Qed.

Lemma keptEntries_app (erased : RouteLeg -> bool) (l1 l2 : list RouteLeg) :
  forall e1 e2 : list FlightplanEntry,
    length e1 = length l1 ->
    keptEntries erased (l1 ++ l2) (e1 ++ e2)
    = keptEntries erased l1 e1 ++ keptEntries erased l2 e2.
Proof.
  unfold keptEntries.
  induction l1 as [|x l1 IH]; intros [|e e1] e2 Hlen; simpl in *; try discriminate;
    [reflexivity|].
  destruct (erased x); simpl; rewrite IH by lia; reflexivity.
Qed.

Lemma keptEntries_none (erased : RouteLeg -> bool) (ls : list RouteLeg) :
  forall es : list FlightplanEntry,
    (forall l, In l ls -> erased l = true) -> keptEntries erased ls es = [].
Proof.
  unfold keptEntries.
  induction ls as [|x ls IH]; intros [|e es] Hall; simpl; try reflexivity.
  rewrite (Hall x) by now left. simpl. apply IH. intros y Hy. apply Hall. now right.
Qed.

Lemma keptEntries_all (erased : RouteLeg -> bool) (ls : list RouteLeg) :
  forall es : list FlightplanEntry,
    length es = length ls ->
    (forall l, In l ls -> erased l = false) -> keptEntries erased ls es = es.
Proof.
  unfold keptEntries.
  induction ls as [|x ls IH]; intros [|e es] Hlen Hall; simpl in *; try discriminate;
    [reflexivity|].
  rewrite (Hall x) by now left. simpl. f_equal. apply IH; [lia|].
  intros y Hy. apply Hall. now right.
Qed.

Lemma builtLegs_built (legSet : MapProcedureLegs) (idx : list nat) :
  forall prev l,
    In l (builtLegs legSet prev idx) ->
    exists i prev', l = createFromApproachLeg i legSet prev'.
Proof.
  induction idx as [|i idx IH]; intros prev l; simpl; [intros []|].
  intros [<-|Hin]; [eauto|]. exact (IH _ _ Hin).
Qed.

Lemma length_builtEntries (legSet : MapProcedureLegs) :
  length (builtEntries legSet) = MapProcedureLegs_size legSet.
Proof. unfold builtEntries, MapProcedureLegs_size. apply length_map. Qed.

Lemma split_first_last {X : Type} (xs : list X) :
  (2 <= length xs)%nat -> exists a mid z, xs = a :: mid ++ [z].
Proof.
  destruct xs as [|a rest]; simpl; [lia|]. intros Hlen.
  destruct rest as [|y rest'] using rev_ind; [simpl in Hlen; lia|].
  exists a, rest', y. reflexivity.
Qed.

(** X24: Erasing after splicing gives back what erasing alone gives.  On
    a route whose entries mirror its legs and that keeps two legs or more
    without its procedure legs, and with a builder whose legs are procedure
    legs, the legs and the entries that [updateProcedureLegs] inserts are
    exactly those that [eraseProcedureLegs] removes again: a second
    [updateProcedureLegs] starts from the same legs and entries as the
    first. *)
Theorem updateProcedureLegs_then_erase r :
  length (entries (flightplan r)) = length (legs r) ->
  (2 <= length (legs (eraseProcedureLegs r PROCEDURE_ALL)))%nat ->
  (forall i legSet prev,
      eraseMatches PROCEDURE_ALL (createFromApproachLeg i legSet prev) = true) ->
  exists r',
    updateProcedureLegs r = Some r'
    /\ length (entries (flightplan r')) = length (legs r')
    /\ legs (eraseProcedureLegs r' PROCEDURE_ALL) = legs (eraseProcedureLegs r PROCEDURE_ALL)
    /\ entries (flightplan (eraseProcedureLegs r' PROCEDURE_ALL))
       = entries (flightplan (eraseProcedureLegs r PROCEDURE_ALL)).
Proof.
  intros Hlen Htwo Hbuilt.
  destruct (eraseProcedureLegs_spec r PROCEDURE_ALL Hlen) as (Hlegs0 & Hentries0 & _ & _).
  assert (length (entries (flightplan (eraseProcedureLegs r PROCEDURE_ALL)))
          = length (legs (eraseProcedureLegs r PROCEDURE_ALL))) as Hlen0.
  { rewrite Hlegs0, Hentries0. unfold keptEntries.
    apply (filter_combine_length (fun l => negb (eraseMatches PROCEDURE_ALL l))). exact Hlen. }
  assert (forall l, In l (legs (eraseProcedureLegs r PROCEDURE_ALL)) ->
                    eraseMatches PROCEDURE_ALL l = false) as Hkept.
  { intros l. rewrite Hlegs0. intros [_ Hl]%filter_In. now apply negb_true_iff in Hl. }
  destruct (split_first_last _ Htwo) as (a & mid & z & Els).
  destruct (split_first_last (entries (flightplan (eraseProcedureLegs r PROCEDURE_ALL))))
    as (ea & emid & ez & Ees); [lia|].
  assert (length emid = length mid) as Hmid.
  { rewrite Els, Ees in Hlen0. simpl in Hlen0. rewrite !length_app in Hlen0.
    simpl in Hlen0. lia. }
  pose proof (updateProcedureLegs_spliced r a z mid ea ez emid Els Ees) as Hsp.
  cbv zeta in Hsp. destruct Hsp as (r' & Hr' & Hlegs & Hentries & _).
  set (sids := builtLegs (departureLegs r) (Some a)
                         (seq 0 (MapProcedureLegs_size (departureLegs r)))) in *.
  set (stars := builtLegs (starLegs r) (last (a :: sids ++ mid))
                          (seq 0 (MapProcedureLegs_size (starLegs r)))) in *.
  set (arrivals := builtLegs (arrivalLegs r) (last (a :: sids ++ mid ++ stars))
                             (seq 0 (MapProcedureLegs_size (arrivalLegs r)))) in *.
  assert (length sids = MapProcedureLegs_size (departureLegs r)) as Hls
    by (unfold sids; now rewrite length_builtLegs, length_seq).
  assert (length stars = MapProcedureLegs_size (starLegs r)) as Hlt
    by (unfold stars; now rewrite length_builtLegs, length_seq).
  assert (length arrivals = MapProcedureLegs_size (arrivalLegs r)) as Hla
    by (unfold arrivals; now rewrite length_builtLegs, length_seq).
  assert (length (entries (flightplan r')) = length (legs r')) as Hlen'.
  { rewrite Hlegs, Hentries. simpl. rewrite !length_app, !length_builtEntries. simpl. lia. }
  exists r'. split; [exact Hr'|]. split; [exact Hlen'|].
  destruct (eraseProcedureLegs_spec r' PROCEDURE_ALL Hlen') as (Hlegs1 & Hentries1 & _ & _).
  rewrite Hlegs1, Hentries1, Els, Ees, Hlegs, Hentries.
  assert (forall l, In l sids -> eraseMatches PROCEDURE_ALL l = true) as Hs
    by (intros l (i & prev & ->)%builtLegs_built; apply Hbuilt).
  assert (forall l, In l stars -> eraseMatches PROCEDURE_ALL l = true) as Ht
    by (intros l (i & prev & ->)%builtLegs_built; apply Hbuilt).
  assert (forall l, In l arrivals -> eraseMatches PROCEDURE_ALL l = true) as Ha
    by (intros l (i & prev & ->)%builtLegs_built; apply Hbuilt).
  assert (eraseMatches PROCEDURE_ALL a = false) as Ka
    by (apply Hkept; rewrite Els; now left).
  assert (forall l, In l mid -> eraseMatches PROCEDURE_ALL l = false) as Km.
  { intros l Hl. apply Hkept. rewrite Els. right. apply in_or_app. now left. }
  assert (eraseMatches PROCEDURE_ALL z = false) as Kz.
  { apply Hkept. rewrite Els. right. apply in_or_app. right. now left. }
  split.
  - simpl. rewrite Ka. simpl. f_equal.
    rewrite !List.filter_app.
    rewrite (filter_none _ sids), (filter_none _ stars), (filter_none _ arrivals)
      by (intros l Hl; rewrite ?Hs, ?Ht, ?Ha by exact Hl; reflexivity).
    rewrite (filter_all _ mid) by (intros l Hl; now rewrite Km).
    simpl. now rewrite Kz.
  - change (a :: sids ++ mid ++ stars ++ arrivals ++ [z])
      with ([a] ++ sids ++ mid ++ stars ++ arrivals ++ [z]).
    change (ea :: builtEntries (departureLegs r) ++ emid ++ builtEntries (starLegs r)
               ++ builtEntries (arrivalLegs r) ++ [ez])
      with ([ea] ++ builtEntries (departureLegs r) ++ emid ++ builtEntries (starLegs r)
               ++ builtEntries (arrivalLegs r) ++ [ez]).
    rewrite !keptEntries_app by (rewrite ?length_builtEntries; simpl; lia).
    rewrite (keptEntries_none _ sids), (keptEntries_none _ stars),
      (keptEntries_none _ arrivals) by assumption.
    rewrite (keptEntries_all _ mid) by assumption.
    unfold keptEntries. simpl. rewrite Ka, Kz. reflexivity.
Qed.

Lemma QList_insert_length {X : Type} (i : Z) (x : X) (xs : list X) :
  length (QList_insert i x xs) = S (length xs).
Proof.
  unfold QList_insert. rewrite length_app. simpl.
  rewrite <- (take_drop (Z.to_nat i) xs) at 3. rewrite length_app. lia.
Qed.

Lemma insertDepartureLeg_loop_total : forall n k r1,
  (k + n <= MapProcedureLegs_size (departureLegs r1))%nat ->
  n = 0%nat \/ (k < length (legs r1))%nat ->
  is_Some (forEach insertDepartureLeg (seq k n) r1).
Proof.
  induction n as [|n IH]; intros k r1 Hsize Hlen; [simpl; eauto|].
  destruct Hlen as [|Hlen]; [discriminate|].
  simpl seq. cbn [forEach]. unfold insertDepartureLeg at 2.
  rewrite Route_at_nat.
  destruct (legs r1 !! k) as [prev|] eqn:Eprev.
  2: { apply lookup_ge_None in Eprev. lia. }
  cbn [mbind option_bind].
  change (departureLegs (setLegs r1 ?x)) with (departureLegs r1).
  replace (1 + Z.of_nat k - 1) with (Z.of_nat k) by lia.
  rewrite MapProcedureLegs_at_nat.
  destruct (MapProcedureLegs_all (departureLegs r1) !! k) as [procLeg|] eqn:Ep.
  2: { apply lookup_ge_None in Ep. unfold MapProcedureLegs_size in Hsize. lia. }
  cbn [mbind option_bind].
  apply IH.
  - simpl. lia.
  - right. simpl. rewrite QList_insert_length. lia.
Qed.

Lemma insertDepartureLeg_loop_empty r1 (n : nat) :
  legs r1 = [] -> forEach insertDepartureLeg (seq 0 (S n)) r1 = None.
Proof.
  intros Hlegs. simpl seq. cbn [forEach]. unfold insertDepartureLeg at 2.
  rewrite Route_at_nat, Hlegs. reflexivity.
Qed.

Lemma insertBeforeLast_loop_total (sel : Route -> MapProcedureLegs) :
  (forall r ls es, sel (setEntries (setLegs r ls) es) = sel r) ->
  forall n k r1,
    (k + n <= MapProcedureLegs_size (sel r1))%nat ->
    is_Some (forEach (fun r i => insertBeforeLast r (sel r) i) (seq k n) r1).
Proof.
  intros Hsel. induction n as [|n IH]; intros k r1 Hsize; [simpl; eauto|].
  simpl seq. cbn [forEach]. unfold insertBeforeLast at 2.
  assert (exists prev,
             (if 2 <=? Route_size r1 then Some <$> Route_at r1 (Route_size r1 - 2)
              else Some None) = Some prev) as [prev ->].
  { destruct (Z.leb_spec 2 (Route_size r1)) as [H2|_]; [|eauto].
    destruct (Route_at_is_Some r1 (Route_size r1 - 2)) as [l ->]; [lia|]. simpl. eauto. }
  cbn [mbind option_bind].
  rewrite MapProcedureLegs_at_nat.
  destruct (MapProcedureLegs_all (sel r1) !! k) as [procLeg|] eqn:Ep.
  2: { apply lookup_ge_None in Ep. unfold MapProcedureLegs_size in Hsize. lia. }
  cbn [mbind option_bind].
  apply IH. rewrite Hsel. lia.
Qed.

Lemma MapProcedureLegs_isEmpty_size (legSet : MapProcedureLegs) :
  MapProcedureLegs_isEmpty legSet = true <-> MapProcedureLegs_size legSet = 0%nat.
Proof.
  unfold MapProcedureLegs_size, MapProcedureLegs_all.
  destruct legSet as [[|] [|]]; simpl; split; intros; try discriminate; reflexivity.
Qed.

(** X17: [updateProcedureLegs] fails in one case only: the route has no
    leg besides its procedure legs and there are departure legs to insert,
    the first of which is built from the missing leg 0.  STAR and arrival
    legs are inserted into any route. *)
Theorem updateProcedureLegs_fails_only_without_legs r :
  updateProcedureLegs r = None
  <-> legs (eraseProcedureLegs r PROCEDURE_ALL) = []
      /\ MapProcedureLegs_isEmpty (departureLegs r) = false.
Proof.
  unfold updateProcedureLegs.
  destruct (eraseProcedureLegs_same r PROCEDURE_ALL) as (_ & _ & Hdep & _).
  set (r0 := eraseProcedureLegs r PROCEDURE_ALL) in *.
  rewrite if_setOffsets.
  match goal with |- context [forEach insertDepartureLeg _ ?R] => set (r1 := R) end.
  change (departureLegs r1) with (departureLegs r0). rewrite Hdep.
  assert (legs r1 = legs r0) as Hlegs1 by reflexivity.
  assert (departureLegs r1 = departureLegs r) as Hdep1 by exact Hdep.
  destruct (legs r0) as [|a rest] eqn:Hlegs0;
    destruct (MapProcedureLegs_size (departureLegs r)) as [|n] eqn:Hn.
  - (* no leg, no departure *)
    split; [|intros [_ Hne]; apply MapProcedureLegs_isEmpty_size in Hn; congruence].
    intros Hnone. exfalso. revert Hnone. simpl seq. cbn [forEach mbind option_bind].
    rewrite if_setOffsets.
    match goal with
    | |- context [forEach (fun r i => insertBeforeLast r (starLegs r) i) _ ?R] =>
        destruct (insertBeforeLast_loop_total starLegs (fun _ _ _ => eq_refl)
                    (MapProcedureLegs_size (starLegs R)) 0 R (le_n _)) as [r2 ->]
    end.
    cbn [mbind option_bind]. rewrite if_setOffsets.
    match goal with
    | |- context [forEach (fun r i => insertBeforeLast r (arrivalLegs r) i) _ ?R] =>
        destruct (insertBeforeLast_loop_total arrivalLegs (fun _ _ _ => eq_refl)
                    (MapProcedureLegs_size (arrivalLegs R)) 0 R (le_n _)) as [r3 ->]
    end.
    discriminate.
  - (* no leg, but a departure *)
    rewrite (insertDepartureLeg_loop_empty r1 n Hlegs1).
    split; [intros _; split; [reflexivity|]|reflexivity].
    destruct (MapProcedureLegs_isEmpty (departureLegs r)) eqn:He; [|reflexivity].
    apply MapProcedureLegs_isEmpty_size in He. lia.
  - split; [|intros [? _]; discriminate].
    intros Hnone. exfalso. revert Hnone. simpl seq. cbn [forEach mbind option_bind].
    rewrite if_setOffsets.
    match goal with
    | |- context [forEach (fun r i => insertBeforeLast r (starLegs r) i) _ ?R] =>
        destruct (insertBeforeLast_loop_total starLegs (fun _ _ _ => eq_refl)
                    (MapProcedureLegs_size (starLegs R)) 0 R (le_n _)) as [r2 ->]
    end.
    cbn [mbind option_bind]. rewrite if_setOffsets.
    match goal with
    | |- context [forEach (fun r i => insertBeforeLast r (arrivalLegs r) i) _ ?R] =>
        destruct (insertBeforeLast_loop_total arrivalLegs (fun _ _ _ => eq_refl)
                    (MapProcedureLegs_size (arrivalLegs R)) 0 R (le_n _)) as [r3 ->]
    end.
    discriminate.
  - split; [|intros [? _]; discriminate].
    intros Hnone. exfalso. revert Hnone.
    destruct (insertDepartureLeg_loop_total (S n) 0 r1) as [r1' ->].
    { rewrite Hdep1. lia. }
    { right. rewrite Hlegs1. simpl. lia. }
    cbn [mbind option_bind]. rewrite if_setOffsets.
    match goal with
    | |- context [forEach (fun r i => insertBeforeLast r (starLegs r) i) _ ?R] =>
        destruct (insertBeforeLast_loop_total starLegs (fun _ _ _ => eq_refl)
                    (MapProcedureLegs_size (starLegs R)) 0 R (le_n _)) as [r2 ->]
    end.
    cbn [mbind option_bind]. rewrite if_setOffsets.
    match goal with
    | |- context [forEach (fun r i => insertBeforeLast r (arrivalLegs r) i) _ ?R] =>
        destruct (insertBeforeLast_loop_total arrivalLegs (fun _ _ _ => eq_refl)
                    (MapProcedureLegs_size (arrivalLegs R)) 0 R (le_n _)) as [r3 ->]
    end.
    discriminate.
Qed.


(** ** User waypoint numbers *)

Lemma fold_user_numbers (es : list FlightplanEntry) : forall acc : Z,
  let m := fold_left (fun nextNum entry =>
                        if entryIsUser entry then Z.max (entryUserNumber entry) nextNum
                        else nextNum) es acc in
  acc <= m
  /\ (forall e, In e es -> entryIsUser e = true -> entryUserNumber e <= m)
  /\ (m = acc \/ exists e, In e es /\ entryIsUser e = true /\ entryUserNumber e = m).
Proof.
  induction es as [|e es IH]; intros acc; simpl.
  - split; [lia|]. split; [intros e []|now left].
  - destruct (IH (if entryIsUser e then Z.max (entryUserNumber e) acc else acc))
      as (Hle & Hall & Hex).
    destruct (entryIsUser e) eqn:Eu.
    + split; [lia|]. split.
      * intros e' [<-|Hin] Hu; [lia|now apply Hall].
      * destruct Hex as [Hm|(e' & Hin & Hu & Hn)]; [|right; exists e'; auto].
        destruct (Z.max_spec (entryUserNumber e) acc) as [[_ Hmax]|[_ Hmax]];
          [left; lia|].
        right. exists e. split; [now left|]. split; [exact Eu|lia].
    + split; [exact Hle|]. split.
      * intros e' [<-|Hin] Hu; [congruence|now apply Hall].
      * destruct Hex as [Hm|(e' & Hin & Hu & Hn)]; [now left|right; exists e'; auto].
Qed.

(** X18: [getNextUserWaypointNumber]: when the numbers of the user
    waypoints stay below the largest [int], the result is at least 1, above
    the number of every user waypoint of the flight plan, and the least such
    number; entries that are no user waypoints have no influence. *)
Theorem getNextUserWaypointNumber_next r :
  (forall e, In e (entries (flightplan r)) -> entryIsUser e = true ->
             entryUserNumber e < INT_MAX) ->
  exists n,
    getNextUserWaypointNumber r = Some n
    /\ 1 <= n
    /\ (forall e, In e (entries (flightplan r)) -> entryIsUser e = true ->
                  entryUserNumber e < n)
    /\ (n = 1 \/ exists e, In e (entries (flightplan r)) /\ entryIsUser e = true
                           /\ entryUserNumber e = n - 1).
Proof.
  intros Hint. unfold getNextUserWaypointNumber.
  destruct (fold_user_numbers (entries (flightplan r)) 0) as (Hle & Hall & Hex).
  set (m := fold_left _ _ 0) in *.
  assert (m < INT_MAX) as Hm.
  { destruct Hex as [->|(e & Hin & Hu & <-)]; [reflexivity|now apply Hint]. }
  exists (m + 1). unfold int_succ. destruct (Z.ltb_spec m INT_MAX) as [_|]; [|lia].
  split; [reflexivity|]. split; [lia|]. split.
  - intros e Hin Hu. specialize (Hall e Hin Hu). lia.
  - destruct Hex as [->|(e & Hin & Hu & Hn)]; [now left|].
    right. exists e. repeat split; trivial. lia.
Qed.

(** ** The flight-plan predicates *)

(** X19: On a route whose entries mirror its legs the predicates on the
    departure and the destination never read an empty list.  A departure
    helipad implies a departure start, a start or a parking implies a valid
    departure, and a valid departure or destination implies a flight plan
    that is not empty; a route with entries can be calculated. *)
Theorem departure_predicates r :
  length (entries (flightplan r)) = length (legs r) ->
  (is_Some (hasValidDeparture r) /\ is_Some (hasValidDestination r)
   /\ is_Some (hasDepartureParking r) /\ is_Some (hasDepartureStart r)
   /\ is_Some (hasDepartureHelipad r))
  /\ (hasDepartureHelipad r = Some true -> hasDepartureStart r = Some true)
  /\ (hasDepartureStart r = Some true -> hasValidDeparture r = Some true)
  /\ (hasDepartureParking r = Some true -> hasValidDeparture r = Some true)
  /\ (hasValidDeparture r = Some true -> isFlightplanEmpty r = false)
  /\ (hasValidDestination r = Some true -> isFlightplanEmpty r = false)
  /\ (hasEntries r = true -> canCalcRoute r = true)
  /\ (canCalcRoute r = true -> isFlightplanEmpty r = false).
Proof.
  intros Hlen.
  assert (is_Some (hasValidDeparture r)) as Hdep.
  { unfold hasValidDeparture, Flightplan_isEmpty, Route_first, Route_at.
    destruct (entries (flightplan r)) as [|e es]; [simpl; eauto|].
    destruct (legs r) as [|l ls]; [discriminate|]. simpl.
    destruct (entryIsAirport e); simpl; eauto. }
  assert (is_Some (hasValidDestination r)) as Hdest.
  { unfold hasValidDestination, Flightplan_isEmpty.
    destruct (entries (flightplan r)) as [|e es] eqn:Ees; [simpl; eauto|].
    cbn [negb]. destruct (last (e :: es)) as [lastEntry|] eqn:El.
    2: { rewrite last_lookup in El. apply lookup_ge_None in El. simpl in El. lia. }
    cbn [mbind option_bind]. destruct (entryIsAirport lastEntry); [|eauto].
    destruct (Route_at_is_Some r (Route_size r - 1)) as [l ->]; [|simpl; eauto].
    unfold Route_size. rewrite <- Hlen. simpl. lia. }
  assert (hasValidDeparture r = Some true -> is_Some (Route_first r)) as Hfirst.
  { unfold hasValidDeparture.
    destruct (negb (Flightplan_isEmpty (flightplan r))); [|discriminate].
    destruct (head (entries (flightplan r))) as [e|]; [|discriminate]. simpl.
    destruct (entryIsAirport e); [|discriminate].
    destruct (Route_first r); [eauto|discriminate]. }
  assert (is_Some (hasDepartureParking r)) as Hparking.
  { unfold hasDepartureParking. destruct Hdep as [[|] Hd]; rewrite Hd; simpl; [|eauto].
    destruct (Hfirst Hd) as [l ->]. simpl. eauto. }
  assert (is_Some (hasDepartureStart r)) as Hstart.
  { unfold hasDepartureStart. destruct Hdep as [[|] Hd]; rewrite Hd; simpl; [|eauto].
    destruct (Hfirst Hd) as [l ->]. simpl. eauto. }
  assert (hasDepartureStart r = Some true -> hasValidDeparture r = Some true) as Hsd.
  { unfold hasDepartureStart. destruct (hasValidDeparture r) as [[|]|]; simpl;
      [reflexivity|discriminate|discriminate]. }
  split; [|split; [|split; [exact Hsd|split; [|split; [|split; [|split]]]]]].
  - repeat split; trivial.
    unfold hasDepartureHelipad. destruct Hstart as [[|] Hs]; rewrite Hs; simpl; [|eauto].
    destruct (Hfirst (Hsd Hs)) as [l ->]. simpl. eauto.
  - unfold hasDepartureHelipad. destruct (hasDepartureStart r) as [[|]|]; simpl;
      [reflexivity|discriminate|discriminate].
  - unfold hasDepartureParking. destruct (hasValidDeparture r) as [[|]|]; simpl;
      [reflexivity|discriminate|discriminate].
  - unfold hasValidDeparture, isFlightplanEmpty.
    destruct (Flightplan_isEmpty (flightplan r)); [discriminate|reflexivity].
  - unfold hasValidDestination, isFlightplanEmpty.
    destruct (Flightplan_isEmpty (flightplan r)); [discriminate|reflexivity].
  - unfold hasEntries, canCalcRoute. intros H%Z.ltb_lt. apply Z.leb_le. lia.
  - unfold canCalcRoute, isFlightplanEmpty, Flightplan_isEmpty. intros H%Z.leb_le.
    destruct (entries (flightplan r)); [simpl in H; lia|reflexivity].
Qed.

(** ** The update pass *)

Lemma fold_alter_lookup (g : nat -> RouteLeg -> RouteLeg) (idx : list nat) :
  NoDup idx ->
  forall (ls : list RouteLeg) (i : nat),
    fold_left (fun ls i => alter (g i) i ls) idx ls !! i
    = if bool_decide (i ∈ idx) then g i <$> ls !! i else ls !! i.
Proof.
  induction 1 as [|i0 idx Hnotin Hnodup IH]; intros ls i; [reflexivity|].
  simpl. rewrite IH.
  destruct (decide (i = i0)) as [->|Hne].
  - rewrite (bool_decide_eq_false_2 _ Hnotin).
    rewrite bool_decide_eq_true_2 by constructor.
    apply list_lookup_alter_eq.
  - rewrite (list_lookup_alter_ne _ _ _ _ (not_eq_sym Hne)).
    destruct (decide (i ∈ idx)) as [Hin|Hout].
    + rewrite !bool_decide_eq_true_2; [reflexivity|now constructor|exact Hin].
    + rewrite !bool_decide_eq_false_2; [reflexivity| |exact Hout].
      intros [?|?]%elem_of_cons; contradiction.
Qed.


Lemma updateIndices_indexed r : indexed (legs (updateIndices r)).
Proof.
  intros i l. unfold updateIndices. cbn [legs setLegs].
  rewrite (fold_alter_lookup (fun i => setFlightplanEntryIndex (Z.of_nat i)))
    by apply NoDup_seq.
  destruct (decide (i ∈ seq 0 (length (legs r)))) as [Hin|Hout].
  - rewrite bool_decide_eq_true_2 by exact Hin.
    destruct (legs r !! i); simpl; [|discriminate]. now intros [= <-].
  - rewrite bool_decide_eq_false_2 by exact Hout.
    intros Hl%lookup_lt_Some. exfalso. apply Hout, elem_of_seq. lia.
Qed.

Lemma fold_alter_indexed (g : nat -> list RouteLeg -> RouteLeg -> RouteLeg) :
  (forall i ls x, flightplanEntryIndex (g i ls x) = flightplanEntryIndex x) ->
  forall (idx : list nat) (ls : list RouteLeg),
    indexed ls -> indexed (fold_left (fun ls i => alter (g i ls) i ls) idx ls).
Proof.
  intros Hg. induction idx as [|i0 idx IH]; intros ls Hls; [exact Hls|].
  simpl. apply IH. intros i l.
  destruct (decide (i0 = i)) as [->|Hne].
  - rewrite list_lookup_alter_eq. destruct (ls !! i) as [x|] eqn:Ex; [|discriminate].
    simpl. intros [= <-]. rewrite Hg. now apply Hls.
  - rewrite (list_lookup_alter_ne _ _ _ _ Hne). apply Hls.
Qed.

Lemma updateMagvar_indexed r : indexed (legs r) -> indexed (legs (updateMagvar r)).
Proof.
  intros Hr. unfold updateMagvar. cbn [legs setTrueCourse setLegs].
  apply (fold_alter_indexed (fun i ls => updateInvalidMagvar (Z.of_nat i) ls));
    [reflexivity|].
  apply (fold_alter_indexed (fun _ _ => updateMagvarLeg)); [reflexivity|exact Hr].
Qed.

Lemma distancesLoop_indexed idx : forall last r r',
  distancesLoop idx last r = Some r' ->
  indexed (legs r) -> indexed (legs r') /\ trueCourse r' = trueCourse r.
Proof.
  induction idx as [|i idx IH]; intros last r r'; simpl.
  - intros [= <-]. auto.
  - destruct (isAirportAfterArrival r (Z.of_nat i)) as [[|]|]; simpl; try discriminate.
    + intros [= <-]. auto.
    + destruct (Route_at r (Z.of_nat i)) as [mapobj|] eqn:Eat; simpl; [|discriminate].
      rewrite Route_at_nat in Eat.
      set (mapobj' := updateDistanceAndCourse (Z.of_nat i) last mapobj).
      intros Hrun Hr.
      assert (indexed (<[i:=mapobj']> (legs r))) as Hins.
      { intros j l. destruct (decide (i = j)) as [<-|Hne].
        - rewrite list_lookup_insert_eq by (eapply lookup_lt_Some, Eat).
          now intros [= <-].
        - rewrite (list_lookup_insert_ne _ _ _ _ Hne). apply Hr. }
      destruct (IH _ _ _ Hrun) as [Hi Ht].
      { now destruct (negb (isMissed mapobj')). }
      split; [exact Hi|]. rewrite Ht. now destruct (negb (isMissed mapobj')).
Qed.

Lemma existsb_identity (g : LegIdentity -> bool) (ls ls' : list RouteLeg) :
  map identity ls' = map identity ls ->
  existsb (fun l => g (identity l)) ls' = existsb (fun l => g (identity l)) ls.
Proof.
  revert ls'. induction ls as [|x ls IH]; intros [|x' ls'] Hmap; simpl in *;
    try discriminate; [reflexivity|].
  injection Hmap as Hx Hrest. now rewrite Hx, (IH ls' Hrest).
Qed.

(** X20: After [updateAll] every leg carries its position in the route as
    its flight-plan entry index, and the route reports true courses exactly
    when no leg has a map object type with magnetic variation.  The course
    mode is decided by the types of the legs the route had before the call,
    not by the magnetic variations that the pass computes. *)
Theorem updateAll_indices_and_course_mode r :
  exists r',
    updateAll r = Some r'
    /\ indexed (legs r')
    /\ length (legs r') = length (legs r)
    /\ trueCourse r' = negb (anyMagvarType (legs r)).
Proof.
  destruct (updateAll_spec r) as (r' & Hall & Hid & _ & _).
  exists r'. split; [exact Hall|].
  unfold updateAll in Hall.
  destruct (updateDistancesAndCourse (updateMagvar (updateIndices r))) as [r1|] eqn:Hpass;
    [|discriminate].
  injection Hall as <-. cbn [legs trueCourse updateBoundingRect setBoundingRect].
  unfold updateDistancesAndCourse in Hpass.
  destruct (distancesLoop_indexed _ _ _ _ Hpass) as [Hind Htrue].
  { apply (updateMagvar_indexed (updateIndices r)), updateIndices_indexed. }
  split; [exact Hind|]. split.
  - cbn [legs updateBoundingRect setBoundingRect] in Hid.
    now rewrite <- (length_map identity), Hid, length_map.
  - rewrite Htrue. cbn [trueCourse setTotalDistance].
    unfold updateMagvar at 1. cbn [trueCourse setTrueCourse]. f_equal.
    unfold anyMagvarType.
    pose proof (updateMagvar_identity (updateIndices r)) as H1.
    rewrite updateIndices_identity in H1.
    unfold updateMagvar in H1. cbn [legs setTrueCourse setLegs] in H1.
    exact (existsb_identity (fun i => testFlag (mapObjectType i) NAV_MAGVAR) _ _ H1).
Qed.

Lemma isAirportAfterArrival_reads r r' (j : Z) :
  map identity (legs r') = map identity (legs r) ->
  arrivalLegs r' = arrivalLegs r -> starLegs r' = starLegs r ->
  isAirportAfterArrival r' j = isAirportAfterArrival r j.
Proof.
  intros Hid Harr Hstar. unfold isAirportAfterArrival, hasArrivalProcedure, hasStarProcedure.
  assert (Route_size r' = Route_size r) as ->
    by (unfold Route_size; now rewrite <- (length_map identity), Hid, length_map).
  rewrite Harr, Hstar.
  destruct ((match approachLegs (arrivalLegs r) with [] => false | _ => true end
             || negb (MapProcedureLegs_isEmpty (starLegs r))) && (j =? Route_size r - 1));
    [|reflexivity].
  unfold Route_at. destruct (0 <=? j); [|reflexivity].
  assert (identity <$> legs r' !! Z.to_nat j = identity <$> legs r !! Z.to_nat j) as Hl
    by (rewrite <- !list_lookup_fmap;
        change (identity <$> legs r') with (map identity (legs r'));
        change (identity <$> legs r) with (map identity (legs r)); now rewrite Hid).
  destruct (legs r' !! Z.to_nat j) as [x'|], (legs r !! Z.to_nat j) as [x|];
    simpl in *; try discriminate; [|reflexivity].
  injection Hl as Hx. unfold getMapObjectType. now rewrite Hx.
Qed.

Lemma distancesLoop_keeps_airport idx (j : nat) : forall last r r',
  distancesLoop idx last r = Some r' ->
  In j idx ->
  isAirportAfterArrival r (Z.of_nat j) = Some true ->
  legs r' !! j = legs r !! j.
Proof.
  induction idx as [|i idx IH]; intros last r r' Hrun Hin Hstop; [destruct Hin|].
  simpl in Hrun.
  destruct (Nat.eq_dec i j) as [->|Hne].
  - rewrite Hstop in Hrun. simpl in Hrun. now injection Hrun as <-.
  - destruct Hin as [|Hin]; [contradiction|].
    destruct (isAirportAfterArrival r (Z.of_nat i)) as [[|]|]; simpl in Hrun;
      try discriminate; [now injection Hrun as <-|].
    destruct (Route_at r (Z.of_nat i)) as [mapobj|] eqn:Eat; simpl in Hrun; [|discriminate].
    rewrite Route_at_nat in Eat.
    match type of Hrun with
    | distancesLoop _ _ ?r1 = _ =>
        assert (legs r1 = <[i:=updateDistanceAndCourse (Z.of_nat i) last mapobj]> (legs r))
          as Hlegs1
          by (now destruct (negb (isMissed (updateDistanceAndCourse (Z.of_nat i) last mapobj))));
        assert (arrivalLegs r1 = arrivalLegs r /\ starLegs r1 = starLegs r) as [Ha Hs]
          by (now destruct (negb (isMissed (updateDistanceAndCourse (Z.of_nat i) last mapobj))));
        rewrite (IH _ r1 r' Hrun Hin)
    end.
    + rewrite Hlegs1. now apply list_lookup_insert_ne.
    + rewrite <- Hstop. apply isAirportAfterArrival_reads; trivial.
      rewrite Hlegs1. now apply (map_identity_insert (legs r) i mapobj).
Qed.

(** X21: The distance pass stops at an airport that follows an arrival or
    a STAR: that last leg is left as it was, with the distance and the
    course it had before the pass. *)
Theorem updateDistancesAndCourse_leaves_airport_after_arrival r :
  isAirportAfterArrival r (Route_size r - 1) = Some true ->
  exists r',
    updateDistancesAndCourse r = Some r'
    /\ Route_size r' = Route_size r
    /\ Route_at r' (Route_size r - 1) = Route_at r (Route_size r - 1).
Proof.
  intros Hstop.
  destruct (updateDistancesAndCourse_spec r) as (r' & Hrun & _).
  exists r'. split; [exact Hrun|].
  unfold updateDistancesAndCourse in Hrun.
  destruct (distancesLoop_frame _ _ _ _ Hrun) as (Hid & _ & _).
  assert (Route_size r' = Route_size r) as Hsize.
  { unfold Route_size. rewrite <- (length_map identity (legs r')), Hid, length_map.
    reflexivity. }
  split; [exact Hsize|].
  assert (0 < Route_size r) as Hpos.
  { unfold isAirportAfterArrival in Hstop.
    destruct ((hasArrivalProcedure r || hasStarProcedure r)
              && (Route_size r - 1 =? Route_size r - 1)); [|discriminate].
    destruct (Route_at r (Route_size r - 1)) as [l|] eqn:El; [|discriminate].
    apply Route_at_Some in El. lia. }
  replace (Route_size r - 1) with (Z.of_nat (length (legs r) - 1))
    in * by (unfold Route_size in *; lia).
  rewrite !Route_at_nat.
  apply (distancesLoop_keeps_airport _ _ _ _ _ Hrun).
  - apply in_seq. unfold Route_size in Hpos. simpl. lia.
  - exact Hstop.
Qed.


(** ** The switch at a hold *)

Lemma updateActiveLegAndPos_from_active p r prevL activeL :
  PosCourse_isValid p = true ->
  Route_size r <= INVALID_INDEX_VALUE ->
  1 <= activeLeg r ->
  Route_at r (activeLeg r - 1) = Some prevL ->
  Route_at r (activeLeg r) = Some activeL ->
  updateActiveLegAndPos p r
  = advance p r (activeLeg r)
            (distanceMeterToLine (pos p) (getPosition prevL) (getPosition activeL)).
Proof.
  intros Hv Hint Hlow Eprev Eal.
  pose proof (Route_at_Some _ _ _ Eal) as Hin.
  assert (Route_isEmpty r = false) as Hne.
  { unfold Route_isEmpty. destruct (Z.eqb_spec (Route_size r) 0); [lia|reflexivity]. }
  assert (seedLeg r p = Some (activeLeg r)) as Es.
  { unfold seedLeg. destruct (Z.eqb_spec (activeLeg r) INVALID_INDEX_VALUE); [lia|reflexivity]. }
  apply (updateActiveLegAndPos_unfold p r _ _ _ Hne Hv Es).
  unfold clampLeg. destruct (Z.leb_spec (Route_size r) (activeLeg r)); [lia|].
  unfold measureActive.
  destruct (Z.eqb_spec (Route_size r) 1); [lia|].
  destruct (Z.eqb_spec (activeLeg r) 0); [lia|].
  now rewrite (getPositionAt_Some _ _ _ Eprev), (getPositionAt_Some _ _ _ Eal).
Qed.

(** X22: The switch onto a hold.  When the active leg is no hold and the
    next leg is one, the update moves on exactly when the position is less
    than half a nautical mile from the segment into the hold and the hold is
    not a hidden missed-approach leg; the course of the aircraft and the
    distance to the active leg play no part.  The stored line distance is
    that of the segment the update ends on. *)
Theorem switch_rule_next_leg_is_hold p r prevL activeL nextL :
  PosCourse_isValid p = true ->
  Route_size r <= INVALID_INDEX_VALUE ->
  1 <= activeLeg r ->
  Route_at r (activeLeg r - 1) = Some prevL ->
  Route_at r (activeLeg r) = Some activeL ->
  Route_at r (activeLeg r + 1) = Some nextL ->
  isHold activeL = false -> isHold nextL = true ->
  let activeRes := distanceMeterToLine (pos p) (getPosition prevL) (getPosition activeL) in
  let nextRes := distanceMeterToLine (pos p) (getPosition activeL) (getPosition nextL) in
  let switch :=
    F32.ltb (F32.abs (distance nextRes)) (nmToMeter (F32.of_ratio 1 2))
    && negb (missedHidden r nextL) in
  exists r',
    updateActiveLegAndPos p r = Some r'
    /\ activeLeg r' = (if switch then activeLeg r + 1 else activeLeg r)
    /\ activeLegResult r' = (if switch then nextRes else activeRes).
Proof.
  intros Hv Hint Hlow Eprev Eal Enext Hhold Hnext activeRes nextRes switch.
  rewrite (updateActiveLegAndPos_from_active p r prevL activeL Hv Hint Hlow Eprev Eal).
  assert (nextLegCandidate r activeL (activeLeg r + 1) = Some (activeLeg r + 1)) as Ec
    by (unfold nextLegCandidate; now rewrite Hhold).
  assert (Route_at r (activeLeg r + 1 - 1) = Some activeL) as Eal'
    by (now replace (activeLeg r + 1 - 1) with (activeLeg r) by lia).
  rewrite (advance_unfold p r _ _ _ _ _ _ Eal Ec Eal' Enext).
  match goal with |- context [switchToNextLeg ?x1 ?x2 ?x3 ?x4 ?x5 ?x6] =>
    assert (switchToNextLeg x1 x2 x3 x4 x5 x6
            = F32.ltb (F32.abs (distance nextRes)) (nmToMeter (F32.of_ratio 1 2))) as ->
  end.
  { unfold switchToNextLeg. now rewrite Hhold, Hnext. }
  fold nextRes activeRes switch.
  eexists. split; [reflexivity|]. now destruct switch.
Qed.

(** X23: Leaving a hold whose exit is the start of the next leg.  When the
    active leg is a hold and the line of the next leg, initial fixes passed
    over, starts at the position of the hold, the update moves on exactly
    when the position is along the segment into that leg, less than half a
    nautical mile beside it and more than three quarters of a nautical mile
    from its start, the course differs by less than 25 degrees, and the leg
    is not a hidden missed-approach leg. *)
Theorem switch_rule_hold_exit_at_next_leg p r prevL activeL (nextLeg : Z) beforeNext nextL :
  PosCourse_isValid p = true ->
  Route_size r <= INVALID_INDEX_VALUE ->
  1 <= activeLeg r ->
  Route_at r (activeLeg r - 1) = Some prevL ->
  Route_at r (activeLeg r) = Some activeL ->
  isHold activeL = true ->
  nextLegCandidate r activeL (activeLeg r + 1) = Some nextLeg ->
  Route_at r (nextLeg - 1) = Some beforeNext ->
  Route_at r nextLeg = Some nextL ->
  Pos_eqb (Line_getPos1 (line (getApproachLeg nextL))) (getPosition activeL) = true ->
  let activeRes := distanceMeterToLine (pos p) (getPosition prevL) (getPosition activeL) in
  let nextRes := distanceMeterToLine (pos p) (getPosition beforeNext) (getPosition nextL) in
  let courseDiff := courseDifference p (getPosition beforeNext) (getPosition nextL) in
  let switch :=
    LineDist_eqb (status nextRes) ALONG_TRACK
    && F32.ltb (F32.abs (distance nextRes)) (nmToMeter (F32.of_ratio 1 2))
    && F32.gtb (distanceFrom1 nextRes) (nmToMeter (F32.of_ratio 3 4))
    && F32.ltb courseDiff (F32.of_Z 25)
    && negb (missedHidden r nextL) in
  exists r',
    updateActiveLegAndPos p r = Some r'
    /\ activeLeg r' = (if switch then nextLeg else activeLeg r)
    /\ activeLegResult r' = (if switch then nextRes else activeRes).
Proof.
  intros Hv Hint Hlow Eprev Eal Hhold Ec Ebefore Enext Hexit activeRes nextRes courseDiff switch.
  rewrite (updateActiveLegAndPos_from_active p r prevL activeL Hv Hint Hlow Eprev Eal).
  rewrite (advance_unfold p r _ _ _ _ _ _ Eal Ec Ebefore Enext).
  match goal with |- context [switchToNextLeg ?x1 ?x2 ?x3 ?x4 ?x5 ?x6] =>
    assert (switchToNextLeg x1 x2 x3 x4 x5 x6
            = LineDist_eqb (status nextRes) ALONG_TRACK
              && F32.ltb (F32.abs (distance nextRes)) (nmToMeter (F32.of_ratio 1 2))
              && F32.gtb (distanceFrom1 nextRes) (nmToMeter (F32.of_ratio 3 4))
              && F32.ltb courseDiff (F32.of_Z 25)) as ->
  end.
  { unfold switchToNextLeg. now rewrite Hhold, Hexit. }
  fold nextRes activeRes courseDiff switch.
  eexists. split; [reflexivity|]. now destruct switch.
Qed.


End RouteQueriesProofs.


(** * The theorems on samples

    The planar stand-in [Flat] instantiates the collaborators; every
    statement below is closed and is settled by evaluation. *)

Import Flat.

(** ** C10 and C9 *)

Lemma getActiveLegIndexCorrected_never_corrects_witness :
  activeLeg (withActive eastbound 1) <> INVALID_INDEX_VALUE
  /\ getActiveLegIndexCorrected (withActive eastbound 1) (Some true) = Some (1, Some false)
  /\ getActiveLegIndexCorrected (withActive eastbound 1) None = Some (1, None).
Proof.
  assert (activeLeg (withActive eastbound 1) <> INVALID_INDEX_VALUE) as H by discriminate.
  split; [exact H|].
  exact (getActiveLegIndexCorrected_never_corrects (withActive eastbound 1) true H).
Defined.

Lemma updateActiveLegAndPos_invalid_input_witness :
  PosCourse_isValid PosCourse_default = false
  /\ exists r',
       updateActiveLegAndPos PosCourse_default (withActive eastbound 2) = Some r'
       /\ activeLeg r' = INVALID_INDEX_VALUE
       /\ status (activeLegResult r') = INVALID.
Proof.
  split; [reflexivity|].
  destruct (updateActiveLegAndPos_invalid_input PosCourse_default (withActive eastbound 2))
    as (r' & E & Ha & Hs & _); [right; reflexivity|].
  exists r'. auto.
Defined.

(** ** C1 *)

Lemma switch_rule_procedure_turn_and_plain_witness :
  Route_isEmpty (withActive bend 1) = false
  /\ PosCourse_isValid bendSample = true
  /\ isHold (waypoint 10000 0) = false
  /\ isHold (waypoint 10000 10000) = false
  /\ exists r', updateActiveLegAndPos bendSample (withActive bend 1) = Some r'
                /\ activeLeg r' = 2.
Proof.
  do 4 (split; [reflexivity|]).
  destruct (switch_rule_procedure_turn_and_plain
              bendSample (withActive bend 1) 1 1
              (lineDistance (at_m 9995 5) (at_m 0 0) (at_m 10000 0))
              (waypoint 10000 0) (waypoint 10000 10000))
    as (r' & E & Ha & _); try reflexivity.
  exists r'. split; [exact E|]. rewrite Ha. vm_compute. reflexivity.
Defined.

(** C1 as it is worded fails.  With the candidate "smaller than the active
    leg's by more than the margin" neither sample would switch: the two
    distances are equal.  The code switches on both: to leg 2 of [bend]
    under the plain rule, and to leg 2 of [bendProcedureTurn] under the rule
    for procedure turns. *)
Lemma switch_margin_counterexample :
  (isHold (waypoint 10000 0) = false /\ isHold (waypoint 10000 10000) = false
   /\ (activeRes ← segmentResult (withActive bend 1) bendSample 1;
       nextRes ← segmentResult (withActive bend 1) bendSample 2;
       Some (specSwitchPlain activeRes nextRes
               (courseDifference bendSample (at_m 10000 0) (at_m 10000 10000))))
      = Some false
   /\ (activeLeg <$> updateActiveLegAndPos bendSample (withActive bend 1)) = Some 2)
  /\ ((l ← Route_at bendProcedureTurn 1; Some (isHold l, getApproachLegType l))
      = Some (false, PROCEDURE_TURN)
      /\ (activeRes ← segmentResult (withActive bendProcedureTurn 1) turnSample 1;
          nextRes ← segmentResult (withActive bendProcedureTurn 1) turnSample 2;
          Some (specSwitchProcedureTurn activeRes nextRes
                  (courseDifference turnSample (at_m 10000 0) (at_m 10000 10000))))
         = Some false
      /\ (activeLeg <$> updateActiveLegAndPos turnSample (withActive bendProcedureTurn 1))
         = Some 2).
Proof. vm_compute. repeat split. Qed.

(** ** C2 *)

Lemma switch_rule_hold_helper_line_witness :
  Route_isEmpty (withActive holdRoute 1) = false
  /\ PosCourse_isValid holdSouth = true
  /\ isHold holdLeg = true
  /\ Pos_eqb (Line_getPos1 (line (getApproachLeg afterHoldLeg))) (getPosition holdLeg) = false
  /\ exists r', updateActiveLegAndPos holdSouth (withActive holdRoute 1) = Some r'
                /\ activeLeg r' = 2.
Proof.
  do 4 (split; [reflexivity|]).
  destruct (switch_rule_hold_helper_line
              holdSouth (withActive holdRoute 1) 1 1
              (lineDistance (at_m 5000 (-1000)) (at_m 0 0) (at_m 10000 0))
              holdLeg 2 afterHoldLeg)
    as (r' & E & Ha & _); try reflexivity.
  exists r'. split; [exact E|]. rewrite Ha. vm_compute. reflexivity.
Defined.

(** C2 as it is worded fails, whichever way "beyond" is read.  The hold of
    [holdRoute] turns right, so the worded boundary is +0.5 nm.  On the
    helper line the signed distance is 0, below +0.5 nm, and the code does
    not switch; 1000 m south the signed distance is -1000 m, not above
    +0.5 nm, and the code switches. *)
Lemma hold_boundary_sign_counterexample :
  isHold holdLeg = true
  /\ turnDirection (getApproachLeg holdLeg) = "R"
  /\ Pos_eqb (Line_getPos1 (line (getApproachLeg afterHoldLeg))) (getPosition holdLeg) = false
  /\ (status (Line_distanceMeterToLine (holdLine (getApproachLeg holdLeg)) (pos holdOnLine))
      = ALONG_TRACK
      /\ F32.ltb (distance (Line_distanceMeterToLine (holdLine (getApproachLeg holdLeg))
                                                     (pos holdOnLine)))
                 (specHoldBoundary "R") = true
      /\ (activeLeg <$> updateActiveLegAndPos holdOnLine (withActive holdRoute 1)) = Some 1)
  /\ (status (Line_distanceMeterToLine (holdLine (getApproachLeg holdLeg)) (pos holdSouth))
      = ALONG_TRACK
      /\ F32.gtb (distance (Line_distanceMeterToLine (holdLine (getApproachLeg holdLeg))
                                                     (pos holdSouth)))
                 (specHoldBoundary "R") = false
      /\ (activeLeg <$> updateActiveLegAndPos holdSouth (withActive holdRoute 1)) = Some 2).
Proof. vm_compute. repeat split. Qed.

(** ** C3 *)

(** C3 fails on the code at [farSample] over [eastbound], which has no
    active leg yet.  Every segment is farther than 100 nm, and
    [nearestAllLegIndex] reports the invalid index; the update nevertheless
    ends with leg 3, the last leg, as the active leg and not with the
    invalid index. *)
Theorem seed_too_far_ends_on_last_leg :
  activeLeg eastbound = INVALID_INDEX_VALUE
  /\ forallb (fun j => match segmentResult eastbound farSample j with
                       | Some res => negb (LineDist_eqb (status res) INVALID)
                                     && F32.gtb (F32.abs (distance res))
                                                (nmToMeter (F32.of_Z 100))
                       | None => false
                       end) [1; 2; 3] = true
  /\ nearestAllLegIndex eastbound farSample
     = Some (INVALID_DISTANCE_VALUE, INVALID_INDEX_VALUE)
  /\ (activeLeg <$> updateActiveLegAndPos farSample eastbound) = Some 3
  /\ 3 <> INVALID_INDEX_VALUE.
Proof. vm_compute. repeat split. discriminate. Qed.

(** ** C4 *)


(** ** C5 *)

Lemma positionAtDistance_out_of_range_witness :
  F32.ltb (F32.of_Z (-1)) F32.zero = true
  /\ positionAtDistance eastboundMeasured (F32.of_Z (-1)) = Some EMPTY_POS
  /\ F32.gtb (F32.of_Z 162) (totalDistance eastboundMeasured) = true
  /\ positionAtDistance eastboundMeasured (F32.of_Z 162) = Some EMPTY_POS
  /\ positionAtDistance eastboundMeasured (totalDistance eastboundMeasured)
     = Some Pos_default.
Proof.
  destruct (positionAtDistance_out_of_range eastboundMeasured (F32.of_Z (-1))) as [Hlow _].
  destruct (positionAtDistance_out_of_range eastboundMeasured (F32.of_Z 162)) as [Hhigh _].
  destruct (positionAtDistance_out_of_range eastboundMeasured
                                            (totalDistance eastboundMeasured)) as [_ Hin].
  assert (F32.ltb (F32.of_Z (-1)) F32.zero = true) as H1 by reflexivity.
  assert (F32.gtb (F32.of_Z 162) (totalDistance eastboundMeasured) = true) as H2
      by (vm_compute; reflexivity).
  split; [exact H1|].
  split; [exact (Hlow (or_introl H1))|].
  split; [exact H2|].
  split; [exact (Hhigh (or_intror H2))|].
  apply (Hin ltac:(vm_compute; reflexivity) ltac:(vm_compute; reflexivity)
             ltac:(vm_compute; discriminate) (totalDistance eastboundMeasured)).
  vm_compute. reflexivity.
Defined.

(** ** C6 *)

Lemma missed_approach_veto_witness :
  Route_isEmpty (withActive missedRoute 2) = false
  /\ PosCourse_isValid pastApproach = true
  /\ testFlag (shownTypes (withActive missedRoute 2)) PROCEDURE_MISSED = false
  /\ isMissed firstMissedLeg = true
  /\ status (lineDistance (at_m 25000 0) (at_m 10000 0) (at_m 20000 0)) = AFTER_END
  /\ (activeLeg <$> updateActiveLegAndPos pastApproach (withActive missedRoute 2)) = Some 2.
Proof.
  do 5 (split; [vm_compute; reflexivity|]).
  destruct (missed_approach_veto
              pastApproach (withActive missedRoute 2) 2 2
              (lineDistance (at_m 25000 0) (at_m 10000 0) (at_m 20000 0)))
    as [Hveto _]; [reflexivity..|].
  rewrite (Hveto lastApproachLeg 3 firstMissedLeg); reflexivity.
Defined.

(** ** C7 *)

Lemma clearStarProcedure_removes_star_legs_only_witness :
  hasStarProcedure procedureRoute = true
  /\ hasDepartureProcedure procedureRoute = true
  /\ hasArrivalProcedure procedureRoute = true
  /\ length (entries (flightplan procedureRoute)) = length (legs procedureRoute)
  /\ exists r',
       clearStarProcedure procedureRoute = Some r'
       /\ map identity (legs r')
          = map identity (List.filter (fun l => negb (isStar l)) (legs procedureRoute))
       /\ entries (flightplan r') = ["A"; "SID1"; "W"; "APP1"; "D"]
       /\ starLegsOffset r' = 3.
Proof.
  do 4 (split; [reflexivity|]).
  destruct (clearStarProcedure_removes_star_legs_only procedureRoute)
    as [Hclear _]; try reflexivity.
  destruct (Hclear eq_refl eq_refl) as (r' & E & Hlegs & Hentries & Hrest).
  exists r'. repeat split; [exact E|exact Hlegs|rewrite Hentries; reflexivity|apply Hrest].
Defined.

(** C7 as it is worded fails in its last part: [procedureRoute] has a
    departure, a STAR and an arrival, its STAR offset is 3, and after
    [clearStarProcedure] the STAR offset is still 3 and not the invalid
    index. *)
Lemma clearStarProcedure_keeps_starLegsOffset :
  hasDepartureProcedure procedureRoute = true
  /\ hasStarProcedure procedureRoute = true
  /\ hasArrivalProcedure procedureRoute = true
  /\ starLegsOffset procedureRoute = 3
  /\ (starLegsOffset <$> clearStarProcedure procedureRoute) = Some 3
  /\ 3 <> INVALID_INDEX_VALUE.
Proof. vm_compute. repeat split. discriminate. Qed.

(** ** C8 *)

Lemma repeated_sample_never_goes_back_witness :
  Route_size (withActive eastbound 1) < INVALID_INDEX_VALUE
  /\ exists r1 r2,
       updateActiveLegAndPos aheadSample (withActive eastbound 1) = Some r1
       /\ updateActiveLegAndPos aheadSample r1 = Some r2
       /\ activeLeg r1 <= activeLeg r2.
Proof.
  assert (Route_size (withActive eastbound 1) < INVALID_INDEX_VALUE) as Hsize by reflexivity.
  split; [exact Hsize|].
  destruct (updateActiveLegAndPos_total aheadSample (withActive eastbound 1)) as [r1 E1];
    [discriminate|].
  destruct (repeated_sample_never_goes_back aheadSample (withActive eastbound 1) r1 Hsize E1)
    as (r2 & E2 & Hle & _).
  exists r1, r2. auto.
Defined.

(** C8 as it is worded fails.  [enRoute] has leg 1 active, set by the
    update itself; the next sample is over the third leg.  The first call
    with it ends on leg 2 and the second call, with the same sample, on
    leg 3. *)
Lemma repeated_sample_advances_again :
  activeLeg enRoute = 1
  /\ (activeLeg <$> updateActiveLegAndPos aheadSample enRoute) = Some 2
  /\ (r1 ← updateActiveLegAndPos aheadSample enRoute;
      activeLeg <$> updateActiveLegAndPos aheadSample r1) = Some 3.
Proof. vm_compute. repeat split. Qed.

(** * More of the class Route on samples *)

Import FlatQueries.

Ltac by_evaluation :=
  vm_compute; first [reflexivity | discriminate | split; first [reflexivity | discriminate]].

(** ** The active leg *)

Lemma updateActiveLegAndPos_active_leg_in_range_witness :
  Route_isEmpty eastbound = false
  /\ PosCourse_isValid (aircraft 50000 0 90) = true
  /\ 0 <= activeLeg eastbound
  /\ exists r',
       updateActiveLegAndPos (aircraft 50000 0 90) eastbound = Some r'
       /\ 0 <= activeLeg r' < Route_size r'.
Proof.
  assert (Route_isEmpty eastbound = false) as H1 by reflexivity.
  assert (PosCourse_isValid (aircraft 50000 0 90) = true) as H2 by reflexivity.
  assert (0 <= activeLeg eastbound) as H3 by by_evaluation.
  split; [exact H1|]. split; [exact H2|]. split; [exact H3|].
  destruct (updateActiveLegAndPos_active_leg_in_range (aircraft 50000 0 90) eastbound H1 H2 H3)
    as (r' & Hr' & _ & _ & Hin & _).
  exists r'. split; [exact Hr'|exact Hin].
Defined.

Lemma updateActiveLegAndPos_step_witness :
  PosCourse_isValid aheadSample = true
  /\ Route_size (withActive eastbound 1) <= INVALID_INDEX_VALUE
  /\ 1 <= activeLeg (withActive eastbound 1) < Route_size (withActive eastbound 1)
  /\ Route_at (withActive eastbound 1) (activeLeg (withActive eastbound 1))
     = Some (waypoint 100000 0)
  /\ exists r',
       updateActiveLegAndPos aheadSample (withActive eastbound 1) = Some r'
       /\ activeLeg (withActive eastbound 1) <= activeLeg r' < Route_size (withActive eastbound 1)
       /\ (isHold (waypoint 100000 0) = false ->
           activeLeg r' <= activeLeg (withActive eastbound 1) + 1).
Proof.
  assert (PosCourse_isValid aheadSample = true) as H1 by reflexivity.
  assert (Route_size (withActive eastbound 1) <= INVALID_INDEX_VALUE) as H2 by by_evaluation.
  assert (1 <= activeLeg (withActive eastbound 1) < Route_size (withActive eastbound 1)) as H3
    by by_evaluation.
  assert (Route_at (withActive eastbound 1) (activeLeg (withActive eastbound 1))
          = Some (waypoint 100000 0)) as H4 by reflexivity.
  split; [exact H1|]. split; [exact H2|]. split; [exact H3|]. split; [exact H4|].
  destruct (updateActiveLegAndPos_total aheadSample (withActive eastbound 1)) as [r' Hr'];
    [by_evaluation|].
  destruct (updateActiveLegAndPos_step aheadSample (withActive eastbound 1) r'
              (waypoint 100000 0) H1 H2 H3 H4 Hr') as (Hle & Hone & _).
  exists r'. split; [exact Hr'|]. split; [exact Hle|exact Hone].
Defined.

(** ** The route distances *)

Lemma getRouteDistances_result_witness :
  activeLeg enRouteMeasured <> INVALID_INDEX_VALUE
  /\ exists activeL,
       Route_at enRouteMeasured (activeLeg enRouteMeasured) = Some activeL
       /\ (snd <$> getRouteDistances enRouteMeasured allAsked)
          = Some (mkRouteDistances
                    (Some (F32.abs (F32.sub (addDistances (take 2 (legs enRouteMeasured))
                                                          F32.zero)
                                            (distanceToLegEnd enRouteMeasured activeL))))
                    (Some (F32.abs (F32.add (addDistances (drop 2 (legs enRouteMeasured))
                                                          F32.zero)
                                            (distanceToLegEnd enRouteMeasured activeL))))
                    (Some (distanceToLegEnd enRouteMeasured activeL))
                    (Some (crossTrackOf enRouteMeasured activeL))).
Proof.
  assert (activeLeg enRouteMeasured <> INVALID_INDEX_VALUE) as H1 by by_evaluation.
  split; [exact H1|].
  eexists. split; [reflexivity|].
  rewrite (getRouteDistances_result enRouteMeasured allAsked _ H1 eq_refl).
  reflexivity.
Defined.

Lemma getRouteDistances_not_negative_witness :
  exists out',
    getRouteDistances enRouteMeasured allAsked = Some (true, out')
    /\ (forall x, distFromStart out' = Some x -> F32.ltb x F32.zero = false)
    /\ (forall x, distToDest out' = Some x -> F32.ltb x F32.zero = false).
Proof.
  assert (activeLeg enRouteMeasured <> INVALID_INDEX_VALUE) as H1 by by_evaluation.
  eexists. split; [exact (getRouteDistances_at enRouteMeasured allAsked _ H1 eq_refl)|].
  exact (getRouteDistances_not_negative enRouteMeasured allAsked _
           (getRouteDistances_at enRouteMeasured allAsked _ H1 eq_refl)).
Defined.

(** ** The accessors *)

Lemma accessors_without_active_leg_witness :
  activeLeg eastbound = INVALID_INDEX_VALUE
  /\ getActiveLeg eastbound = Some None
  /\ getActiveLegCorrected eastbound (Some true) = Some (None, Some true)
  /\ isActiveMissed eastbound = Some false
  /\ isPassedLastLeg (resetActive eastbound) = Some false.
Proof.
  split; [reflexivity|].
  exact (accessors_without_active_leg eastbound (Some true) eq_refl).
Defined.

Lemma accessors_after_update_witness :
  Route_size eastbound <= INVALID_INDEX_VALUE
  /\ Route_isEmpty eastbound = false
  /\ PosCourse_isValid (aircraft 50000 0 90) = true
  /\ exists r',
       updateActiveLegAndPos (aircraft 50000 0 90) eastbound = Some r'
       /\ exists l out',
            Route_at eastbound (activeLeg r') = Some l
            /\ getActiveLeg r' = Some (Some l)
            /\ getActiveLegCorrected r' (Some true) = Some (Some l, Some false)
            /\ isActiveMissed r' = Some (isMissed l)
            /\ is_Some (isPassedLastLeg r')
            /\ getRouteDistances r' allAsked = Some (true, out').
Proof.
  assert (Route_size eastbound <= INVALID_INDEX_VALUE) as H1 by by_evaluation.
  assert (Route_isEmpty eastbound = false) as H2 by reflexivity.
  assert (PosCourse_isValid (aircraft 50000 0 90) = true) as H3 by reflexivity.
  split; [exact H1|]. split; [exact H2|]. split; [exact H3|].
  destruct (updateActiveLegAndPos_total (aircraft 50000 0 90) eastbound) as [r' Hr'];
    [by_evaluation|].
  exists r'. split; [exact Hr'|].
  exact (accessors_after_update (aircraft 50000 0 90) eastbound r' allAsked true H1 H2 H3 Hr').
Defined.

(** ** The nearest leg of the map *)

Lemma nearestLegResult_minimal_witness :
  Route_size eastbound <= INVALID_INDEX_VALUE
  /\ Pos_isValid overThirdLeg = true
  /\ nearestLegResult eastbound overThirdLeg staleDistance F32.zero F32.zero
     = Some (lineDistance overThirdLeg (at_m 100000 0) (at_m 200000 0), 2)
  /\ Route_at eastbound (1 - 1) = Some (airport 0 0)
  /\ Route_at eastbound 1 = Some (waypoint 100000 0)
  /\ isAnyProcedure (airport 0 0) = false
  /\ LineDist_eqb (status (lineDistance overThirdLeg (at_m 0 0) (at_m 100000 0))) INVALID
     = false
  /\ F32.ltb (F32.abs (distance (lineDistance overThirdLeg (at_m 0 0) (at_m 100000 0))))
             (F32.abs (distance (lineDistance overThirdLeg (at_m 100000 0) (at_m 200000 0))))
     = false.
Proof.
  assert (Route_size eastbound <= INVALID_INDEX_VALUE) as H1 by by_evaluation.
  assert (Pos_isValid overThirdLeg = true) as H2 by reflexivity.
  assert (nearestLegResult eastbound overThirdLeg staleDistance F32.zero F32.zero
          = Some (lineDistance overThirdLeg (at_m 100000 0) (at_m 200000 0), 2)) as H3
    by (vm_compute; reflexivity).
  assert (Route_at eastbound (1 - 1) = Some (airport 0 0)) as H4 by reflexivity.
  assert (Route_at eastbound 1 = Some (waypoint 100000 0)) as H5 by reflexivity.
  assert (isAnyProcedure (airport 0 0) = false) as H6 by reflexivity.
  assert (LineDist_eqb (status (lineDistance overThirdLeg (at_m 0 0) (at_m 100000 0))) INVALID
          = false) as H7 by (vm_compute; reflexivity).
  split; [exact H1|]. split; [exact H2|]. split; [exact H3|]. split; [exact H4|].
  split; [exact H5|]. split; [exact H6|]. split; [exact H7|].
  exact (nearestLegResult_minimal eastbound overThirdLeg staleDistance F32.zero F32.zero
           _ 2 H1 H2 H3 1 (airport 0 0) (waypoint 100000 0) H4 H5 H6 H7).
Defined.

Lemma nearestLegResult_ignores_stale_values_witness :
  distanceFrom1 otherStaleDistance = distanceFrom1 staleDistance
  /\ distanceFrom2 otherStaleDistance = distanceFrom2 staleDistance
  /\ nearestLegResult eastbound overThirdLeg staleDistance F32.zero F32.zero
     = nearestLegResult eastbound overThirdLeg otherStaleDistance (F32.of_Z 1) (F32.of_Z 2).
Proof.
  split; [reflexivity|]. split; [reflexivity|].
  exact (nearestLegResult_ignores_stale_values eastbound overThirdLeg staleDistance
           otherStaleDistance F32.zero F32.zero (F32.of_Z 1) (F32.of_Z 2) eq_refl eq_refl).
Defined.

Lemma nearestLegResult_agrees_with_nearestAllLegIndex_witness :
  (forall l, In l (legs eastbound) -> isAnyProcedure l = false)
  /\ Route_size eastbound <= INVALID_INDEX_VALUE
  /\ nearestLegResult eastbound (pos (aircraft 150000 0 90)) staleDistance F32.zero F32.zero
     = Some (lineDistance overThirdLeg (at_m 100000 0) (at_m 200000 0), 2)
  /\ snd <$> nearestAllLegIndex eastbound (aircraft 150000 0 90) = Some 2.
Proof.
  assert (forall l, In l (legs eastbound) -> isAnyProcedure l = false) as H1.
  { intros l [<-|[<-|[<-|[<-|[]]]]]; reflexivity. }
  assert (Route_size eastbound <= INVALID_INDEX_VALUE) as H2 by by_evaluation.
  assert (nearestLegResult eastbound (pos (aircraft 150000 0 90)) staleDistance
                           F32.zero F32.zero
          = Some (lineDistance overThirdLeg (at_m 100000 0) (at_m 200000 0), 2)) as H3
    by (vm_compute; reflexivity).
  split; [exact H1|]. split; [exact H2|]. split; [exact H3|].
  rewrite (nearestLegResult_agrees_with_nearestAllLegIndex eastbound (aircraft 150000 0 90)
             staleDistance F32.zero F32.zero _ 2 H1 H2 H3).
  vm_compute. reflexivity.
Defined.

Lemma nearestLegResult_first_of_the_nearest_witness :
  nearestLegResult eastbound overThirdLeg staleDistance F32.zero F32.zero
  = Some (lineDistance overThirdLeg (at_m 100000 0) (at_m 200000 0), 2)
  /\ 2 <> INVALID_INDEX_VALUE
  /\ 1 < 2
  /\ Route_at eastbound (1 - 1) = Some (airport 0 0)
  /\ Route_at eastbound 1 = Some (waypoint 100000 0)
  /\ isAnyProcedure (airport 0 0) = false
  /\ LineDist_eqb (status (lineDistance overThirdLeg (at_m 0 0) (at_m 100000 0))) INVALID
     = false
  /\ F32.is_finite (distance (lineDistance overThirdLeg (at_m 0 0) (at_m 100000 0))) = true
  /\ F32.ltb (F32.abs (distance (lineDistance overThirdLeg (at_m 100000 0) (at_m 200000 0))))
             (F32.abs (distance (lineDistance overThirdLeg (at_m 0 0) (at_m 100000 0))))
     = true.
Proof.
  assert (nearestLegResult eastbound overThirdLeg staleDistance F32.zero F32.zero
          = Some (lineDistance overThirdLeg (at_m 100000 0) (at_m 200000 0), 2)) as H1
    by (vm_compute; reflexivity).
  assert (2 <> INVALID_INDEX_VALUE) as H2 by discriminate.
  assert (1 < 2) as H3 by reflexivity.
  assert (Route_at eastbound (1 - 1) = Some (airport 0 0)) as H4 by reflexivity.
  assert (Route_at eastbound 1 = Some (waypoint 100000 0)) as H5 by reflexivity.
  assert (isAnyProcedure (airport 0 0) = false) as H6 by reflexivity.
  assert (LineDist_eqb (status (lineDistance overThirdLeg (at_m 0 0) (at_m 100000 0))) INVALID
          = false) as H7 by (vm_compute; reflexivity).
  assert (F32.is_finite (distance (lineDistance overThirdLeg (at_m 0 0) (at_m 100000 0)))
          = true) as H8 by (vm_compute; reflexivity).
  split; [exact H1|]. split; [exact H2|]. split; [exact H3|]. split; [exact H4|].
  split; [exact H5|]. split; [exact H6|]. split; [exact H7|]. split; [exact H8|].
  exact (nearestLegResult_first_of_the_nearest eastbound overThirdLeg staleDistance
           F32.zero F32.zero _ 2 H1 H2 1 (airport 0 0) (waypoint 100000 0)
           H3 H4 H5 H6 H7 H8).
Defined.

(** ** Procedures *)

Lemma eraseProcedureLegs_any_type_witness :
  length (entries (flightplan procedureRoute)) = length (legs procedureRoute)
  /\ length (entries (flightplan (eraseProcedureLegs procedureRoute PROCEDURE_STAR)))
     = length (legs (eraseProcedureLegs procedureRoute PROCEDURE_STAR))
  /\ eraseProcedureLegs (eraseProcedureLegs procedureRoute PROCEDURE_STAR) PROCEDURE_STAR
     = eraseProcedureLegs procedureRoute PROCEDURE_STAR.
Proof.
  assert (length (entries (flightplan procedureRoute)) = length (legs procedureRoute)) as H1
    by reflexivity.
  split; [exact H1|].
  pose proof (eraseProcedureLegs_any_type procedureRoute PROCEDURE_STAR H1) as H.
  cbv zeta in H. destruct H as (_ & _ & Hlen & _ & Hidem).
  split; [exact Hlen|exact Hidem].
Defined.

Lemma updateProcedureLegs_rebuilds_witness :
  legs (eraseProcedureLegs procedureRoute PROCEDURE_ALL)
  = airport 0 0 :: [waypoint 50000 0] ++ [airport 130000 0]
  /\ entries (flightplan (eraseProcedureLegs procedureRoute PROCEDURE_ALL))
     = "A" :: ["W"] ++ ["D"]
  /\ exists r',
       updateProcedureLegs procedureRoute = Some r'
       /\ departureLegsOffset r' = 1
       /\ starLegsOffset r' = 3
       /\ arrivalLegsOffset r' = 4
       /\ entries (flightplan r') = ["A"; ""; "W"; ""; ""; "D"].
Proof.
  assert (legs (eraseProcedureLegs procedureRoute PROCEDURE_ALL)
          = airport 0 0 :: [waypoint 50000 0] ++ [airport 130000 0]) as H1 by reflexivity.
  assert (entries (flightplan (eraseProcedureLegs procedureRoute PROCEDURE_ALL))
          = "A" :: ["W"] ++ ["D"]) as H2 by reflexivity.
  split; [exact H1|]. split; [exact H2|].
  pose proof (updateProcedureLegs_rebuilds procedureRoute (airport 0 0) (airport 130000 0)
                [waypoint 50000 0] "A" "D" ["W"] H1 H2) as H.
  cbv zeta in H. destruct H as (r' & Hr' & _ & Hentries & Hdep & Hstar & Harr & _).
  exists r'. split; [exact Hr'|].
  split; [rewrite Hdep; reflexivity|].
  split; [rewrite Hstar; reflexivity|].
  split; [rewrite Harr; reflexivity|].
  rewrite Hentries. reflexivity.
Defined.

(** ** User waypoint numbers and the flight-plan predicates *)

Lemma getNextUserWaypointNumber_next_witness :
  (forall e, In e (entries (flightplan userRoute)) -> entryIsUser e = true ->
             entryUserNumber e < INT_MAX)
  /\ exists n,
       getNextUserWaypointNumber userRoute = Some n
       /\ 1 <= n
       /\ forall e, In e (entries (flightplan userRoute)) -> entryIsUser e = true ->
                    entryUserNumber e < n.
Proof.
  assert (forall e, In e (entries (flightplan userRoute)) -> entryIsUser e = true ->
                    entryUserNumber e < INT_MAX) as H1.
  { intros e [<-|[<-|[<-|[<-|[]]]]] _; reflexivity. }
  split; [exact H1|].
  destruct (getNextUserWaypointNumber_next userRoute H1) as (n & Hn & Hge & Hall & _).
  exists n. split; [exact Hn|]. split; [exact Hge|exact Hall].
Defined.

Lemma departure_predicates_witness :
  length (entries (flightplan userRoute)) = length (legs userRoute)
  /\ is_Some (hasValidDeparture userRoute)
  /\ is_Some (hasValidDestination userRoute)
  /\ is_Some (hasDepartureHelipad userRoute).
Proof.
  assert (length (entries (flightplan userRoute)) = length (legs userRoute)) as H1
    by reflexivity.
  split; [exact H1|].
  destruct (departure_predicates userRoute H1) as ((Hdep & Hdest & _ & _ & Hheli) & _).
  split; [exact Hdep|]. split; [exact Hdest|exact Hheli].
Defined.

(** ** The update pass *)

Lemma updateDistancesAndCourse_leaves_airport_after_arrival_witness :
  isAirportAfterArrival procedureRoute (Route_size procedureRoute - 1) = Some true
  /\ exists r',
       updateDistancesAndCourse procedureRoute = Some r'
       /\ Route_at r' (Route_size procedureRoute - 1)
          = Route_at procedureRoute (Route_size procedureRoute - 1).
Proof.
  assert (isAirportAfterArrival procedureRoute (Route_size procedureRoute - 1) = Some true)
    as H1 by (vm_compute; reflexivity).
  split; [exact H1|].
  destruct (updateDistancesAndCourse_leaves_airport_after_arrival procedureRoute H1)
    as (r' & Hr' & _ & Hlast).
  exists r'. split; [exact Hr'|exact Hlast].
Defined.

(** ** The switch at a hold *)

Lemma switch_rule_next_leg_is_hold_witness :
  PosCourse_isValid besideHoldEntry = true
  /\ Route_size (withActive holdAheadRoute 1) <= INVALID_INDEX_VALUE
  /\ 1 <= activeLeg (withActive holdAheadRoute 1)
  /\ Route_at (withActive holdAheadRoute 1) (activeLeg (withActive holdAheadRoute 1) - 1)
     = Some (airport 0 0)
  /\ Route_at (withActive holdAheadRoute 1) (activeLeg (withActive holdAheadRoute 1))
     = Some (waypoint 5000 0)
  /\ Route_at (withActive holdAheadRoute 1) (activeLeg (withActive holdAheadRoute 1) + 1)
     = Some holdLeg
  /\ isHold (waypoint 5000 0) = false
  /\ isHold holdLeg = true
  /\ exists r',
       updateActiveLegAndPos besideHoldEntry (withActive holdAheadRoute 1) = Some r'
       /\ activeLeg r' = 2.
Proof.
  assert (PosCourse_isValid besideHoldEntry = true) as H1 by reflexivity.
  assert (Route_size (withActive holdAheadRoute 1) <= INVALID_INDEX_VALUE) as H2
    by by_evaluation.
  assert (1 <= activeLeg (withActive holdAheadRoute 1)) as H3 by by_evaluation.
  assert (Route_at (withActive holdAheadRoute 1) (activeLeg (withActive holdAheadRoute 1) - 1)
          = Some (airport 0 0)) as H4 by reflexivity.
  assert (Route_at (withActive holdAheadRoute 1) (activeLeg (withActive holdAheadRoute 1))
          = Some (waypoint 5000 0)) as H5 by reflexivity.
  assert (Route_at (withActive holdAheadRoute 1) (activeLeg (withActive holdAheadRoute 1) + 1)
          = Some holdLeg) as H6 by reflexivity.
  assert (isHold (waypoint 5000 0) = false) as H7 by reflexivity.
  assert (isHold holdLeg = true) as H8 by reflexivity.
  split; [exact H1|]. split; [exact H2|]. split; [exact H3|]. split; [exact H4|].
  split; [exact H5|]. split; [exact H6|]. split; [exact H7|]. split; [exact H8|].
  pose proof (switch_rule_next_leg_is_hold besideHoldEntry (withActive holdAheadRoute 1)
                (airport 0 0) (waypoint 5000 0) holdLeg H1 H2 H3 H4 H5 H6 H7 H8) as H.
  cbv zeta in H. destruct H as (r' & Hr' & Hleg & _).
  exists r'. split; [exact Hr'|]. rewrite Hleg. vm_compute. reflexivity.
Defined.

Lemma switch_rule_hold_exit_at_next_leg_witness :
  PosCourse_isValid pastHoldFix = true
  /\ Route_size (withActive holdExitRoute 1) <= INVALID_INDEX_VALUE
  /\ 1 <= activeLeg (withActive holdExitRoute 1)
  /\ Route_at (withActive holdExitRoute 1) (activeLeg (withActive holdExitRoute 1) - 1)
     = Some (airport 0 0)
  /\ Route_at (withActive holdExitRoute 1) (activeLeg (withActive holdExitRoute 1))
     = Some holdLeg
  /\ isHold holdLeg = true
  /\ nextLegCandidate (withActive holdExitRoute 1) holdLeg
                      (activeLeg (withActive holdExitRoute 1) + 1) = Some 2
  /\ Route_at (withActive holdExitRoute 1) (2 - 1) = Some holdLeg
  /\ Route_at (withActive holdExitRoute 1) 2 = Some exitLeg
  /\ Pos_eqb (Line_getPos1 (line (getApproachLeg exitLeg))) (getPosition holdLeg) = true
  /\ exists r',
       updateActiveLegAndPos pastHoldFix (withActive holdExitRoute 1) = Some r'
       /\ activeLeg r' = 2.
Proof.
  assert (PosCourse_isValid pastHoldFix = true) as H1 by reflexivity.
  assert (Route_size (withActive holdExitRoute 1) <= INVALID_INDEX_VALUE) as H2
    by by_evaluation.
  assert (1 <= activeLeg (withActive holdExitRoute 1)) as H3 by by_evaluation.
  assert (Route_at (withActive holdExitRoute 1) (activeLeg (withActive holdExitRoute 1) - 1)
          = Some (airport 0 0)) as H4 by reflexivity.
  assert (Route_at (withActive holdExitRoute 1) (activeLeg (withActive holdExitRoute 1))
          = Some holdLeg) as H5 by reflexivity.
  assert (isHold holdLeg = true) as H6 by reflexivity.
  assert (nextLegCandidate (withActive holdExitRoute 1) holdLeg
                           (activeLeg (withActive holdExitRoute 1) + 1) = Some 2) as H7
    by (vm_compute; reflexivity).
  assert (Route_at (withActive holdExitRoute 1) (2 - 1) = Some holdLeg) as H8 by reflexivity.
  assert (Route_at (withActive holdExitRoute 1) 2 = Some exitLeg) as H9 by reflexivity.
  assert (Pos_eqb (Line_getPos1 (line (getApproachLeg exitLeg))) (getPosition holdLeg) = true)
    as H10 by (vm_compute; reflexivity).
  split; [exact H1|]. split; [exact H2|]. split; [exact H3|]. split; [exact H4|].
  split; [exact H5|]. split; [exact H6|]. split; [exact H7|]. split; [exact H8|].
  split; [exact H9|]. split; [exact H10|].
  pose proof (switch_rule_hold_exit_at_next_leg pastHoldFix (withActive holdExitRoute 1)
                (airport 0 0) holdLeg 2 holdLeg exitLeg H1 H2 H3 H4 H5 H6 H7 H8 H9 H10) as H.
  cbv zeta in H. destruct H as (r' & Hr' & Hleg & _).
  exists r'. split; [exact Hr'|]. rewrite Hleg. vm_compute. reflexivity.
Defined.

(** ** Splicing and erasing *)

Lemma updateProcedureLegs_then_erase_witness :
  length (entries (flightplan procedureRoute)) = length (legs procedureRoute)
  /\ (2 <= length (legs (eraseProcedureLegs procedureRoute PROCEDURE_ALL)))%nat
  /\ (forall i legSet prev,
         eraseMatches PROCEDURE_ALL (createFromApproachLeg i legSet prev) = true)
  /\ exists r',
       updateProcedureLegs procedureRoute = Some r'
       /\ legs (eraseProcedureLegs r' PROCEDURE_ALL)
          = legs (eraseProcedureLegs procedureRoute PROCEDURE_ALL).
Proof.
  assert (length (entries (flightplan procedureRoute)) = length (legs procedureRoute)) as H1
    by reflexivity.
  assert (2 <= length (legs (eraseProcedureLegs procedureRoute PROCEDURE_ALL)))%nat as H2
    by (vm_compute; lia).
  assert (forall i legSet prev,
             eraseMatches PROCEDURE_ALL (createFromApproachLeg i legSet prev) = true) as H3.
  { intros i legSet prev. unfold createFromApproachLeg, procedureBuild.
    destruct (MapProcedureLegs_at legSet i); reflexivity. }
  split; [exact H1|]. split; [exact H2|]. split; [exact H3|].
  destruct (updateProcedureLegs_then_erase procedureRoute H1 H2 H3) as (r' & Hr' & _ & Hlegs & _).
  exists r'. split; [exact Hr'|exact Hlegs].
Defined.
